(** * ImageSampler: the separable resampling engine of libs/image

    A shallow embedding of [libs/image/src/ImageSampler.cpp]: the filter
    kernels, the generator of multiply-add (MAD) programs, the channel
    expander, the row executor and the 1D / 2D drivers.

    Conventions of the embedding.
    - [float] is IEEE 754 binary32, taken from the Standard Library's
      [SpecFloat] at precision 24 and maximal exponent 128.  Every C++ [float]
      operation is one correctly rounded binary32 operation (round to nearest,
      ties to even); no operation is fused or evaluated in a wider format.
    - [uint32_t] and [int32_t] values are integers of [Z]; the places where the
      C++ arithmetic wraps are written with [wrap_uint32] and [wrap_int32].
    - A call that aborts ([PANIC_PRECONDITION], [ASSERT_PRECONDITION]) or
      whose behaviour is undefined in C++ (a float to integer conversion that
      does not fit, an index outside a buffer, a signed overflow of a loop
      counter) yields [Err].
    - [expf] and [sinf] come from the C library and the normalisation of a
      [float3] from [math/vec3.h]; they are parameters of the development. *)

From Stdlib Require Import ZArith Bool Lia String QArith.
From Stdlib Require Import Floats.SpecFloat.
From stdpp Require Import base list sorting.

Local Open Scope Z_scope.

(* ===================================================================== *)
(** ** Binary32 arithmetic *)
(* ===================================================================== *)

Module F32.

Definition prec : Z := 24.
Definition emax : Z := 128.

Definition float : Type := spec_float.

Definition add : float -> float -> float := SFadd prec emax.
Definition sub : float -> float -> float := SFsub prec emax.
Definition mul : float -> float -> float := SFmul prec emax.
Definition div : float -> float -> float := SFdiv prec emax.
Definition sqrtf : float -> float := SFsqrt prec emax.
Definition abs : float -> float := SFabs.
Definition neg : float -> float := SFopp.

(** Comparisons: all are false when an operand is NaN, except [ne]. *)
Definition lt (x y : float) : bool := SFltb x y.
Definition le (x y : float) : bool := SFleb x y.
Definition ge (x y : float) : bool := SFleb y x.
Definition eq (x y : float) : bool := SFeqb x y.
Definition ne (x y : float) : bool := negb (SFeqb x y).

(** [float(n)] for an integer [n]: rounded to nearest. *)
Definition of_Z (n : Z) : float := binary_normalize prec emax n 0 false.

Definition zero : float := S754_zero false.
Definition one : float := of_Z 1.
Definition two : float := of_Z 2.
Definition half : float := div one two.
Definition nan : float := S754_nan.
Definition infinity : float := S754_infinity false.

(** [std::numeric_limits<float>::max()]. *)
Definition max_float : float := SFmax_float prec emax.

(** The integer part of a float, rounded toward zero; [None] for NaN and
    the infinities. *)
Definition trunc (x : float) : option Z :=
  match x with
  | S754_zero _ => Some 0
  | S754_finite s m e =>
      let a := match e with
               | Zneg p => Z.pos m / 2 ^ Z.pos p
               | _ => Z.pos m * 2 ^ e
               end in
      Some (if s then - a else a)
  | _ => None
  end.

(** [ceilf]. The result of a finite argument is an integer that binary32
    represents exactly; the sign of a zero result is the argument's. *)
Definition ceilf (x : float) : float :=
  match x with
  | S754_finite s m (Zneg p) =>
      let q := Z.pos m / 2 ^ Z.pos p in
      let r := Z.pos m mod 2 ^ Z.pos p in
      if s then binary_normalize prec emax (- q) 0 true
      else binary_normalize prec emax (if r =? 0 then q else q + 1) 0 false
  | _ => x
  end.

(** The integer part of a float, rounded toward minus infinity. The code
    does not use it; it states the floor the specification speaks of. *)
Definition floor (x : float) : option Z :=
  match x with
  | S754_zero _ => Some 0
  | S754_finite s m e =>
      match e with
      | Zneg p =>
          if s then Some (- ((Z.pos m + 2 ^ Z.pos p - 1) / 2 ^ Z.pos p))
          else Some (Z.pos m / 2 ^ Z.pos p)
      | _ => Some (if s then - (Z.pos m * 2 ^ e) else Z.pos m * 2 ^ e)
      end
  | _ => None
  end.

(** The exact rational value of a float; [None] for NaN and the
    infinities. *)
Definition to_Q (x : float) : option Q :=
  match x with
  | S754_zero _ => Some 0%Q
  | S754_finite s m e =>
      let a := match e with
               | Zneg p => Qmake (Z.pos m) (2 ^ p)
               | _ => inject_Z (Z.pos m * 2 ^ e)
               end in
      Some (if s then Qopp a else a)
  | _ => None
  end.

Definition is_finite (x : float) : bool :=
  match x with
  | S754_zero _ | S754_finite _ _ _ => true
  | _ => false
  end.

End F32.

Abbreviation float := F32.float.

Declare Scope f32_scope.
Delimit Scope f32_scope with f32.
Infix "+" := F32.add : f32_scope.
Infix "-" := F32.sub : f32_scope.
Infix "*" := F32.mul : f32_scope.
Infix "/" := F32.div : f32_scope.
Infix "<?" := F32.lt : f32_scope.
Infix "<=?" := F32.le : f32_scope.
Infix ">=?" := F32.ge : f32_scope.
Infix "!=?" := F32.ne (at level 70) : f32_scope.

(** *** Values and rounding

    The quantities in which the rounding of the binary32 operations is
    measured. *)

(** [located m N D l]: the location [l] records where the rational [N / D]
    lies between the integers [m] and [m + 1]. *)
Definition located (m N D : Z) (l : location) : Prop :=
  match l with
  | loc_Exact => N = m * D
  | loc_Inexact Lt => m * D < N /\ 2 * N < (2 * m + 1) * D
  | loc_Inexact Eq => 2 * N = (2 * m + 1) * D
  | loc_Inexact Gt => (2 * m + 1) * D < 2 * N /\ N < (m + 1) * D
  end.

(** The value of a positive finite number whose exponent is at least
    [-149], in units of [2^-149]; 0 for every other number. *)
Definition units (x : float) : Z :=
  match x with
  | S754_finite false m e => Z.pos m * 2 ^ (e + 149)
  | _ => 0
  end.

(** The positive finite numbers of binary32 (any mantissa, exponent at
    least [-149]). *)
Definition positiveFinite (x : float) : bool :=
  match x with
  | S754_finite false m e => -149 <=? e
  | _ => false
  end.

(** The exact sum of the values of a list of numbers. *)
Definition unitsSum (ws : list float) : Z :=
  fold_right (fun w a => units w + a) 0 ws.

(** What is known of the binary32 running sum [acc] of [j] positive
    numbers whose exact sum is [W]: it is still zero, or it overflowed, or
    it is [W] up to the relative error [2 (j - 1) 2^-24]. *)
Definition sumInv (acc : float) (W j : Z) : Prop :=
  (acc = S754_zero false /\ W = 0 /\ j = 0) \/
  (acc = S754_infinity false /\ 1 <= j) \/
  (positiveFinite acc = true /\ 1 <= j /\ 0 < W /\
   - (2 * (j - 1) * W) <= 2 ^ 24 * (units acc - W) <= 2 * (j - 1) * W).

(* ===================================================================== *)
(** ** Machine integers *)
(* ===================================================================== *)

Definition wrap_uint32 (z : Z) : Z := z mod 2 ^ 32.

Definition wrap_int32 (z : Z) : Z := (z + 2 ^ 31) mod 2 ^ 32 - 2 ^ 31.

Definition INT32_MAX : Z := 2 ^ 31 - 1.
Definition INT32_MIN : Z := - 2 ^ 31.

(** Outcomes of a call that may abort or be undefined. *)
Inductive error : Type :=
| Panic (msg : string)
| Undefined (what : string).

Inductive result (A : Type) : Type :=
| Ok (a : A)
| Err (e : error).
Arguments Ok {A} a.
Arguments Err {A} e.

Definition bind {A B : Type} (r : result A) (k : A -> result B) : result B :=
  match r with
  | Ok a => k a
  | Err e => Err e
  end.

Notation "'let*' x ':=' r 'in' k" := (bind r (fun x => k))
  (at level 10, x name, r at level 100, k at level 200).

Notation "'let*' ' p ':=' r 'in' k" := (bind r (fun x => match x with p => k end))
  (at level 10, p pattern, r at level 100, k at level 200).

(** [int32_t(x)] for a float [x]: truncation; undefined when the truncated
    value is not an [int32_t]. *)
Definition int32_of_float (x : float) : result Z :=
  match F32.trunc x with
  | Some z => if (INT32_MIN <=? z) && (z <=? INT32_MAX) then Ok z
              else Err (Undefined "float to int32_t conversion out of range")
  | None => Err (Undefined "float to int32_t conversion of a non-finite value")
  end.

(** Stand-ins for the parameters of the development, for the evaluations
    that do not reach them. *)
Definition nolibm : float -> float := fun _ => F32.nan.
Definition novec : float * float * float -> float * float * float := fun v => v.

(* ===================================================================== *)
(** ** Kernel registry *)
(* ===================================================================== *)

Section ImageSampler.

(** [expf] and [sinf] of the C library. *)
Variables expf sinf : float -> float.

(** [normalize] of [math/vec3.h] on a [float3]. *)
Variable vnormalize : float * float * float -> float * float * float.

Local Open Scope f32_scope.

Record FilterFn : Type := {
  fn : float -> float;
  boundingRadius : float;
  rejectExternalSamples : bool
}.

(** [float(M_PI)], the binary32 nearest to pi: 0x40490FDB. *)
Definition M_PIf : float := S754_finite false 13176795 (-22).

Definition Box : FilterFn := {|
  fn := fun t => if t <=? F32.half then F32.one else F32.zero;
  boundingRadius := F32.one;
  rejectExternalSamples := true
|}.

Definition Nearest : FilterFn := {|
  fn := fn Box;
  boundingRadius := F32.zero;
  rejectExternalSamples := true
|}.

(** The comparison [t >= 2.0] is made in double precision in C++; both
    operands are binary32 values, so it is the binary32 comparison. *)
Definition Gaussian : FilterFn := {|
  fn := fun t =>
    if t >=? F32.two then F32.zero
    else
      let scale := F32.one / F32.sqrtf (F32.half * M_PIf) in
      expf (F32.neg F32.two * t * t) * scale;
  boundingRadius := F32.two;
  rejectExternalSamples := true
|}.

Definition Hermite : FilterFn := {|
  fn := fun t =>
    if t >=? F32.one then F32.zero
    else F32.of_Z 2 * t * t * t - F32.of_Z 3 * t * t + F32.of_Z 1;
  boundingRadius := F32.one;
  rejectExternalSamples := true
|}.

Definition Mitchell : FilterFn := {|
  fn := fun t =>
    let B := F32.one / F32.of_Z 3 in
    let C := F32.one / F32.of_Z 3 in
    let P0 := (F32.of_Z 6 - F32.of_Z 2 * B) / F32.of_Z 6 in
    let P1 := F32.of_Z 0 in
    let P2 := (F32.of_Z (-18) + F32.of_Z 12 * B + F32.of_Z 6 * C) / F32.of_Z 6 in
    let P3 := (F32.of_Z 12 - F32.of_Z 9 * B - F32.of_Z 6 * C) / F32.of_Z 6 in
    let Q0 := (F32.of_Z 8 * B + F32.of_Z 24 * C) / F32.of_Z 6 in
    let Q1 := (F32.of_Z (-12) * B - F32.of_Z 48 * C) / F32.of_Z 6 in
    let Q2 := (F32.of_Z 6 * B + F32.of_Z 30 * C) / F32.of_Z 6 in
    let Q3 := (F32.of_Z (-1) * B - F32.of_Z 6 * C) / F32.of_Z 6 in
    if t >=? F32.two then F32.zero
    else if t >=? F32.one then Q0 + Q1 * t + Q2 * t * t + Q3 * t * t * t
    else P0 + P1 * t + P2 * t * t + P3 * t * t * t;
  boundingRadius := F32.two;
  rejectExternalSamples := true
|}.

Definition sinc (t : float) : float :=
  if t <=? F32.one / F32.of_Z 100000 then F32.one
  else sinf (M_PIf * t) / (M_PIf * t).

Definition Lanczos : FilterFn := {|
  fn := fun t =>
    if t >=? F32.one then F32.zero
    else sinc t * sinc t;
  boundingRadius := F32.one;
  rejectExternalSamples := true
|}.

(** The closed set of kernels. *)
Definition registry : list FilterFn :=
  [Box; Nearest; Gaussian; Hermite; Mitchell; Lanczos].

(* =================================================================== *)
(** ** MAD programs *)
(* =================================================================== *)

(** [target[targetIndex] += source[sourceIndex] * weight]; [targetIndex] is
    a [uint32_t], [sourceIndex] an [int32_t]. *)
Record MadInstruction : Type := {
  targetIndex : Z;
  sourceIndex : Z;
  weight : float
}.

Abbreviation MadProgram := (list MadInstruction).

(** The locals of one target's scan: the vector being appended to, the
    number of instructions appended for this target and their sum. *)
Record ScanState : Type := {
  result_ : MadProgram;
  count : Z;
  sum : float
}.

(** [mad->weight /= sum] over the last [count] instructions of the
    vector. *)
Definition normalizeTail (count : Z) (sum : float) (program : MadProgram)
  : result MadProgram :=
  let size := Z.of_nat (length program) in
  if (count <=? size)%Z then
    let k := Z.to_nat (size - count)%Z in
    Ok (take k program ++
        map (fun mad => {| targetIndex := targetIndex mad;
                           sourceIndex := sourceIndex mad;
                           weight := weight mad / sum |})
            (drop k program))
  else Err (Undefined "normalisation before the start of the program").

Section Generator.

Variables (ntarget nsource : Z) (left right : float)
          (filter : FilterFn) (radiusMultiplier : float).

Definition dtarget : float := F32.one / F32.of_Z ntarget.
Definition fnsource : float := F32.of_Z nsource * (right - left).
Definition minifying : bool := F32.of_Z ntarget <? fnsource.
Definition domainScale : float :=
  (if minifying then F32.of_Z ntarget else fnsource) / radiusMultiplier.
Definition filterBounds : float :=
  domainScale * F32.abs (boundingRadius filter).

Definition isource_lower (xtarget : float) : result Z :=
  int32_of_float ((xtarget - filterBounds) * F32.of_Z nsource).

Definition isource_upper (xtarget : float) : result Z :=
  int32_of_float (F32.ceilf ((xtarget + filterBounds) * F32.of_Z nsource)).

Definition xsource_of (isource : Z) : float :=
  (((F32.of_Z isource + F32.half) / F32.of_Z nsource) - left) / (right - left).

Definition outside_image (isource : Z) : bool :=
  (isource <? 0)%Z || (isource >=? wrap_int32 nsource)%Z.

Definition outside_range (xsource : float) : bool :=
  (xsource <? F32.zero) || (xsource >=? F32.one).

(** The body of the loop over source samples. *)
Definition scanBody (itarget : Z) (xtarget : float) (isource : Z)
           (st : ScanState) : ScanState :=
  let xsource := xsource_of isource in
  if rejectExternalSamples filter
     && (outside_image isource || outside_range xsource)
  then st
  else
    let t := domainScale * F32.abs (xsource - xtarget) in
    let w := fn filter t in
    if w !=? F32.zero then
      {| result_ := result_ st ++
                    [ {| targetIndex := itarget;
                         sourceIndex := isource;
                         weight := w |} ];
         count := wrap_uint32 (count st + 1)%Z;
         sum := sum st + w |}
    else st.

(** [for (isource = lower; isource <= upper; ++isource)]: the body runs
    for the [n = upper - lower + 1] indices from [lower]; the increment
    that follows the body at [INT32_MAX] overflows. *)
Fixpoint scanLoop (n : nat) (itarget : Z) (xtarget : float) (isource : Z)
         (st : ScanState) : result ScanState :=
  match n with
  | O => Ok st
  | S n' =>
      let st' := scanBody itarget xtarget isource st in
      if (isource =? INT32_MAX)%Z
      then Err (Undefined "signed overflow of isource")
      else scanLoop n' itarget xtarget (isource + 1)%Z st'
  end.

(** One iteration of the loop over target samples. *)
Definition scanTarget (itarget : Z) (xtarget : float) (program : MadProgram)
  : result MadProgram :=
  let* lower := isource_lower xtarget in
  let* upper := isource_upper xtarget in
  let* st := scanLoop (Z.to_nat (upper - lower + 1)%Z) itarget xtarget lower
               {| result_ := program; count := 0; sum := F32.zero |} in
  if sum st !=? F32.zero
  then normalizeTail (count st) (sum st) (result_ st)
  else Ok (result_ st).

Fixpoint targetLoop (n : nat) (itarget : Z) (xtarget : float)
         (program : MadProgram) : result MadProgram :=
  match n with
  | O => Ok program
  | S n' =>
      let* program' := scanTarget itarget xtarget program in
      targetLoop n' (wrap_uint32 (itarget + 1)%Z) (xtarget + dtarget) program'
  end.

(** [generateMadProgram] appends to [*result]. *)
Definition generateMadProgram (program : MadProgram) : result MadProgram :=
  targetLoop (Z.to_nat ntarget) 0 (dtarget / F32.two) program.

End Generator.

(** [for (j = 0; j < nchannels; ++j, ++mad.sourceIndex, ++mad.targetIndex)
    result.push_back(mad)]. The increments wrap (for the signed one this is
    what two's complement hardware does). *)
Fixpoint channelLoop (n : nat) (mad : MadInstruction) (program : MadProgram)
  : MadProgram :=
  match n with
  | O => program
  | S n' =>
      channelLoop n'
        {| targetIndex := wrap_uint32 (targetIndex mad + 1)%Z;
           sourceIndex := wrap_int32 (sourceIndex mad + 1)%Z;
           weight := weight mad |}
        (program ++ [mad])
  end.

(** Both products are computed on [uint32_t]; the source index is converted
    back to [int32_t]. *)
Definition expandMadProgram (nchannels : Z) (program : MadProgram) : MadProgram :=
  if (nchannels =? 1)%Z then program
  else
    fold_left
      (fun acc mad =>
         channelLoop (Z.to_nat nchannels)
           {| targetIndex := wrap_uint32 (targetIndex mad * nchannels)%Z;
              sourceIndex := wrap_int32 (sourceIndex mad * nchannels)%Z;
              weight := weight mad |}
           acc)
      program [].

(* =================================================================== *)
(** ** Images and sampler configuration *)
(* =================================================================== *)

(** Modelled from the spec: [image/LinearImage.h] is not part of src. An
    image owns a row-major buffer of [width * height * channels] samples;
    a new image is filled with zeros. The spec calls an image with a zero
    dimension or no channel invalid; the check is not in src either, and
    [newLinearImage] allocates for any sizes, so that no property below is
    about what a call does with such an image in particular. *)
Record LinearImage : Type := {
  getWidth : Z;
  getHeight : Z;
  getChannels : Z;
  get : list float
}.

Definition newLinearImage (width height channels : Z) : LinearImage := {|
  getWidth := width;
  getHeight := height;
  getChannels := channels;
  get := replicate (Z.to_nat (width * height * channels)) F32.zero
|}.

Definition withData (image : LinearImage) (data : list float) : LinearImage := {|
  getWidth := getWidth image;
  getHeight := getHeight image;
  getChannels := getChannels image;
  get := data
|}.

(** Modelled from the spec: [transpose] of [image/ImageOps.h] is not part of
    src; it swaps width and height and reorders the samples. *)
Definition transpose (image : LinearImage) : LinearImage :=
  let w := Z.to_nat (getWidth image) in
  let h := Z.to_nat (getHeight image) in
  let c := Z.to_nat (getChannels image) in
  {| getWidth := getHeight image;
     getHeight := getWidth image;
     getChannels := getChannels image;
     get :=
       col ← seq 0 w;
       row ← seq 0 h;
       ch ← seq 0 c;
       [default F32.zero (get image !! ((row * w + col) * c + ch)%nat)]
  |}.

(** The filter kinds named by [createFilterFunction]; the enumeration is
    declared in [image/ImageSampler.h]. *)
Inductive Filter : Type :=
| DEFAULT | BOX | NEAREST | HERMITE | GAUSSIAN_SCALARS | GAUSSIAN_NORMALS
| MITCHELL | LANCZOS | MINIMUM.

Definition Filter_eqb (a b : Filter) : bool :=
  match a, b with
  | DEFAULT, DEFAULT | BOX, BOX | NEAREST, NEAREST | HERMITE, HERMITE
  | GAUSSIAN_SCALARS, GAUSSIAN_SCALARS | GAUSSIAN_NORMALS, GAUSSIAN_NORMALS
  | MITCHELL, MITCHELL | LANCZOS, LANCZOS | MINIMUM, MINIMUM => true
  | _, _ => false
  end.

(** Modelled from the spec: the boundary modes are declared in
    [image/ImageSampler.h], which is not part of src. The code names only
    [EXCLUDE]; every other mode is an [OtherBoundary]. *)
Inductive Boundary : Type :=
| EXCLUDE
| OtherBoundary (tag : nat).

Definition Boundary_eqb (a b : Boundary) : bool :=
  match a, b with
  | EXCLUDE, EXCLUDE => true
  | OtherBoundary m, OtherBoundary n => Nat.eqb m n
  | _, _ => false
  end.

(** Modelled from the spec: the sampler configuration is declared in
    [image/ImageSampler.h], which is not part of src. The records below have
    the members [resampleImage] reads: the mode of each of the four edges,
    the source region, the two filter kinds and the radius multiplier. *)
Record BoundaryEdge : Type := { mode : Boundary }.

Record Region : Type := {
  left : float;
  top : float;
  right : float;
  bottom : float
}.

Record ImageSampler : Type := {
  horizontalFilter : Filter;
  verticalFilter : Filter;
  sourceRegion : Region;
  filterRadiusMultiplier : float;
  east : BoundaryEdge;
  north : BoundaryEdge;
  west : BoundaryEdge;
  south : BoundaryEdge
}.

(** Modelled from the spec: [utils/Panic.h] is not part of src.
    [ASSERT_PRECONDITION(cond, msg)] aborts with [msg] when [cond] is
    false. *)
Definition ASSERT_PRECONDITION (cond : bool) (msg : string) : result unit :=
  if cond then Ok tt else Err (Panic msg).

(** [PANIC_PRECONDITION], of the same header, aborts. *)
Definition createFilterFunction (ftype : Filter) : result FilterFn :=
  match ftype with
  | MINIMUM | BOX => Ok Box
  | NEAREST => Ok Nearest
  | HERMITE => Ok Hermite
  | MITCHELL => Ok Mitchell
  | LANCZOS => Ok Lanczos
  | GAUSSIAN_NORMALS | GAUSSIAN_SCALARS => Ok Gaussian
  | DEFAULT => Err (Panic "Unresolved filter type.")
  end.

(* =================================================================== *)
(** ** Executor *)
(* =================================================================== *)

(** [p[i]] for a pointer [p] at offset [base] of a buffer. *)
Definition load (buf : list float) (i : Z) : result float :=
  if (0 <=? i)%Z then
    match buf !! Z.to_nat i with
    | Some x => Ok x
    | None => Err (Undefined "read outside the buffer")
    end
  else Err (Undefined "read outside the buffer").

Definition store (buf : list float) (i : Z) (x : float) : result (list float) :=
  if (0 <=? i)%Z && (i <? Z.of_nat (length buf))%Z
  then Ok (<[Z.to_nat i := x]> buf)
  else Err (Undefined "write outside the buffer").

(** [std::min(a, b)] is [(b < a) ? b : a]. *)
Definition fmin (a b : float) : float := if b <? a then b else a.

(** [for (n = 0; n < count; ++n) targetRow[n] = max()]. *)
Definition fillMax (count : Z) (buf : list float) : result (list float) :=
  if (count <=? Z.of_nat (length buf))%Z
  then Ok (replicate (Z.to_nat count) F32.max_float ++ drop (Z.to_nat count) buf)
  else Err (Undefined "write outside the buffer").

(** One row of the minimum reduction. *)
Fixpoint minRow (program : MadProgram) (source : list float)
         (sourceRow targetRow : Z) (target : list float) : result (list float) :=
  match program with
  | [] => Ok target
  | mad :: rest =>
      let* a := load source (sourceRow + sourceIndex mad)%Z in
      let* b := load target (targetRow + targetIndex mad)%Z in
      let* target' := store target (targetRow + targetIndex mad)%Z (fmin a b) in
      minRow rest source sourceRow targetRow target'
  end.

(** One row of the weighted sum. *)
Fixpoint madRow (program : MadProgram) (source : list float)
         (sourceRow targetRow : Z) (target : list float) : result (list float) :=
  match program with
  | [] => Ok target
  | mad :: rest =>
      let* a := load source (sourceRow + sourceIndex mad)%Z in
      let* b := load target (targetRow + targetIndex mad)%Z in
      let* target' := store target (targetRow + targetIndex mad)%Z
                        (b + a * weight mad) in
      madRow rest source sourceRow targetRow target'
  end.

(** [for (row = 0; row < sheight; ++row) { ...; targetRow += twidth * nchan;
    sourceRow += swidth * nchan; }] with the row body [body]. *)
Fixpoint rowLoop (body : Z -> Z -> list float -> result (list float))
         (n : nat) (sstride tstride : Z) (sourceRow targetRow : Z)
         (target : list float) : result (list float) :=
  match n with
  | O => Ok target
  | S n' =>
      let* target' := body sourceRow targetRow target in
      rowLoop body n' sstride tstride
              (sourceRow + sstride)%Z (targetRow + tstride)%Z target'
  end.

(** [vecs[n] = normalize(vecs[n])] for the first [n] pixels. *)
Fixpoint normalizeLoop (n : nat) (data : list float) : result (list float) :=
  match n with
  | O => Ok data
  | S n' =>
      match data with
      | x :: y :: z :: rest =>
          let '(x', y', z') := vnormalize (x, y, z) in
          let* rest' := normalizeLoop n' rest in
          Ok (x' :: y' :: z' :: rest')
      | _ => Err (Undefined "write outside the buffer")
      end
  end.

Definition normalize (image : LinearImage) : result LinearImage :=
  let* _ := ASSERT_PRECONDITION (getChannels image =? 3)%Z
              "Must be a 3-channel image." in
  let width := getWidth image in
  let height := getHeight image in
  let* data := normalizeLoop (Z.to_nat (wrap_uint32 (width * height))) (get image) in
  Ok (withData image data).

(** [resampleImage1D] returns the new image; the second component is the
    content of [*program] when it returns. *)
Definition resampleImage1D (source : LinearImage) (program : MadProgram)
           (twidth : Z) (filter : Filter)
           (left right filterRadiusMultiplier : float)
  : result (LinearImage * MadProgram) :=
  let swidth := getWidth source in
  let sheight := getHeight source in
  let nchan := getChannels source in
  let mag := (twidth >? swidth)%Z in
  let filter := if Filter_eqb filter DEFAULT
                then (if mag then MITCHELL else LANCZOS) else filter in
  let* hfn := createFilterFunction filter in
  let program := [] in
  let* program := generateMadProgram twidth swidth left right hfn
                    filterRadiusMultiplier program in
  let program := expandMadProgram nchan program in
  let result := newLinearImage twidth sheight nchan in
  let sstride := wrap_uint32 (swidth * nchan) in
  let tstride := wrap_uint32 (twidth * nchan) in
  if Filter_eqb filter MINIMUM then
    let* target := fillMax (wrap_uint32 (twidth * sheight * nchan)) (get result) in
    let* target := rowLoop (minRow program (get source)) (Z.to_nat sheight)
                     sstride tstride 0 0 target in
    Ok (withData result target, program)
  else
    let* target := rowLoop (madRow program (get source)) (Z.to_nat sheight)
                     sstride tstride 0 0 (get result) in
    let result := withData result target in
    let* result := if Filter_eqb filter GAUSSIAN_NORMALS
                   then normalize result else Ok result in
    Ok (result, program).

Definition resampleImage (source : LinearImage) (width height : Z)
           (sampler : ImageSampler) : result LinearImage :=
  let* _ := ASSERT_PRECONDITION
              (Boundary_eqb (mode (east sampler)) EXCLUDE &&
               Boundary_eqb (mode (north sampler)) EXCLUDE &&
               Boundary_eqb (mode (west sampler)) EXCLUDE &&
               Boundary_eqb (mode (south sampler)) EXCLUDE)
              "Not yet implemented." in
  let hfilter := horizontalFilter sampler in
  let vfilter := verticalFilter sampler in
  let radius := filterRadiusMultiplier sampler in
  let left := left (sourceRegion sampler) in
  let top := top (sourceRegion sampler) in
  let right := right (sourceRegion sampler) in
  let bottom := bottom (sourceRegion sampler) in
  let program := [] in
  let* '(image, program) := resampleImage1D source program width hfilter
                              left right radius in
  let result := transpose image in
  let* '(image, program) := resampleImage1D result program height vfilter
                              top bottom radius in
  Ok (transpose image).

(** Modelled from the spec: [SinglePixel] is declared in
    [image/ImageSampler.h], which is not part of src. [computeSingleSample]
    uses its [get()] and [reset(new float[n])]: a pointer that is null or
    owns an array of floats. *)
Definition SinglePixel : Type := option (list float).

(** What a cell of [new float[n]] holds before it is written. *)
Variable indeterminate : float.

(** [for (c = 0; c < n; ++c) dst[c] = src[c]]. *)
Fixpoint copyLoop (n : nat) (c : Z) (src dst : list float) : result (list float) :=
  match n with
  | O => Ok dst
  | S n' =>
      let* x := load src c in
      let* dst' := store dst c x in
      copyLoop n' (wrap_uint32 (c + 1)%Z) src dst'
  end.

(** [computeSingleSample] returns the content of [*result] when it
    returns. *)
Definition computeSingleSample (source : LinearImage) (x y : float)
           (pixel : SinglePixel) (filter : Filter) : result SinglePixel :=
  let radius := F32.one in
  let left := x - radius / F32.of_Z (getWidth source) in
  let top := y - radius / F32.of_Z (getHeight source) in
  let right := x + radius / F32.of_Z (getWidth source) in
  let bottom := y + radius / F32.of_Z (getHeight source) in
  let program := [] in
  let* '(image, program) := resampleImage1D source program 1 filter
                              left right radius in
  let row := transpose image in
  let* '(row, program) := resampleImage1D row program 1 filter top bottom radius in
  let dst := match pixel with
             | Some buf => buf
             | None => replicate (Z.to_nat (getChannels source)) indeterminate
             end in
  let* dst := copyLoop (Z.to_nat (getChannels source)) 0 (get row) dst in
  Ok (Some dst).

(* =================================================================== *)
(** ** Reference definitions used by the statements *)
(* =================================================================== *)

(** The scan of one target run on an empty vector: the instructions the
    scan appends, their number and the accumulated sum. *)
Definition scanOf (ntarget nsource : Z) (left right : float) (filter : FilterFn)
           (radiusMultiplier : float) (itarget : Z) (xtarget : float)
  : result ScanState :=
  let* lower := isource_lower ntarget nsource left right filter
                  radiusMultiplier xtarget in
  let* upper := isource_upper ntarget nsource left right filter
                  radiusMultiplier xtarget in
  scanLoop ntarget nsource left right filter radiusMultiplier
           (Z.to_nat (upper - lower + 1)%Z) itarget xtarget lower
           {| result_ := []; count := 0; sum := F32.zero |}.

(** What a finished scan leaves in the program: its instructions, their
    weights divided by the sum when the sum is not zero. *)
Definition divWeight (s : float) (mad : MadInstruction) : MadInstruction :=
  {| targetIndex := targetIndex mad;
     sourceIndex := sourceIndex mad;
     weight := weight mad / s |}.

Definition blockOf (st : ScanState) : MadProgram :=
  if sum st !=? F32.zero then map (divWeight (sum st)) (result_ st)
  else result_ st.

(** The scans of [n] consecutive targets, with the running centre. *)
Fixpoint scans (ntarget nsource : Z) (left right : float) (filter : FilterFn)
         (radiusMultiplier : float) (n : nat) (itarget : Z) (xtarget : float)
  : result (list ScanState) :=
  match n with
  | O => Ok []
  | S n' =>
      let* st := scanOf ntarget nsource left right filter radiusMultiplier
                   itarget xtarget in
      let* sts := scans ntarget nsource left right filter radiusMultiplier n'
                    (wrap_uint32 (itarget + 1)%Z)
                    (xtarget + dtarget ntarget) in
      Ok (st :: sts)
  end.

(** The centre of target [t]: [dtarget / 2] advanced [t] times by
    [dtarget]. *)
Definition xtargetAt (ntarget : Z) (t : nat) : float :=
  Nat.iter t (fun x => x + dtarget ntarget) (dtarget ntarget / F32.two).

(** The instructions of a program that write target [t]. *)
Definition instructionsOf (t : Z) (program : MadProgram) : MadProgram :=
  List.filter (fun mad => (targetIndex mad =? t)%Z) program.

(** The integers [lo], [lo + 1], ..., [lo + n - 1]. *)
Definition Zseq (lo : Z) (n : nat) : list Z :=
  map (fun k => (lo + Z.of_nat k)%Z) (seq 0 n).

(** The two row loops of [resampleImage1D] have one shape: they differ in
    the value [op mad a b] stored from the source sample [a] and the
    target sample [b]. *)
Fixpoint execRow (op : MadInstruction -> float -> float -> float)
         (program : MadProgram) (source : list float)
         (sourceRow targetRow : Z) (target : list float) : result (list float) :=
  match program with
  | [] => Ok target
  | mad :: rest =>
      let* a := load source (sourceRow + sourceIndex mad)%Z in
      let* b := load target (targetRow + targetIndex mad)%Z in
      let* target' := store target (targetRow + targetIndex mad)%Z (op mad a b) in
      execRow op rest source sourceRow targetRow target'
  end.

Definition opMin (mad : MadInstruction) (a b : float) : float := fmin a b.
Definition opMad (mad : MadInstruction) (a b : float) : float := b + a * weight mad.

(** The value one row of a program leaves in the target cell [idx] that
    held [b]: the instructions that write the cell, applied in program
    order. *)
Definition cellFold (op : MadInstruction -> float -> float -> float)
           (source : list float) (sourceRow targetRow : Z) (idx : nat)
           (program : MadProgram) (b : float) : float :=
  fold_left
    (fun b mad =>
       if (targetRow + targetIndex mad =? Z.of_nat idx)%Z
       then op mad (default F32.zero
                      (source !! Z.to_nat (sourceRow + sourceIndex mad))) b
       else b)
    program b.

(** The same for [n] consecutive rows. *)
Fixpoint rowsCell (op : MadInstruction -> float -> float -> float)
         (source : list float) (program : MadProgram) (idx : nat)
         (n : nat) (sstride tstride sourceRow targetRow : Z) (b : float) : float :=
  match n with
  | O => b
  | S n' =>
      rowsCell op source program idx n' sstride tstride
               (sourceRow + sstride)%Z (targetRow + tstride)%Z
               (cellFold op source sourceRow targetRow idx program b)
  end.

(** An image whose buffer has one sample per pixel and channel. *)
Definition wellFormed (image : LinearImage) : Prop :=
  (0 <= getWidth image)%Z /\ (0 <= getHeight image)%Z /\
  (0 <= getChannels image)%Z /\
  Z.of_nat (length (get image)) =
    (getWidth image * getHeight image * getChannels image)%Z.

(** The filter kind [resampleImage1D] works with after its first
    statement. *)
Definition resolvedFilter (twidth swidth : Z) (filter : Filter) : Filter :=
  if Filter_eqb filter DEFAULT
  then (if (twidth >? swidth)%Z then MITCHELL else LANCZOS)
  else filter.

(** A call that did not abort on a precondition. *)
Definition noPanic {A : Type} (r : result A) : Prop :=
  match r with
  | Err (Panic _) => False
  | _ => True
  end.

(** A one-row, one-channel image of [n] samples, all equal to [x]. *)
Definition constantRow (n : Z) (x : float) : LinearImage := {|
  getWidth := n;
  getHeight := 1;
  getChannels := 1;
  get := replicate (Z.to_nat n) x
|}.

(** Whether the scan of target [t] in a run of [scans] appended nothing. *)
Definition scanIsEmpty (r : result (list ScanState)) (t : nat) : bool :=
  match r with
  | Ok sts =>
      match sts !! t with
      | Some st => match result_ st with [] => true | _ => false end
      | None => false
      end
  | Err _ => false
  end.

(** The exact sum of the weights of a list of instructions; [None] when one
    of them is not a finite number. *)
Definition weightsQ (instrs : MadProgram) : option Q :=
  fold_right
    (fun mad acc =>
       match F32.to_Q (weight mad), acc with
       | Some w, Some a => Some (w + a)%Q
       | _, _ => None
       end)
    (Some 0%Q) instrs.

(** The exact sum of the weights of the instructions for target [t]. *)
Definition weightSum (t : Z) (program : MadProgram) : option Q :=
  weightsQ (instructionsOf t program).

(** 0, or 1 within the tolerance 1e-5. *)
Definition zeroOrOne (q : option Q) : bool :=
  match q with
  | Some q =>
      Qeq_bool q 0 ||
      (Qle_bool (1 - (1 # 100000)) q && Qle_bool q (1 + (1 # 100000)))
  | None => false
  end.

(** The interval of candidate source indices in the words of the
    specification: around the centre [(t + 0.5) / T], from the floor of
    [(xtarget - filterBounds) * S] to the ceiling of
    [(xtarget + filterBounds) * S]. *)
Definition claimedCentre (ntarget t : Z) : float :=
  (F32.of_Z t + F32.half) / F32.of_Z ntarget.

Definition claimedInterval (ntarget nsource : Z) (left right : float)
           (filter : FilterFn) (radiusMultiplier : float) (t : Z)
  : option (Z * Z) :=
  let xtarget := claimedCentre ntarget t in
  let bounds := domainScale ntarget nsource left right radiusMultiplier
                * boundingRadius filter in
  match F32.floor ((xtarget - bounds) * F32.of_Z nsource),
        F32.trunc (F32.ceilf ((xtarget + bounds) * F32.of_Z nsource)) with
  | Some lo, Some hi => Some (lo, hi)
  | _, _ => None
  end.

(** The minimum reduction in the words of the specification: the target
    buffer starts at +infinity. *)
Definition claimedMinimum (source : LinearImage) (program : MadProgram)
           (twidth : Z) : result (list float) :=
  let swidth := getWidth source in
  let sheight := getHeight source in
  let nchan := getChannels source in
  rowLoop (minRow program (get source)) (Z.to_nat sheight)
          (wrap_uint32 (swidth * nchan)) (wrap_uint32 (twidth * nchan)) 0 0
          (replicate (Z.to_nat (twidth * sheight * nchan)) F32.infinity).

(** The facts about the instructions one scan appends. *)
Definition appended (nsource : Z) (filter : FilterFn) (itarget lo : Z)
           (mad : MadInstruction) : Prop :=
  targetIndex mad = itarget /\
  (lo <= sourceIndex mad)%Z /\
  (weight mad !=? F32.zero) = true /\
  (rejectExternalSamples filter = true ->
   (0 <= sourceIndex mad < wrap_int32 nsource)%Z).

(** The state of a scan that started at [lo] and is about to visit
    [isource]. *)
Record scanInv (nsource : Z) (filter : FilterFn) (itarget lo isource : Z)
       (st : ScanState) : Prop := {
  inv_count : count st = Z.of_nat (length (result_ st));
  inv_length : (Z.of_nat (length (result_ st)) <= isource - lo)%Z;
  inv_sum : sum st = fold_left F32.add (map weight (result_ st)) F32.zero;
  inv_appended : Forall (fun mad => appended nsource filter itarget lo mad /\
                                    (sourceIndex mad < isource)%Z)
                        (result_ st)
}.

(** A scan does not read the vector it appends to. *)
Definition prefixed (p : MadProgram) (st : ScanState) : ScanState :=
  {| result_ := p ++ result_ st; count := count st; sum := sum st |}.

(** An instruction whose indices lie in a row of [ns] source samples and
    [nt] target samples. *)
Definition inRow (ns nt : Z) (mad : MadInstruction) : Prop :=
  (0 <= sourceIndex mad < ns)%Z /\ (0 <= targetIndex mad < nt)%Z.

(** The conditions under which one pass returns: the sizes fit their
    integer types, program generation is defined (no conversion from float
    to [int32_t] is out of range) and the normalising filter is given three
    channels. *)
Definition passDefined (swidth nchan twidth : Z) (filter : Filter)
           (left right rm : float) : Prop :=
  (0 <= twidth < 2 ^ 32)%Z /\
  (swidth * nchan <= 2 ^ 31)%Z /\
  (twidth * nchan < 2 ^ 32)%Z /\
  (forall hfn,
      createFilterFunction (resolvedFilter twidth swidth filter) = Ok hfn ->
      exists program0,
        generateMadProgram twidth swidth left right hfn rm [] = Ok program0) /\
  (resolvedFilter twidth swidth filter = GAUSSIAN_NORMALS -> nchan = 3%Z).

(** The copies [expandMadProgram] makes of one instruction: for each
    channel [j], channel [j] of the target pixel from channel [j] of the
    source pixel. *)
Definition channelCopies (nchannels : Z) (mad : MadInstruction) : MadProgram :=
  map (fun j =>
         {| targetIndex := wrap_uint32 (targetIndex mad * nchannels + Z.of_nat j);
            sourceIndex := wrap_int32 (sourceIndex mad * nchannels + Z.of_nat j);
            weight := weight mad |})
      (seq 0 (Z.to_nat nchannels)).

(** The order of the instructions of a program: by target, then by
    source. *)
Definition madBefore (a b : MadInstruction) : Prop :=
  (targetIndex a < targetIndex b)%Z \/
  (targetIndex a = targetIndex b /\ sourceIndex a < sourceIndex b)%Z.

(** The sampler [computeSingleSample] amounts to: the square of half-width
    one pixel around [(x, y)], the same filter kind for both passes and
    the radius multiplier 1. *)
Definition singleSampler (source : LinearImage) (x y : float) (filter : Filter)
  : ImageSampler := {|
  horizontalFilter := filter;
  verticalFilter := filter;
  sourceRegion := {| left := x - F32.one / F32.of_Z (getWidth source);
                     top := y - F32.one / F32.of_Z (getHeight source);
                     right := x + F32.one / F32.of_Z (getWidth source);
                     bottom := y + F32.one / F32.of_Z (getHeight source) |};
  filterRadiusMultiplier := F32.one;
  east := {| mode := EXCLUDE |};
  north := {| mode := EXCLUDE |};
  west := {| mode := EXCLUDE |};
  south := {| mode := EXCLUDE |}
|}.

(** *** Concrete inputs *)

(** 0.75 *)
Definition threeQuarters : float := F32.of_Z 3 / F32.of_Z 4.

(** Two radius multipliers: 0x3EAA033C (0.33205593) and 0x3ED5ECBA
    (0.41782171). *)
Definition radiusCancel : float := S754_finite false 11141948 (-25).
Definition radiusNearCancel : float := S754_finite false 14019770 (-25).

(** A 2 x 2 image of 2 channels and a 1 x 1 image of 1 channel. *)
Definition image2x2 : LinearImage := {|
  getWidth := 2; getHeight := 2; getChannels := 2;
  get := map F32.of_Z [1; 2; 3; 4; 5; 6; 7; 8]%Z
|}.

Definition image1x1 : LinearImage := {|
  getWidth := 1; getHeight := 1; getChannels := 1;
  get := [F32.one]
|}.

(** A row of four samples: 5, 2, 8, 1. *)
Definition row4 : LinearImage := {|
  getWidth := 4; getHeight := 1; getChannels := 1;
  get := map F32.of_Z [5; 2; 8; 1]%Z
|}.

Definition excludeAll (hfilter vfilter : Filter) : ImageSampler := {|
  horizontalFilter := hfilter;
  verticalFilter := vfilter;
  sourceRegion := {| left := F32.zero; top := F32.zero;
                     right := F32.one; bottom := F32.one |};
  filterRadiusMultiplier := F32.one;
  east := {| mode := EXCLUDE |};
  north := {| mode := EXCLUDE |};
  west := {| mode := EXCLUDE |};
  south := {| mode := EXCLUDE |}
|}.

(** The 2 x 2 image of 2 channels with another second row, and one pixel
    of 3 channels. *)
Definition image2x2' : LinearImage := {|
  getWidth := 2; getHeight := 2; getChannels := 2;
  get := map F32.of_Z [1; 2; 3; 4; 9; 9; 9; 9]%Z
|}.

Definition pixel3 : LinearImage := {|
  getWidth := 1; getHeight := 1; getChannels := 3;
  get := map F32.of_Z [1; 2; 3]%Z
|}.

(** A stand-in for [sinf] that gives finite Lanczos weights: the first two
    terms of the series of the sine. *)
Definition sinfSeries : float -> float :=
  fun t => t - t * t * t / F32.of_Z 6.

(* =================================================================== *)
(** ** Rounding of the binary32 sum and quotient *)
(* =================================================================== *)

Section Rounding.

Local Close Scope f32_scope.

Lemma digits2_pos_size p : digits2_pos p = Pos.size p.
Proof. induction p; simpl; congruence. Qed.

(** [Zdigits2 m] is the number of binary digits of [m]. *)
Lemma Zdigits2_bounds m :
  0 < m -> 2 ^ (Zdigits2 m - 1) <= m < 2 ^ Zdigits2 m.
Proof.
  destruct m as [|p|p]; try lia. intros _. simpl Zdigits2.
  rewrite digits2_pos_size.
  pose proof (Pos.size_gt p) as Hgt. pose proof (Pos.size_le p) as Hle.
  assert (H2 : Z.pos (2 ^ Pos.size p) = 2 ^ Z.pos (Pos.size p)).
  { rewrite Pos2Z.inj_pow. reflexivity. }
  split.
  - assert (2 * 2 ^ (Z.pos (Pos.size p) - 1) = 2 ^ Z.pos (Pos.size p)).
    { rewrite <- Z.pow_succ_r by lia. f_equal. lia. }
    assert (Z.pos (2 ^ Pos.size p) <= Z.pos p~0) by (apply Pos2Z.pos_le_pos; exact Hle).
    lia.
  - rewrite <- H2. apply Pos2Z.pos_lt_pos. exact Hgt.
Qed.

Lemma Zdigits2_nonneg m : 0 <= Zdigits2 m.
Proof. destruct m; simpl; lia. Qed.

Lemma located_bounds m N D l : 0 < D -> located m N D l -> m * D <= N < (m + 1) * D.
Proof.
  intros HD H. destruct l as [|[| |]]; unfold located in H; lia.
Qed.

Lemma loc_of_shr_record_of_loc m l : loc_of_shr_record (shr_record_of_loc m l) = l.
Proof. destruct l as [|[| |]]; reflexivity. Qed.

Lemma shr_m_of_loc m l : shr_m (shr_record_of_loc m l) = m.
Proof. destruct l as [|[| |]]; reflexivity. Qed.

(** One shift to the right halves the mantissa and keeps track of where
    [N / D] lies, now in units of [2 D]. *)
Lemma shr_1_located mrs N D :
  0 < D -> 0 <= shr_m mrs ->
  located (shr_m mrs) N D (loc_of_shr_record mrs) ->
  0 <= shr_m (shr_1 mrs) /\
  2 * shr_m (shr_1 mrs) <= shr_m mrs < 2 * shr_m (shr_1 mrs) + 2 /\
  located (shr_m (shr_1 mrs)) N (2 * D) (loc_of_shr_record (shr_1 mrs)).
Proof.
  intros HD Hm H. destruct mrs as [m r s]. cbn [shr_m] in Hm.
  destruct m as [|[p|p|]|p]; try lia; destruct r, s;
    cbn [shr_1 shr_m loc_of_shr_record orb located] in *;
    repeat split; try lia.
Qed.

(** The shifts of [shr] as an iteration over [nat]. *)
Lemma iter_pos_nat {A : Type} (f : A -> A) p : forall x,
  SpecFloat.iter_pos f p x = Nat.iter (Pos.to_nat p) f x.
Proof.
  induction p as [p IH|p IH|]; intros x; cbn [SpecFloat.iter_pos].
  - rewrite !IH, Pos2Nat.inj_xI.
    replace (S (2 * Pos.to_nat p)) with (Pos.to_nat p + (Pos.to_nat p + 1))%nat by lia.
    rewrite !Nat.iter_add. reflexivity.
  - rewrite !IH, Pos2Nat.inj_xO.
    replace (2 * Pos.to_nat p)%nat with (Pos.to_nat p + Pos.to_nat p)%nat by lia.
    rewrite Nat.iter_add. reflexivity.
  - reflexivity.
Qed.

Lemma shr_nat mrs e n :
  shr mrs e n = (Nat.iter (Z.to_nat n) shr_1 mrs, e + Z.of_nat (Z.to_nat n)).
Proof.
  unfold shr. destruct n as [|p|p].
  - simpl. f_equal. lia.
  - rewrite iter_pos_nat. f_equal. lia.
  - simpl. f_equal. lia.
Qed.

Lemma shr_iter_located k : forall mrs N D,
  0 < D -> 0 <= shr_m mrs ->
  located (shr_m mrs) N D (loc_of_shr_record mrs) ->
  0 <= shr_m (Nat.iter k shr_1 mrs) /\
  2 ^ Z.of_nat k * shr_m (Nat.iter k shr_1 mrs) <= shr_m mrs
    < 2 ^ Z.of_nat k * (shr_m (Nat.iter k shr_1 mrs) + 1) /\
  located (shr_m (Nat.iter k shr_1 mrs)) N (2 ^ Z.of_nat k * D)
          (loc_of_shr_record (Nat.iter k shr_1 mrs)).
Proof.
  induction k as [|k IH]; intros mrs N D HD Hm H.
  - change (Nat.iter 0 shr_1 mrs) with mrs. change (2 ^ Z.of_nat 0) with 1. rewrite !Z.mul_1_l.
    repeat split; try lia. exact H.
  - change (Nat.iter (S k) shr_1 mrs) with (shr_1 (Nat.iter k shr_1 mrs)).
    destruct (IH mrs N D HD Hm H) as (H0 & Hb & Hl).
    assert (HD' : 0 < 2 ^ Z.of_nat k * D) by (apply Z.mul_pos_pos; lia).
    destruct (shr_1_located _ N _ HD' H0 Hl) as (H0' & Hb' & Hl').
    assert (E : 2 ^ Z.of_nat (S k) = 2 * 2 ^ Z.of_nat k).
    { rewrite Nat2Z.inj_succ, Z.pow_succ_r by lia. reflexivity. }
    rewrite E. split; [exact H0'|]. split.
    + assert (0 < 2 ^ Z.of_nat k) by lia. nia.
    + replace (2 * 2 ^ Z.of_nat k * D) with (2 * (2 ^ Z.of_nat k * D)) by ring.
      exact Hl'.
Qed.

(** Rounding to nearest, ties to even: the integer chosen is within half a
    unit of [N / D]. *)
Lemma round_located m N D l :
  0 < D -> located m N D l ->
  (round_nearest_even m l = m \/ round_nearest_even m l = m + 1) /\
  - D <= 2 * (round_nearest_even m l * D - N) <= D /\
  (l = loc_Exact -> round_nearest_even m l * D = N).
Proof.
  intros HD H. destruct l as [|[| |]]; unfold located in H; cbn [round_nearest_even].
  - split; [left; reflexivity|]. split; [lia|]. intros _. lia.
  - destruct (Z.even m).
    + split; [left; reflexivity|]. split; [lia|]. discriminate.
    + split; [right; reflexivity|]. split; [lia|]. discriminate.
  - split; [left; reflexivity|]. split; [lia|]. discriminate.
  - split; [right; reflexivity|]. split; [lia|]. discriminate.
Qed.

Lemma fexp32 k : fexp 24 128 k = Z.max (k - 24) (-149).
Proof. reflexivity. Qed.

Lemma shr_fexp_nat mx ex lx :
  shr_fexp 24 128 mx ex lx =
  (Nat.iter (Z.to_nat (fexp 24 128 (Zdigits2 mx + ex) - ex)) shr_1
            (shr_record_of_loc mx lx),
   ex + Z.of_nat (Z.to_nat (fexp 24 128 (Zdigits2 mx + ex) - ex))).
Proof. unfold shr_fexp. apply shr_nat. Qed.

Lemma Zdigits2_le m b : 0 <= b -> 0 <= m < 2 ^ b -> Zdigits2 m <= b.
Proof.
  intros Hb [H0 Hm]. destruct (Z.eq_dec m 0) as [->|Hne]; [simpl; lia|].
  pose proof (Zdigits2_bounds m ltac:(lia)) as [Hlo _].
  destruct (Z_le_gt_dec (Zdigits2 m) b) as [|Hgt]; [assumption|exfalso].
  assert (2 ^ b <= 2 ^ (Zdigits2 m - 1)) by (apply Z.pow_le_mono_r; lia).
  lia.
Qed.

(** The second phase of [binary_round_aux]. *)
Lemma round_aux_phase2 sx m1 e' :
  -149 <= e' -> 0 <= m1 <= 2 ^ 24 ->
  let r := let '(mrs'', e'') := shr_fexp 24 128 m1 e' loc_Exact in
           match shr_m mrs'' with
           | Z0 => S754_zero sx
           | Zpos m => if e'' <=? 128 - 24 then S754_finite sx m e'' else S754_infinity sx
           | Zneg _ => S754_nan
           end in
  (r = S754_zero sx /\ m1 = 0) \/
  (exists m e2, r = S754_finite sx m e2 /\ e' <= e2 <= e' + 1 /\
                Z.pos m * 2 ^ (e2 - e') = m1 /\ e2 <= 104) \/
  (r = S754_infinity sx /\ 0 < m1 /\ 104 <= e').
Proof.
  intros He' [H0 Hm1] r. subst r. rewrite shr_fexp_nat, fexp32.
  destruct (Z.eq_dec m1 0) as [->|Hne].
  { left. change (Zdigits2 0) with 0.
    replace (Z.to_nat (Z.max (0 + e' - 24) (-149) - e')) with O by lia.
    split; reflexivity. }
  destruct (Z.eq_dec m1 (2 ^ 24)) as [->|Hne2].
  { change (Zdigits2 (2 ^ 24)) with 25.
    replace (Z.to_nat (Z.max (25 + e' - 24) (-149) - e')) with 1%nat by lia.
    change (shr_m (Nat.iter 1 shr_1 (shr_record_of_loc (2 ^ 24) loc_Exact)))
      with (Z.pos 8388608).
    cbv beta iota.
    destruct (e' + Z.of_nat 1 <=? 128 - 24) eqn:E.
    - right; left. apply Z.leb_le in E. exists 8388608%positive, (e' + Z.of_nat 1).
      split; [reflexivity|]. split; [lia|]. split; [|lia].
      replace (e' + Z.of_nat 1 - e') with 1 by lia. reflexivity.
    - right; right. apply Z.leb_gt in E. split; [reflexivity|]. split; lia. }
  assert (Hd : Zdigits2 m1 <= 24) by (apply Zdigits2_le; lia).
  replace (Z.to_nat (Z.max (Zdigits2 m1 + e' - 24) (-149) - e')) with O by lia.
  change (Nat.iter 0 shr_1 (shr_record_of_loc m1 loc_Exact))
    with (shr_record_of_loc m1 loc_Exact).
  rewrite shr_m_of_loc. replace (e' + Z.of_nat 0) with e' by lia.
  destruct m1 as [|m|m]; try lia.
  destruct (e' <=? 128 - 24) eqn:E.
  - right; left. apply Z.leb_le in E. exists m, e'.
    split; [reflexivity|]. split; [lia|]. split; [|lia].
    replace (e' - e') with 0 by lia. change (2 ^ 0) with 1. lia.
  - right; right. apply Z.leb_gt in E. split; [reflexivity|]. split; lia.
Qed.

Lemma binary_round_aux_unfold sx mx ex lx :
  binary_round_aux 24 128 sx mx ex lx =
  let mrs := Nat.iter (Z.to_nat (fexp 24 128 (Zdigits2 mx + ex) - ex)) shr_1
                      (shr_record_of_loc mx lx) in
  let '(mrs'', e'') :=
    shr_fexp 24 128 (round_nearest_even (shr_m mrs) (loc_of_shr_record mrs))
             (ex + Z.of_nat (Z.to_nat (fexp 24 128 (Zdigits2 mx + ex) - ex)))
             loc_Exact in
  match shr_m mrs'' with
  | Z0 => S754_zero sx
  | Zpos m => if e'' <=? 128 - 24 then S754_finite sx m e'' else S754_infinity sx
  | Zneg _ => S754_nan
  end.
Proof. unfold binary_round_aux. rewrite shr_fexp_nat. reflexivity. Qed.

(** [binary_round_aux] on a mantissa [mx] located at [N / D] with exponent
    [ex]: the result is [m1 * 2^e1] for the exponent [e1] of the format and
    an integer [m1] within half a unit of [N / (2^(e1 - ex) D)]; in the normal
    range [m1] has 24 digits. The result is a zero, a finite number, or an
    infinity when [e1] is above the largest exponent. *)
Lemma round_aux_spec sx mx ex lx N D :
  0 <= mx -> 0 < D -> located mx N D lx ->
  ex <= fexp 24 128 (Zdigits2 mx + ex) ->
  exists m1 e1,
    e1 = fexp 24 128 (Zdigits2 mx + ex) /\
    0 <= m1 <= 2 ^ 24 /\
    - (2 ^ (e1 - ex) * D) <= 2 * (m1 * (2 ^ (e1 - ex) * D) - N) <= 2 ^ (e1 - ex) * D /\
    (lx = loc_Exact -> e1 = ex -> m1 * D = N) /\
    (-149 < e1 -> 0 < mx -> 2 ^ 23 * (2 ^ (e1 - ex) * D) <= N /\ 2 ^ 23 <= m1) /\
    ((binary_round_aux 24 128 sx mx ex lx = S754_zero sx /\ m1 = 0) \/
     (exists m e2, binary_round_aux 24 128 sx mx ex lx = S754_finite sx m e2 /\
         e1 <= e2 <= e1 + 1 /\ Z.pos m * 2 ^ (e2 - e1) = m1 /\ e2 <= 104) \/
     (binary_round_aux 24 128 sx mx ex lx = S754_infinity sx /\ 0 < m1 /\ 104 <= e1)).
Proof.
  intros Hmx HD Hloc Hex.
  set (e1 := fexp 24 128 (Zdigits2 mx + ex)) in *.
  set (k := Z.to_nat (e1 - ex)).
  assert (Hk : Z.of_nat k = e1 - ex) by (unfold k; lia).
  set (mrs := Nat.iter k shr_1 (shr_record_of_loc mx lx)).
  destruct (shr_iter_located k (shr_record_of_loc mx lx) N D HD) as (Hm0 & Hmb & Hml).
  { rewrite shr_m_of_loc. exact Hmx. }
  { rewrite shr_m_of_loc, loc_of_shr_record_of_loc. exact Hloc. }
  fold mrs in Hm0, Hmb, Hml. rewrite shr_m_of_loc in Hmb. rewrite Hk in Hmb, Hml.
  set (m' := shr_m mrs) in *. set (l' := loc_of_shr_record mrs) in *.
  assert (HP : 0 < 2 ^ (e1 - ex)) by (apply Z.pow_pos_nonneg; lia).
  set (P := 2 ^ (e1 - ex)) in *.
  assert (HD' : 0 < P * D) by (apply Z.mul_pos_pos; lia).
  destruct (round_located m' N (P * D) l' HD' Hml) as (Hr & Herr & Hexact).
  set (m1 := round_nearest_even m' l') in *.
  assert (He1 : e1 = Z.max (Zdigits2 mx + ex - 24) (-149)) by reflexivity.
  assert (Hm'24 : m' < 2 ^ 24).
  { destruct (Z.eq_dec mx 0) as [E0|Hne].
    - assert (P * m' <= 0) by lia. assert (m' <= 0) by nia. lia.
    - pose proof (Zdigits2_bounds mx ltac:(lia)) as [_ Hhi].
      assert (2 ^ Zdigits2 mx <= 2 ^ ((e1 - ex) + 24)).
      { apply Z.pow_le_mono_r; lia. }
      rewrite Z.pow_add_r in H by lia. fold P in H.
      assert (P * m' < P * 2 ^ 24) by lia.
      apply Z.mul_lt_mono_pos_l in H0; lia. }
  exists m1, e1. split; [reflexivity|]. split; [lia|]. split; [exact Herr|].
  split.
  { intros -> Ee. assert (Hk0 : k = O) by lia.
    assert (Hl' : l' = loc_Exact).
    { unfold l', mrs. rewrite Hk0. reflexivity. }
    specialize (Hexact Hl'). unfold P in Hexact. rewrite Ee, Z.sub_diag in Hexact.
    change (2 ^ 0) with 1 in Hexact. lia. }
  split.
  { intros Hn Hpos.
    pose proof (Zdigits2_bounds mx Hpos) as [Hlo _].
    assert (Ed : Zdigits2 mx - 1 = (e1 - ex) + 23) by lia.
    rewrite Ed, Z.pow_add_r in Hlo by lia. fold P in Hlo.
    pose proof (located_bounds mx N D lx HD Hloc) as [HN _].
    split.
    - assert (P * 2 ^ 23 * D <= mx * D) by (apply Z.mul_le_mono_nonneg_r; lia).
      lia.
    - assert (P * 2 ^ 23 < P * (m' + 1)) by lia.
      apply Z.mul_lt_mono_pos_l in H; lia. }
  rewrite binary_round_aux_unfold. fold e1. fold k. fold mrs. cbv zeta.
  fold m'. fold l'. fold m1. rewrite Hk.
  replace (ex + (e1 - ex)) with e1 by lia.
  apply (round_aux_phase2 sx m1 e1); lia.
Qed.

Lemma positiveFinite_inv x :
  positiveFinite x = true -> exists m e, x = S754_finite false m e /\ -149 <= e.
Proof.
  destruct x as [| | |[|] m e]; try discriminate. intros H.
  exists m, e. split; [reflexivity|]. apply Z.leb_le. exact H.
Qed.

Lemma positiveFinite_units_pos x : positiveFinite x = true -> 0 < units x.
Proof.
  intros H. destruct (positiveFinite_inv x H) as (m & e & -> & He). cbn [units].
  assert (0 < 2 ^ (e + 149)) by (apply Z.pow_pos_nonneg; lia). nia.
Qed.

(** The same for a positive result, with its value in units of [2^-149]. *)
Lemma round_aux_units mx ex lx N D :
  0 <= mx -> 0 < D -> located mx N D lx ->
  ex <= fexp 24 128 (Zdigits2 mx + ex) ->
  exists m1 e1,
    e1 = fexp 24 128 (Zdigits2 mx + ex) /\
    0 <= m1 <= 2 ^ 24 /\
    - (2 ^ (e1 - ex) * D) <= 2 * (m1 * (2 ^ (e1 - ex) * D) - N) <= 2 ^ (e1 - ex) * D /\
    (lx = loc_Exact -> e1 = ex -> m1 * D = N) /\
    (-149 < e1 -> 0 < mx -> 2 ^ 23 * (2 ^ (e1 - ex) * D) <= N /\ 2 ^ 23 <= m1) /\
    ((binary_round_aux 24 128 false mx ex lx = S754_infinity false /\ 0 < m1 /\ 104 <= e1) \/
     (units (binary_round_aux 24 128 false mx ex lx) = m1 * 2 ^ (e1 + 149) /\
      ((binary_round_aux 24 128 false mx ex lx = S754_zero false /\ m1 = 0) \/
       (positiveFinite (binary_round_aux 24 128 false mx ex lx) = true /\ 0 < m1)))).
Proof.
  intros Hmx HD Hloc Hex.
  destruct (round_aux_spec false mx ex lx N D Hmx HD Hloc Hex)
    as (m1 & e1 & He1 & Hm1 & Herr & Hexact & Hnorm & Hres).
  exists m1, e1. repeat (split; [assumption|]).
  assert (Hlow : -149 <= e1) by (rewrite He1, fexp32; lia).
  destruct Hres as [[Hr Hz]|[(m & e2 & Hr & He2 & Hm & Hle)|Hr]].
  - right. rewrite Hr. split; [subst m1; reflexivity|]. left. split; [reflexivity|assumption].
  - right. rewrite Hr. cbn [units positiveFinite]. split.
    + rewrite <- Hm. replace (e2 + 149) with ((e2 - e1) + (e1 + 149)) by lia.
      rewrite Z.pow_add_r by lia. ring.
    + right. split; [apply Z.leb_le; lia|].
      rewrite <- Hm. assert (0 < 2 ^ (e2 - e1)) by (apply Z.pow_pos_nonneg; lia). nia.
  - left. exact Hr.
Qed.

Lemma iter_xO_pow mx d : Z.pos (Pos.iter xO mx d) = Z.pos mx * 2 ^ Z.pos d.
Proof.
  induction d as [|d IH] using Pos.peano_ind.
  - cbn [Pos.iter]. change (2 ^ 1) with 2. lia.
  - rewrite Pos.iter_succ, Pos2Z.inj_succ, Z.pow_succ_r by lia.
    rewrite Pos2Z.inj_xO, IH. ring.
Qed.

Lemma shl_align_spec mx ex ex' :
  snd (shl_align mx ex ex') = Z.min ex ex' /\
  Z.pos (fst (shl_align mx ex ex')) = Z.pos mx * 2 ^ (ex - Z.min ex ex').
Proof.
  unfold shl_align. destruct (ex' - ex) as [|d|d] eqn:E; cbn [fst snd].
  - replace (Z.min ex ex') with ex by lia. rewrite Z.sub_diag. change (2 ^ 0) with 1. lia.
  - replace (Z.min ex ex') with ex by lia. rewrite Z.sub_diag. change (2 ^ 0) with 1. lia.
  - replace (Z.min ex ex') with ex' by lia. split; [reflexivity|].
    rewrite iter_xO_pow. f_equal. f_equal. lia.
Qed.

Lemma Zdigits2_unique m k : 0 < m -> 2 ^ (k - 1) <= m < 2 ^ k -> Zdigits2 m = k.
Proof.
  intros Hm [Hlo Hhi]. pose proof (Zdigits2_bounds m Hm) as [Hlo' Hhi'].
  pose proof (Zdigits2_nonneg m).
  assert (0 <= k).
  { destruct (Z_lt_le_dec k 0); [|assumption]. rewrite Z.pow_neg_r in Hhi by lia. lia. }
  destruct (Z_lt_le_dec (Zdigits2 m) k).
  - assert (2 ^ Zdigits2 m <= 2 ^ (k - 1)) by (apply Z.pow_le_mono_r; lia). lia.
  - destruct (Z_lt_le_dec k (Zdigits2 m)); [|lia].
    assert (2 ^ k <= 2 ^ (Zdigits2 m - 1)) by (apply Z.pow_le_mono_r; lia). lia.
Qed.

Lemma Zdigits2_shift m s : 0 < m -> 0 <= s -> Zdigits2 (m * 2 ^ s) = Zdigits2 m + s.
Proof.
  intros Hm Hs. pose proof (Zdigits2_bounds m Hm) as [Hlo Hhi].
  assert (0 < 2 ^ s) by (apply Z.pow_pos_nonneg; lia).
  assert (0 < Zdigits2 m).
  { destruct m; try lia. simpl. lia. }
  apply Zdigits2_unique; [nia|].
  replace (Zdigits2 m + s - 1) with ((Zdigits2 m - 1) + s) by lia.
  rewrite !Z.pow_add_r by lia. split; nia.
Qed.

(** Rounding the exact value [mz * 2^ez], [ez >= -149]: the result is
    +infinity or a positive number with relative error at most [2^-24]. *)
Lemma binary_round_spec mz ez :
  -149 <= ez ->
  binary_round 24 128 false mz ez = S754_infinity false \/
  (positiveFinite (binary_round 24 128 false mz ez) = true /\
   - (Z.pos mz * 2 ^ (ez + 149))
     <= 2 ^ 24 * (units (binary_round 24 128 false mz ez) - Z.pos mz * 2 ^ (ez + 149))
     <= Z.pos mz * 2 ^ (ez + 149)).
Proof.
  intros Hez. unfold binary_round.
  change (Z.pos (digits2_pos mz)) with (Zdigits2 (Z.pos mz)).
  set (f := fexp 24 128 (Zdigits2 (Z.pos mz) + ez)).
  destruct (shl_align_spec mz ez f) as [Hsnd Hfst].
  destruct (shl_align mz ez f) as [mz2 ez2]. cbn [fst snd] in Hsnd, Hfst.
  assert (Hf : -149 <= f) by (unfold f; rewrite fexp32; lia).
  assert (Hd : Zdigits2 (Z.pos mz2) + ez2 = Zdigits2 (Z.pos mz) + ez).
  { rewrite Hfst, Zdigits2_shift by lia. lia. }
  destruct (round_aux_units (Z.pos mz2) ez2 loc_Exact (Z.pos mz2) 1)
    as (m1 & e1 & He1 & Hm1 & Herr & Hexact & Hnorm & Hres).
  { lia. } { lia. } { unfold located. lia. } { rewrite Hd. fold f. lia. }
  rewrite Hd in He1. fold f in He1. subst e1.
  destruct Hres as [(Hr & _)|(HV & Hres)]; [left; exact Hr|right].
  set (r := binary_round_aux 24 128 false (Z.pos mz2) ez2 loc_Exact) in *.
  assert (HP : 0 < 2 ^ (ez2 + 149)) by (apply Z.pow_pos_nonneg; lia).
  assert (HX : Z.pos mz * 2 ^ (ez + 149) = Z.pos mz2 * 2 ^ (ez2 + 149)).
  { rewrite Hfst. replace (ez + 149) with ((ez - Z.min ez f) + (ez2 + 149)) by lia.
    rewrite Z.pow_add_r by lia. ring. }
  assert (HVr : units r = m1 * 2 ^ (f - ez2) * 2 ^ (ez2 + 149)).
  { rewrite HV. replace (f + 149) with ((f - ez2) + (ez2 + 149)) by lia.
    rewrite Z.pow_add_r by lia. ring. }
  rewrite HX, HVr.
  set (P := 2 ^ (ez2 + 149)) in *. set (K := 2 ^ (f - ez2)) in *.
  rewrite !Z.mul_1_r in Herr.
  assert (Hgoal : - Z.pos mz2 <= 2 ^ 24 * (m1 * K - Z.pos mz2) <= Z.pos mz2 /\ 0 < m1).
  { destruct (Z.eq_dec f ez2) as [E|NE].
    - specialize (Hexact eq_refl E).
      assert (K = 1) by (unfold K; rewrite E, Z.sub_diag; reflexivity). lia.
    - assert (-149 < f) by lia.
      destruct (Hnorm H ltac:(lia)) as [HN Hm23]. rewrite Z.mul_1_r in HN.
      change (2 ^ 24) with (2 * 2 ^ 23). change (2 ^ 23) with 8388608 in *. lia. }
  destruct Hgoal as [Hgoal Hpos].
  split.
  - destruct Hres as [[_ H0]|[Hp _]]; [lia|exact Hp].
  - replace (m1 * K * P - Z.pos mz2 * P) with ((m1 * K - Z.pos mz2) * P) by ring.
    rewrite Z.mul_assoc. split.
    + rewrite <- Z.mul_opp_l. apply Z.mul_le_mono_nonneg_r; lia.
    + apply Z.mul_le_mono_nonneg_r; lia.
Qed.

(** The binary32 sum of two positive numbers: +infinity, or their exact sum
    with relative error at most [2^-24] (no absolute term: below the normal
    range the sum is exact). *)
Lemma add_finite_spec mx ex my ey :
  -149 <= ex -> -149 <= ey ->
  SFadd 24 128 (S754_finite false mx ex) (S754_finite false my ey) = S754_infinity false \/
  (positiveFinite (SFadd 24 128 (S754_finite false mx ex) (S754_finite false my ey)) = true /\
   - (units (S754_finite false mx ex) + units (S754_finite false my ey))
     <= 2 ^ 24 * (units (SFadd 24 128 (S754_finite false mx ex) (S754_finite false my ey))
                  - (units (S754_finite false mx ex) + units (S754_finite false my ey)))
     <= units (S754_finite false mx ex) + units (S754_finite false my ey)).
Proof.
  intros Hex Hey. cbn [SFadd cond_Zopp units].
  set (ez := Z.min ex ey).
  destruct (shl_align_spec mx ex ez) as [_ Ha].
  destruct (shl_align_spec my ey ez) as [_ Hb].
  set (a := fst (shl_align mx ex ez)) in *. set (b := fst (shl_align my ey ez)) in *.
  change (Z.pos a + Z.pos b) with (Z.pos (a + b)).
  cbn [binary_normalize].
  replace (Z.min ex ez) with ez in Ha by lia.
  replace (Z.min ey ez) with ez in Hb by lia.
  assert (HX : Z.pos mx * 2 ^ (ex + 149) + Z.pos my * 2 ^ (ey + 149)
               = Z.pos (a + b) * 2 ^ (ez + 149)).
  { rewrite Pos2Z.inj_add, Ha, Hb.
    replace (ex + 149) with ((ex - ez) + (ez + 149)) by lia.
    replace (ey + 149) with ((ey - ez) + (ez + 149)) by lia.
    rewrite (Z.pow_add_r 2 (ex - ez)), (Z.pow_add_r 2 (ey - ez)) by lia. ring. }
  rewrite HX. apply binary_round_spec. lia.
Qed.

(** The location computed from the remainder of a division. *)
Lemma new_location_located D q r N :
  0 < D -> 0 <= r < D -> N = q * D + r -> located q N D (new_location D r).
Proof.
  intros HD Hr ->. unfold new_location, new_location_even, new_location_odd.
  destruct (Z.even D) eqn:Ev.
  - destruct (Z.eqb_spec r 0) as [->|Hne]; [unfold located; lia|].
    destruct (Z.compare_spec (2 * r) D); unfold located; lia.
  - assert (Hodd : Z.odd D = true) by (rewrite <- Z.negb_even, Ev; reflexivity).
    apply Z.odd_spec in Hodd. destruct Hodd as [h Hh].
    destruct (Z.eqb_spec r 0) as [->|Hne]; [unfold located; lia|].
    destruct (Z.compare_spec (2 * r + 1) D); unfold located; lia.
Qed.

(** The quotient and location [SFdiv_core_binary] hands to the rounding. *)
Lemma div_core_spec mx ex my ey :
  exists q e' l,
    SFdiv_core_binary 24 128 (Z.pos mx) ex (Z.pos my) ey = (q, e', l) /\
    e' <= ex - ey /\
    0 <= q /\
    located q (Z.pos mx * 2 ^ (ex - ey - e')) (Z.pos my) l /\
    e' <= fexp 24 128 (Zdigits2 q + e').
Proof.
  unfold SFdiv_core_binary.
  set (d1 := Zdigits2 (Z.pos mx)). set (d2 := Zdigits2 (Z.pos my)).
  set (e' := Z.min (fexp 24 128 (d1 + ex - (d2 + ey))) (ex - ey)).
  set (s := ex - ey - e').
  assert (Hs : 0 <= s) by (unfold s, e'; lia).
  set (m' := match s with Z.pos _ => Z.shiftl (Z.pos mx) s | 0 => Z.pos mx | Z.neg _ => 0 end).
  assert (Hm' : m' = Z.pos mx * 2 ^ s).
  { unfold m'. destruct s as [|p|p] eqn:Es.
    - change (2 ^ 0) with 1. lia.
    - rewrite Z.shiftl_mul_pow2 by lia. reflexivity.
    - lia. }
  pose proof (Z_div_mod m' (Z.pos my) ltac:(lia)) as Hdm.
  destruct (Z.div_eucl m' (Z.pos my)) as [q r]. destruct Hdm as [Hq Hr].
  assert (HP : 0 < 2 ^ s) by (apply Z.pow_pos_nonneg; lia).
  assert (Hq0 : 0 <= q).
  { destruct (Z_lt_le_dec q 0); [|assumption]. exfalso.
    assert (Z.pos my * q <= Z.pos my * (-1)) by (apply Z.mul_le_mono_nonneg_l; lia).
    assert (0 < m') by (rewrite Hm'; apply Z.mul_pos_pos; lia). lia. }
  exists q, e', (new_location (Z.pos my) r). split; [reflexivity|].
  split; [unfold e'; lia|]. split; [exact Hq0|]. split.
  - fold s. rewrite <- Hm'. apply (new_location_located _ q r); lia.
  - pose proof (fexp32 (Zdigits2 q + e')) as Hf.
    destruct (Z_le_gt_dec e' (-149)) as [Hle|Hgt]; [lia|].
    pose proof (fexp32 (d1 + ex - (d2 + ey))) as Hf0.
    assert (He' : e' <= d1 + ex - (d2 + ey) - 24) by (unfold e' in *; lia).
    assert (Hds : 23 <= d1 - 1 + s - d2) by (unfold s; lia).
    pose proof (Zdigits2_bounds (Z.pos mx) ltac:(lia)) as [Hlo1 _].
    pose proof (Zdigits2_bounds (Z.pos my) ltac:(lia)) as [_ Hhi2].
    fold d1 in Hlo1. fold d2 in Hhi2.
    pose proof (Zdigits2_nonneg (Z.pos my)) as Hd2. fold d2 in Hd2.
    assert (Hd1 : 1 <= d1) by (unfold d1; simpl; lia).
    set (t := d1 - 1 + s - d2) in *.
    assert (Hpow : 2 ^ (d1 - 1) * 2 ^ s = 2 ^ t * 2 ^ d2).
    { rewrite <- !Z.pow_add_r by lia. f_equal. unfold t. lia. }
    assert (Ht : 0 < 2 ^ t) by (apply Z.pow_pos_nonneg; lia).
    assert (Hqt : 2 ^ t <= q).
    { destruct (Z_lt_le_dec q (2 ^ t)) as [Hlt|]; [exfalso|assumption].
      assert (q + 1 <= 2 ^ t) by lia.
      assert (Z.pos my * (q + 1) <= Z.pos my * 2 ^ t)
        by (apply Z.mul_le_mono_nonneg_l; lia).
      assert (Z.pos my * 2 ^ t <= 2 ^ d2 * 2 ^ t)
        by (apply Z.mul_le_mono_nonneg_r; lia).
      assert (2 ^ (d1 - 1) * 2 ^ s <= Z.pos mx * 2 ^ s)
        by (apply Z.mul_le_mono_nonneg_r; lia).
      lia. }
    pose proof (Zdigits2_bounds q ltac:(lia)) as [_ Hqhi].
    assert (t < Zdigits2 q).
    { apply (Z.pow_lt_mono_r_iff 2); [lia|apply Zdigits2_nonneg|lia]. }
    unfold t, s in *. lia.
Qed.

(** The binary32 quotient [x / y] of two positive numbers with [x < 2 y]:
    a zero or a positive number, with error at most [2^-24 x / y + 2^-150]. *)
Lemma div_finite_spec mx ex my ey :
  -149 <= ex -> -149 <= ey ->
  units (S754_finite false mx ex) < 2 * units (S754_finite false my ey) ->
  (SFdiv 24 128 (S754_finite false mx ex) (S754_finite false my ey) = S754_zero false \/
   positiveFinite (SFdiv 24 128 (S754_finite false mx ex) (S754_finite false my ey)) = true) /\
  - (2 ^ 149 * units (S754_finite false mx ex) + 2 ^ 23 * units (S754_finite false my ey))
    <= 2 ^ 24 * (units (SFdiv 24 128 (S754_finite false mx ex) (S754_finite false my ey))
                 * units (S754_finite false my ey)
                 - 2 ^ 149 * units (S754_finite false mx ex))
    <= 2 ^ 149 * units (S754_finite false mx ex) + 2 ^ 23 * units (S754_finite false my ey).
Proof.
  intros Hex Hey Hlt. cbn [SFdiv units] in *.
  destruct (div_core_spec mx ex my ey) as (q & e' & l & Hcore & He' & Hq & Hloc & Hfexp).
  rewrite Hcore. cbn [xorb].
  set (s := ex - ey - e') in *.
  assert (Hs : 0 <= s) by (unfold s; lia).
  destruct (round_aux_units q e' l (Z.pos mx * 2 ^ s) (Z.pos my))
    as (m1 & e1 & He1 & Hm1 & Herr & _ & Hnorm & Hres); try assumption; try lia.
  set (r := binary_round_aux 24 128 false q e' l) in *.
  assert (Hlow : -149 <= e1) by (rewrite He1, fexp32; lia).
  assert (Hk : 0 <= e1 - e') by lia.
  set (k := e1 - e') in *.
  set (Pk := 2 ^ k) in *. set (Ps := 2 ^ s) in *.
  set (Px := 2 ^ (ex + 149)) in *. set (Py := 2 ^ (ey + 149)) in *.
  set (P1 := 2 ^ (e1 + 149)) in *.
  assert (HPk : 0 < Pk) by (apply Z.pow_pos_nonneg; lia).
  assert (HPs : 0 < Ps) by (apply Z.pow_pos_nonneg; lia).
  assert (HPx : 0 < Px) by (apply Z.pow_pos_nonneg; lia).
  assert (HPy : 0 < Py) by (apply Z.pow_pos_nonneg; lia).
  assert (HP1 : 0 < P1) by (apply Z.pow_pos_nonneg; lia).
  set (C := 2 ^ 149) in *.
  assert (HC : 0 < C) by (apply Z.pow_pos_nonneg; lia).
  assert (Key : P1 * Py * Ps = Pk * (Px * C)).
  { unfold P1, Py, Ps, Pk, Px, C. rewrite <- !Z.pow_add_r by lia.
    f_equal. unfold k, s. lia. }
  set (D := Z.pos my) in *. set (N := Z.pos mx * Ps) in *.
  set (T := Px * C) in *.
  assert (HT : 0 < T) by (apply Z.mul_pos_pos; assumption).
  assert (HD : 0 < D) by (unfold D; lia).
  assert (HN : 0 < N) by (apply Z.mul_pos_pos; [lia|assumption]).
  set (E := m1 * (Pk * D) - N) in *.
  (* the quotient is positive in the normal range *)
  assert (Hnorm' : -149 < e1 -> 2 ^ 23 * (Pk * D) <= N /\ 2 ^ 23 <= m1).
  { intros Hn. apply Hnorm; [assumption|].
    destruct (Z.eq_dec q 0) as [->|]; [|lia].
    change (Zdigits2 0) with 0 in *. rewrite fexp32 in Hfexp, He1. lia. }
  (* no overflow *)
  assert (Hfin : r <> S754_infinity false).
  { intros Hinf. destruct Hres as [(_ & Hm1pos & H104)|(HV & [[Hz _]|[Hp _]])].
    - destruct (Hnorm' ltac:(lia)) as [HNlo _].
      assert (H1 : 2 ^ 23 * (Pk * D) * T <= N * T)
        by (apply Z.mul_le_mono_nonneg_r; lia).
      assert (H2 : N * T = C * (Z.pos mx * Px) * Ps) by (unfold N, T; ring).
      assert (H3 : C * (Z.pos mx * Px) * Ps < C * (2 * (D * Py)) * Ps).
      { apply Z.mul_lt_mono_pos_r; [assumption|].
        apply Z.mul_lt_mono_pos_l; assumption. }
      assert (H4 : 2 ^ 23 * (Pk * T) * D < 2 * C * (Py * Ps) * D).
      { replace (2 ^ 23 * (Pk * T) * D) with (2 ^ 23 * (Pk * D) * T) by ring.
        replace (2 * C * (Py * Ps) * D) with (C * (2 * (D * Py)) * Ps) by ring. lia. }
      apply Z.mul_lt_mono_pos_r in H4; [|assumption].
      assert (H5 : 2 ^ (23 + (k + (ex + 149 + 149))) < 2 ^ (1 + (149 + (ey + 149 + s)))).
      { rewrite (Z.pow_add_r 2 23), (Z.pow_add_r 2 k), (Z.pow_add_r 2 (ex + 149)) by lia.
        rewrite (Z.pow_add_r 2 1), (Z.pow_add_r 2 149), (Z.pow_add_r 2 (ey + 149)) by lia.
        fold Pk Px C Py Ps. change (2 ^ 1) with 2. fold T. lia. }
      apply Z.pow_lt_mono_r_iff in H5; [|lia|lia].
      unfold k, s in H5. lia.
    - rewrite Hz in Hinf. discriminate.
    - rewrite Hinf in Hp. discriminate. }
  destruct Hres as [(Hinf & _)|(HV & Hshape)]; [contradiction|].
  split.
  { destruct Hshape as [[Hz _]|[Hp _]]; [left|right]; assumption. }
  rewrite HV. fold P1.
  assert (Hid : (m1 * P1 * (D * Py) - C * (Z.pos mx * Px)) * Ps = E * T).
  { transitivity (m1 * D * (P1 * Py * Ps) - C * (Z.pos mx * Px) * Ps); [ring|].
    rewrite Key. unfold E, N, T. ring. }
  assert (HE : - (C * (Z.pos mx * Px) + 2 ^ 23 * (D * Py)) * Ps
               <= 2 ^ 24 * (E * T)
               <= (C * (Z.pos mx * Px) + 2 ^ 23 * (D * Py)) * Ps).
  { assert (HNT : N * T = C * (Z.pos mx * Px) * Ps) by (unfold N, T; ring).
    assert (HDP : 0 <= 2 ^ 23 * (D * Py) * Ps).
    { apply Z.mul_nonneg_nonneg; [|lia]. apply Z.mul_nonneg_nonneg; [lia|].
      apply Z.mul_nonneg_nonneg; lia. }
    destruct (Z.eq_dec e1 (-149)) as [Esub|Enorm].
    - assert (HP1one : P1 = 1) by (unfold P1; rewrite Esub; reflexivity).
      rewrite HP1one, Z.mul_1_l in Key.
      assert (HPk2 : 2 ^ 23 * (D * Py) * Ps = 2 ^ 23 * (Pk * D) * T).
      { replace (2 ^ 23 * (D * Py) * Ps) with (2 ^ 23 * D * (Py * Ps)) by ring.
        rewrite Key. unfold T. ring. }
      assert (Hb : - (Pk * D) * T <= 2 * E * T <= (Pk * D) * T).
      { split; apply Z.mul_le_mono_nonneg_r; lia. }
      assert (0 <= N * T) by (apply Z.mul_nonneg_nonneg; lia).
      change (2 ^ 24) with (2 ^ 23 * 2).
      replace (2 ^ 23 * 2 * (E * T)) with (2 ^ 23 * (2 * E * T)) by ring.
      rewrite !Z.mul_add_distr_r, Z.opp_add_distr.
      change (2 ^ 23) with 8388608 in *. lia.
    - destruct (Hnorm' ltac:(lia)) as [HNlo _].
      assert (Hb : - N * T <= 2 ^ 24 * E * T <= N * T).
      { change (2 ^ 24) with (2 * 2 ^ 23).
        change (2 ^ 23) with 8388608 in *.
        split; apply Z.mul_le_mono_nonneg_r; lia. }
      replace (2 ^ 24 * (E * T)) with (2 ^ 24 * E * T) by ring.
      rewrite !Z.mul_add_distr_r, Z.opp_add_distr. lia. }
  rewrite <- Hid in HE.
  replace (2 ^ 24 * ((m1 * P1 * (D * Py) - C * (Z.pos mx * Px)) * Ps))
    with (2 ^ 24 * (m1 * P1 * (D * Py) - C * (Z.pos mx * Px)) * Ps) in HE by ring.
  destruct HE as [HE1 HE2].
  apply Z.mul_le_mono_pos_r in HE1; [|assumption].
  apply Z.mul_le_mono_pos_r in HE2; [|assumption].
  split; assumption.
Qed.

(** The running sum of line 155, [sum += weight], keeps [sumInv]. *)
Lemma sumInv_step acc W j w :
  sumInv acc W j -> positiveFinite w = true -> 0 <= j -> j + 1 <= 2 ^ 23 ->
  sumInv (SFadd 24 128 acc w) (W + units w) (j + 1).
Proof.
  intros HI Hw Hj0 Hj. pose proof (positiveFinite_units_pos w Hw) as HVw.
  destruct (positiveFinite_inv w Hw) as (mw & ew & -> & Hew).
  destruct HI as [(-> & -> & ->)|[(-> & Hj1)|(Hacc & Hj1 & HW & Herr)]].
  - right; right. cbn [SFadd]. split; [exact Hw|]. split; [lia|]. split; [lia|].
    replace (0 + 1 - 1) with 0 by lia. lia.
  - right; left. split; [reflexivity|lia].
  - destruct (positiveFinite_inv acc Hacc) as (ma & ea & -> & Hea).
    destruct (add_finite_spec ma ea mw ew Hea Hew) as [Hinf|[Hp Hadd]].
    + right; left. split; [exact Hinf|lia].
    + right; right. split; [exact Hp|]. split; [lia|]. split; [lia|].
      set (r := SFadd 24 128 (S754_finite false ma ea) (S754_finite false mw ew)) in *.
      set (Va := units (S754_finite false ma ea)) in *.
      set (Vw := units (S754_finite false mw ew)) in *.
      replace (j + 1 - 1) with j by lia.
      assert (HA : 0 <= (j - 1) * W) by (apply Z.mul_nonneg_nonneg; lia).
      assert (HA2 : (j - 1) * W <= 2 ^ 23 * W) by (apply Z.mul_le_mono_nonneg_r; lia).
      assert (HB : Vw <= j * Vw) by nia.
      replace (2 * (j - 1) * W) with (2 * ((j - 1) * W)) in Herr by ring.
      replace (2 * j * (W + Vw)) with (2 * ((j - 1) * W) + 2 * W + 2 * (j * Vw)) by ring.
      change (2 ^ 24) with 16777216 in *. change (2 ^ 23) with 8388608 in *.
      lia.
Qed.

Lemma sumInv_fold ws : forall acc W j,
  sumInv acc W j -> Forall (fun w => positiveFinite w = true) ws ->
  0 <= j -> j + Z.of_nat (length ws) <= 2 ^ 23 ->
  sumInv (fold_left (SFadd 24 128) ws acc) (W + unitsSum ws) (j + Z.of_nat (length ws)).
Proof.
  induction ws as [|w ws IH]; intros acc W j HI Hall Hj0 Hj.
  - cbn [fold_left unitsSum fold_right length]. rewrite !Z.add_0_r. exact HI.
  - inversion Hall as [|? ? Hw Hws]; subst.
    cbn [fold_left unitsSum fold_right length] in *. fold (unitsSum ws).
    replace (W + (units w + unitsSum ws)) with ((W + units w) + unitsSum ws) by ring.
    replace (j + Z.of_nat (S (length ws))) with ((j + 1) + Z.of_nat (length ws)) by lia.
    apply IH; [|assumption|lia|lia].
    apply sumInv_step; [assumption|assumption|lia|lia].
Qed.

Lemma unitsSum_nonneg ws : 0 <= unitsSum ws.
Proof.
  induction ws as [|w ws IH]; cbn [unitsSum fold_right]; [lia|]. fold (unitsSum ws).
  assert (0 <= units w); [|lia].
  destruct w as [| | |[|] m e]; cbn [units]; lia.
Qed.

Lemma unitsSum_In w ws : In w ws -> units w <= unitsSum ws.
Proof.
  induction ws as [|w' ws IH]; [intros []|].
  cbn [unitsSum fold_right]. fold (unitsSum ws). intros [->|Hin].
  - pose proof (unitsSum_nonneg ws). lia.
  - specialize (IH Hin).
    assert (0 <= units w'); [|lia].
    pose proof (unitsSum_nonneg [w']) as H. cbn [unitsSum fold_right] in H. lia.
Qed.

(** The quotients of a list of positive numbers by a positive number. *)
Lemma div_list_spec s ws :
  positiveFinite s = true ->
  Forall (fun w => positiveFinite w = true /\ units w < 2 * units s) ws ->
  Forall (fun r => r = S754_zero false \/ positiveFinite r = true)
         (map (fun w => SFdiv 24 128 w s) ws) /\
  - (2 ^ 149 * unitsSum ws + 2 ^ 23 * units s * Z.of_nat (length ws))
    <= 2 ^ 24 * (unitsSum (map (fun w => SFdiv 24 128 w s) ws) * units s - 2 ^ 149 * unitsSum ws)
    <= 2 ^ 149 * unitsSum ws + 2 ^ 23 * units s * Z.of_nat (length ws).
Proof.
  intros Hs. destruct (positiveFinite_inv s Hs) as (ms & es & -> & Hes).
  induction ws as [|w ws IH]; intros Hall.
  - cbn [map unitsSum fold_right length]. split; [constructor|]. lia.
  - inversion Hall as [|? ? [Hw Hlt] Hws]; subst.
    destruct (IH Hws) as [IH1 IH2].
    destruct (positiveFinite_inv w Hw) as (mw & ew & -> & Hew).
    destruct (div_finite_spec mw ew ms es Hew Hes Hlt) as [Hshape Herr].
    cbn [map unitsSum fold_right length]. fold (unitsSum ws).
    fold (unitsSum (map (fun w => SFdiv 24 128 w (S754_finite false ms es)) ws)).
    split; [constructor; assumption|].
    set (r := SFdiv 24 128 (S754_finite false mw ew) (S754_finite false ms es)) in *.
    set (R := unitsSum (map (fun w => SFdiv 24 128 w (S754_finite false ms es)) ws)) in *.
    set (Vs := units (S754_finite false ms es)) in *.
    set (Vw := units (S754_finite false mw ew)) in *.
    rewrite Nat2Z.inj_succ.
    replace ((units r + R) * Vs) with (units r * Vs + R * Vs) by ring.
    replace (2 ^ 23 * Vs * Z.succ (Z.of_nat (length ws)))
      with (2 ^ 23 * Vs + 2 ^ 23 * Vs * Z.of_nat (length ws)) by ring.
    set (L := 2 ^ 23 * Vs * Z.of_nat (length ws)) in *.
    set (C := 2 ^ 149) in *.
    change (2 ^ 24) with 16777216 in *. change (2 ^ 23) with 8388608 in *.
    lia.
Qed.

(** At most 64 positive numbers, each divided by their binary32 sum: the
    quotients add up to 1 within 1e-5, unless the sum overflowed. *)
Lemma normalized_units ws :
  ws <> [] -> (length ws <= 64)%nat ->
  Forall (fun w => positiveFinite w = true) ws ->
  fold_left (SFadd 24 128) ws (S754_zero false) = S754_infinity false \/
  (positiveFinite (fold_left (SFadd 24 128) ws (S754_zero false)) = true /\
   Forall (fun r => r = S754_zero false \/ positiveFinite r = true)
          (map (fun w => SFdiv 24 128 w (fold_left (SFadd 24 128) ws (S754_zero false))) ws) /\
   - 2 ^ 149
     <= 100000 * (unitsSum (map (fun w => SFdiv 24 128 w
                                   (fold_left (SFadd 24 128) ws (S754_zero false))) ws)
                  - 2 ^ 149)
     <= 2 ^ 149).
Proof.
  intros Hne Hlen Hall.
  pose proof (sumInv_fold ws (S754_zero false) 0 0) as HI.
  specialize (HI ltac:(left; repeat split; reflexivity) Hall ltac:(lia)).
  assert (Hn : Z.of_nat (length ws) <= 64) by lia.
  specialize (HI ltac:(change (2 ^ 23) with 8388608; lia)).
  set (s := fold_left (SFadd 24 128) ws (S754_zero false)) in *.
  rewrite !Z.add_0_l in HI.
  set (n := Z.of_nat (length ws)) in *. set (W := unitsSum ws) in *.
  assert (Hn1 : 1 <= n).
  { unfold n. destruct ws; [contradiction|]. cbn [length]. lia. }
  destruct HI as [(_ & _ & Hn0)|[(Hinf & _)|(Hs & _ & HW & Herr)]].
  - lia.
  - left. exact Hinf.
  - right. split; [exact Hs|].
    pose proof (positiveFinite_units_pos s Hs) as HVs.
    assert (HnW : 2 * (n - 1) * W <= 126 * W).
    { apply Z.mul_le_mono_nonneg_r; lia. }
    assert (Hall' : Forall (fun w => positiveFinite w = true /\ units w < 2 * units s) ws).
    { rewrite List.Forall_forall in *. intros w Hin. split; [apply Hall; exact Hin|].
      pose proof (unitsSum_In w ws Hin). fold W in H.
      change (2 ^ 24) with 16777216 in *. lia. }
    destruct (div_list_spec s ws Hs Hall') as [Hshape Hdiv].
    split; [exact Hshape|].
    set (R := unitsSum (map (fun w => SFdiv 24 128 w s) ws)) in *.
    fold W in Hdiv. fold n in Hdiv.
    assert (HnV : 2 ^ 23 * units s * n <= 2 ^ 23 * units s * 64).
    { apply Z.mul_le_mono_nonneg_l; [|lia]. apply Z.mul_nonneg_nonneg; lia. }
    set (Z1 := R * units s) in *.
    assert (Hgoal : - (2 ^ 149 * units s) <= 100000 * (Z1 - 2 ^ 149 * units s) <= 2 ^ 149 * units s).
    { change (2 ^ 24) with 16777216 in *. change (2 ^ 23) with 8388608 in *.
      change (2 ^ 149) with 713623846352979940529142984724747568191373312 in *.
      lia. }
    replace (100000 * (Z1 - 2 ^ 149 * units s)) with (100000 * (R - 2 ^ 149) * units s) in Hgoal
      by (unfold Z1; ring).
    destruct Hgoal as [Hg1 Hg2]. rewrite <- Z.mul_opp_l in Hg1.
    apply Z.mul_le_mono_pos_r in Hg1; [|assumption].
    apply Z.mul_le_mono_pos_r in Hg2; [|assumption].
    split; assumption.
Qed.

(** The exact rational value in units of [2^-149]. *)
Lemma to_Q_units x :
  x = S754_zero false \/ positiveFinite x = true ->
  exists q, F32.to_Q x = Some q /\ (q == Qmake (units x) (2 ^ 149))%Q.
Proof.
  assert (HP : Z.pos (2 ^ 149) = 2 ^ 149) by (rewrite Pos2Z.inj_pow; reflexivity).
  intros [->|H].
  - exists 0%Q. split; [reflexivity|]. cbn [units]. unfold Qeq. cbn [Qnum Qden]. lia.
  - destruct (positiveFinite_inv x H) as (m & e & -> & He).
    cbn [F32.to_Q units]. eexists. split; [reflexivity|].
    unfold Qeq. destruct e as [|p|p].
    + cbn [Qnum Qden inject_Z]. rewrite HP. change (2 ^ (0 + 149)) with (2 ^ 149).
      change (2 ^ 0) with 1. ring.
    + cbn [Qnum Qden inject_Z]. rewrite HP, Z.pow_add_r by lia. ring.
    + cbn [Qnum Qden]. rewrite HP, Pos2Z.inj_pow.
      replace 149 with ((Z.neg p + 149) + Z.pos p) at 1 by lia.
      rewrite Z.pow_add_r by lia. ring.
Qed.

Lemma weightsQ_units (instrs : MadProgram) :
  Forall (fun mad => weight mad = S754_zero false \/ positiveFinite (weight mad) = true)
         instrs ->
  exists q, weightsQ instrs = Some q /\
            (q == Qmake (unitsSum (map weight instrs)) (2 ^ 149))%Q.
Proof.
  induction instrs as [|mad instrs IH]; intros Hall.
  - exists 0%Q. split; [reflexivity|]. unfold Qeq. cbn. reflexivity.
  - inversion Hall as [|? ? Hmad Hrest]; subst.
    destruct (IH Hrest) as (qa & Hqa & Eqa).
    destruct (to_Q_units (weight mad) Hmad) as (qw & Hqw & Eqw).
    exists (qw + qa)%Q. split.
    + cbn [weightsQ fold_right]. fold (weightsQ instrs). rewrite Hqw, Hqa. reflexivity.
    + cbn [map unitsSum fold_right]. fold (unitsSum (map weight instrs)).
      rewrite Eqw, Eqa. apply Qinv_plus_distr.
Qed.

Lemma zeroOrOne_units (q : Q) (R : Z) :
  (q == Qmake R (2 ^ 149))%Q ->
  R = 0 \/ - 2 ^ 149 <= 100000 * (R - 2 ^ 149) <= 2 ^ 149 ->
  zeroOrOne (Some q) = true.
Proof.
  assert (HP : Z.pos (2 ^ 149) = 2 ^ 149) by (rewrite Pos2Z.inj_pow; reflexivity).
  intros Eq [->|HR]; cbn [zeroOrOne]; apply orb_true_iff.
  - left. apply Qeq_bool_iff. rewrite Eq. unfold Qeq. cbn. reflexivity.
  - right. apply andb_true_iff. split; apply Qle_bool_iff; rewrite Eq.
    + unfold Qle. cbn [Qnum Qden Qminus Qplus Qopp]. rewrite HP.
      change (2 ^ 149) with 713623846352979940529142984724747568191373312 in *. lia.
    + unfold Qle. cbn [Qnum Qden Qminus Qplus Qopp]. rewrite HP.
      change (2 ^ 149) with 713623846352979940529142984724747568191373312 in *. lia.
Qed.

(** The weights of a target after the normalisation, when the weights
    gathered are positive and at most 64: their exact sum is 1 within
    1e-5, or 0 when the binary32 sum overflowed. *)
Lemma normalized_zeroOrOne (instrs : MadProgram) :
  instrs <> [] -> (length instrs <= 64)%nat ->
  Forall (fun mad => positiveFinite (weight mad) = true) instrs ->
  F32.ne (fold_left F32.add (map weight instrs) F32.zero) F32.zero = true /\
  zeroOrOne (weightsQ (map (divWeight (fold_left F32.add (map weight instrs) F32.zero))
                           instrs)) = true.
Proof.
  intros Hne Hlen Hall.
  set (ws := map weight instrs).
  assert (Hws : Forall (fun w => positiveFinite w = true) ws).
  { unfold ws. clear Hne Hlen. induction Hall; constructor; assumption. }
  assert (Hne' : ws <> []) by (unfold ws; destruct instrs; [contradiction|discriminate]).
  assert (Hlen' : (length ws <= 64)%nat) by (unfold ws; rewrite length_map; exact Hlen).
  set (s := fold_left F32.add ws F32.zero).
  pose proof (normalized_units ws Hne' Hlen' Hws) as Hn.
  change (fold_left (SFadd 24 128) ws (S754_zero false)) with s in Hn.
  assert (Hmap : forall l, map weight (map (divWeight s) l)
                           = map (fun w => SFdiv 24 128 w s) (map weight l)).
  { induction l as [|mad l IH]; [reflexivity|]. cbn [map]. rewrite IH. reflexivity. }
  specialize (Hmap instrs). fold ws in Hmap.
  destruct Hn as [Hinf|(Hs & Hshape & Hbound)].
  - clearbody s. subst s. split; [reflexivity|].
    assert (Hz : Forall (fun mad => weight mad = F32.zero)
                        (map (divWeight (S754_infinity false)) instrs)).
    { clear -Hall. induction Hall as [|mad instrs Hmad _ IH]; [constructor|].
      cbn [map]. constructor; [|exact IH].
      destruct (positiveFinite_inv _ Hmad) as (m & e & Hw & _).
      cbn [divWeight weight]. rewrite Hw. reflexivity. }
    destruct (weightsQ_units (map (divWeight (S754_infinity false)) instrs)) as (q & Hq & Eq).
    { eapply Forall_impl; [exact Hz|]. intros mad Hm. left. exact Hm. }
    rewrite Hq. apply (zeroOrOne_units q _ Eq). left.
    clear -Hz. induction Hz as [|mad l Hm _ IH]; [reflexivity|].
    cbn [map unitsSum fold_right]. fold (unitsSum (map weight l)). rewrite Hm, IH. reflexivity.
  - split.
    { destruct (positiveFinite_inv s Hs) as (m & e & -> & _). reflexivity. }
    destruct (weightsQ_units (map (divWeight s) instrs)) as (q & Hq & Eq).
    { rewrite <- Hmap in Hshape. apply List.Forall_map in Hshape. exact Hshape. }
    rewrite Hq. apply (zeroOrOne_units q _ Eq). right. rewrite Hmap. exact Hbound.
Qed.

End Rounding.

(* =================================================================== *)
(** ** The generator: structure of the generated program *)
(* =================================================================== *)

Lemma bind_Ok {A B : Type} (r : result A) (k : A -> result B) (b : B) :
  bind r k = Ok b -> exists a, r = Ok a /\ k a = Ok b.
Proof. destruct r as [a|e]; simpl; [eauto | discriminate]. Qed.

Lemma wrap_uint32_small (z : Z) : (0 <= z < 2 ^ 32)%Z -> wrap_uint32 z = z.
Proof. intros H. unfold wrap_uint32. apply Z.mod_small. exact H. Qed.

Lemma wrap_int32_small (z : Z) :
  (- 2 ^ 31 <= z < 2 ^ 31)%Z -> wrap_int32 z = z.
Proof.
  intros H. unfold wrap_int32. rewrite Z.mod_small; lia.
Qed.

Lemma int32_of_float_range (x : float) (z : Z) :
  int32_of_float x = Ok z -> (INT32_MIN <= z <= INT32_MAX)%Z.
Proof.
  unfold int32_of_float. destruct (F32.trunc x) as [y|]; [|discriminate].
  destruct (INT32_MIN <=? y)%Z eqn:E1; destruct (y <=? INT32_MAX)%Z eqn:E2;
    simpl; try discriminate.
  intros [= <-]. lia.
Qed.

Section GeneratorFacts.

Variables (ntarget nsource : Z) (left right : float)
          (filter : FilterFn) (radiusMultiplier : float).

Let body := scanBody ntarget nsource left right filter radiusMultiplier.
Let loop := scanLoop ntarget nsource left right filter radiusMultiplier.

Lemma scanBody_inv itarget xtarget lo isource st :
  (INT32_MIN <= lo)%Z -> (isource < INT32_MAX)%Z -> (lo <= isource)%Z ->
  scanInv nsource filter itarget lo isource st ->
  scanInv nsource filter itarget lo (isource + 1) (body itarget xtarget isource st).
Proof.
  intros Hlo Hmax Hle [Hc Hl Hs Ha].
  assert (Hweak : Forall (fun mad => appended nsource filter itarget lo mad /\
                                     (sourceIndex mad < isource + 1)%Z)
                         (result_ st)).
  { eapply Forall_impl; [exact Ha|]. simpl. intros mad [? ?]. split; [done|lia]. }
  unfold body, scanBody.
  destruct (rejectExternalSamples filter &&
            (outside_image nsource isource ||
             outside_range (xsource_of nsource left right isource))) eqn:Hrej.
  { constructor; auto. lia. }
  destruct (F32.ne _ _) eqn:Hw.
  2:{ constructor; auto. lia. }
  constructor; simpl.
  - rewrite length_app. simpl. rewrite Hc.
    rewrite wrap_uint32_small; [lia|].
    unfold INT32_MIN, INT32_MAX in *. lia.
  - rewrite length_app. simpl. lia.
  - rewrite map_app, fold_left_app. simpl. rewrite Hs. reflexivity.
  - apply Forall_app. split; [exact Hweak|].
    constructor; [|constructor]. simpl. split; [|lia].
    split; [reflexivity|]. split; [exact Hle|]. split; [exact Hw|].
    simpl. intros Hr. rewrite Hr in Hrej. simpl in Hrej.
    apply orb_false_elim in Hrej. destruct Hrej as [Himg _].
    unfold outside_image in Himg. apply orb_false_elim in Himg.
    destruct Himg as [H1 H2]. lia.
Qed.

Lemma scanLoop_inv n : forall itarget xtarget lo isource st st',
  (INT32_MIN <= lo)%Z -> (isource <= INT32_MAX)%Z -> (lo <= isource)%Z ->
  scanInv nsource filter itarget lo isource st ->
  loop n itarget xtarget isource st = Ok st' ->
  scanInv nsource filter itarget lo (isource + Z.of_nat n) st'.
Proof.
  induction n as [|n IH]; intros itarget xtarget lo isource st st' Hlo Hmax Hle Hinv Hrun.
  - simpl in Hrun. injection Hrun as <-. replace (isource + Z.of_nat 0)%Z with isource by lia.
    exact Hinv.
  - simpl in Hrun. destruct (isource =? INT32_MAX)%Z eqn:E; [discriminate|].
    apply Z.eqb_neq in E.
    replace (isource + Z.of_nat (S n))%Z with ((isource + 1) + Z.of_nat n)%Z by lia.
    eapply IH; [exact Hlo| | |apply scanBody_inv|exact Hrun]; try lia. exact Hinv.
Qed.

Lemma scanBody_prefixed p itarget xtarget isource st :
  body itarget xtarget isource (prefixed p st) =
  prefixed p (body itarget xtarget isource st).
Proof.
  unfold body, scanBody.
  destruct (rejectExternalSamples filter && _); [reflexivity|].
  destruct (F32.ne _ _); [|reflexivity].
  unfold prefixed. simpl. rewrite app_assoc. reflexivity.
Qed.

Lemma scanLoop_prefixed p n : forall itarget xtarget isource st,
  loop n itarget xtarget isource (prefixed p st) =
  match loop n itarget xtarget isource st with
  | Ok st' => Ok (prefixed p st')
  | Err e => Err e
  end.
Proof.
  induction n as [|n IH]; intros itarget xtarget isource st; simpl.
  - reflexivity.
  - destruct (isource =? INT32_MAX)%Z; [reflexivity|].
    fold body. rewrite scanBody_prefixed. apply IH.
Qed.

Lemma scanInv_empty itarget lo :
  scanInv nsource filter itarget lo lo {| result_ := []; count := 0; sum := F32.zero |}.
Proof. constructor; simpl; try reflexivity; try lia. constructor. Qed.

Let scan := scanOf ntarget nsource left right filter radiusMultiplier.

(** Every finished scan satisfies the invariant. *)
Lemma scanOf_inv itarget xtarget st :
  scan itarget xtarget = Ok st ->
  exists lo hi,
    isource_lower ntarget nsource left right filter radiusMultiplier xtarget = Ok lo /\
    isource_upper ntarget nsource left right filter radiusMultiplier xtarget = Ok hi /\
    scanInv nsource filter itarget lo (lo + Z.of_nat (Z.to_nat (hi - lo + 1))) st.
Proof.
  unfold scan, scanOf. intros H.
  apply bind_Ok in H. destruct H as (lo & Hlo & H).
  apply bind_Ok in H. destruct H as (hi & Hhi & H).
  exists lo, hi. split; [exact Hlo|]. split; [exact Hhi|].
  pose proof (int32_of_float_range _ _ Hlo) as Rlo.
  eapply scanLoop_inv; [| | |apply scanInv_empty|exact H]; lia.
Qed.

Lemma normalizeTail_app p q s :
  normalizeTail (Z.of_nat (length q)) s (p ++ q) = Ok (p ++ map (divWeight s) q).
Proof.
  unfold normalizeTail. rewrite length_app.
  destruct (Z.of_nat (length q) <=? Z.of_nat (length p + length q))%Z eqn:E.
  2:{ apply Z.leb_gt in E. lia. }
  replace (Z.to_nat (Z.of_nat (length p + length q) - Z.of_nat (length q)))
    with (length p) by lia.
  rewrite take_app_length, drop_app_length. reflexivity.
Qed.

(** One iteration of the target loop appends the block of its scan. *)
Lemma scanTarget_scanOf itarget xtarget program :
  scanTarget ntarget nsource left right filter radiusMultiplier
             itarget xtarget program =
  let* st := scan itarget xtarget in Ok (program ++ blockOf st).
Proof.
  destruct (scan itarget xtarget) as [st|e] eqn:Hscan.
  - destruct (scanOf_inv _ _ _ Hscan) as (lo & hi & Hlo & Hhi & Hinv).
    unfold scan, scanOf in Hscan. unfold scanTarget.
    rewrite Hlo, Hhi in *. simpl in *.
    replace {| result_ := program; count := 0; sum := F32.zero |}
      with (prefixed program {| result_ := []; count := 0; sum := F32.zero |})
      by (unfold prefixed; simpl; rewrite app_nil_r; reflexivity).
    fold loop in Hscan |- *. rewrite scanLoop_prefixed, Hscan. simpl.
    unfold blockOf. destruct (F32.ne (sum st) F32.zero); [|reflexivity].
    rewrite (inv_count _ _ _ _ _ _ Hinv). apply normalizeTail_app.
  - unfold scan, scanOf in Hscan. unfold scanTarget.
    destruct (isource_lower _ _ _ _ _ _ _) as [lo|]; simpl in *; [|congruence].
    destruct (isource_upper _ _ _ _ _ _ _) as [hi|]; simpl in *; [|congruence].
    replace {| result_ := program; count := 0; sum := F32.zero |}
      with (prefixed program {| result_ := []; count := 0; sum := F32.zero |})
      by (unfold prefixed; simpl; rewrite app_nil_r; reflexivity).
    fold loop in Hscan |- *. rewrite scanLoop_prefixed, Hscan. reflexivity.
Qed.

(** The target loop appends the blocks of its scans, in order. *)
Lemma targetLoop_scans n : forall itarget xtarget program,
  targetLoop ntarget nsource left right filter radiusMultiplier
             n itarget xtarget program =
  let* sts := scans ntarget nsource left right filter radiusMultiplier
                n itarget xtarget in
  Ok (program ++ concat (map blockOf sts)).
Proof.
  induction n as [|n IH]; intros itarget xtarget program; simpl.
  - rewrite app_nil_r. reflexivity.
  - rewrite scanTarget_scanOf. fold scan.
    destruct (scan itarget xtarget) as [st|e]; simpl; [|reflexivity].
    rewrite IH.
    destruct (scans _ _ _ _ _ _ n _ _) as [sts|e]; simpl; [|reflexivity].
    rewrite app_assoc. reflexivity.
Qed.

(** The [k]-th scan of [scans] is the scan of target [itarget + k] at the
    centre advanced [k] times. *)
Lemma scans_lookup n : forall itarget xtarget sts,
  (0 <= itarget)%Z -> (itarget + Z.of_nat n <= 2 ^ 32)%Z ->
  scans ntarget nsource left right filter radiusMultiplier
        n itarget xtarget = Ok sts ->
  length sts = n /\
  forall k st, sts !! k = Some st ->
    scan (itarget + Z.of_nat k)
         (Nat.iter k (fun x => x + dtarget ntarget) xtarget) = Ok st.
Proof.
  induction n as [|n IH]; intros itarget xtarget sts H0 Hn H; simpl in H.
  - injection H as <-. split; [reflexivity|]. intros k st Hk. discriminate.
  - apply bind_Ok in H. destruct H as (st0 & Hst0 & H).
    apply bind_Ok in H. destruct H as (sts' & Hsts' & H).
    injection H as <-.
    destruct n as [|m].
    { simpl in Hsts'. injection Hsts' as <-. split; [reflexivity|].
      intros [|k] st Hlook; simpl in Hlook; [|discriminate].
      injection Hlook as <-. replace (itarget + Z.of_nat 0)%Z with itarget by lia. simpl.
      exact Hst0. }
    rewrite wrap_uint32_small in Hsts' by lia.
    assert (Ha : (0 <= itarget + 1)%Z) by lia.
    assert (Hb : (itarget + 1 + Z.of_nat (S m) <= 2 ^ 32)%Z) by lia.
    destruct (IH _ _ _ Ha Hb Hsts') as [Hlen Hk].
    split; [simpl; lia|].
    intros [|k] st Hlook; simpl in Hlook.
    + injection Hlook as <-. replace (itarget + Z.of_nat 0)%Z with itarget by lia. simpl.
      exact Hst0.
    + specialize (Hk k st Hlook).
      replace (itarget + Z.of_nat (S k))%Z with (itarget + 1 + Z.of_nat k)%Z by lia.
      rewrite Nat.iter_succ_r. exact Hk.
Qed.

Lemma blockOf_indices (P : Z -> Z -> Prop) st :
  Forall (fun mad => P (targetIndex mad) (sourceIndex mad)) (result_ st) ->
  Forall (fun mad => P (targetIndex mad) (sourceIndex mad)) (blockOf st).
Proof.
  intros H. unfold blockOf. destruct (F32.ne _ _); [|exact H].
  apply Forall_map. eapply Forall_impl; [exact H|]. intros mad Hm. exact Hm.
Qed.

Lemma blockOf_nil st : result_ st = [] <-> blockOf st = [].
Proof.
  unfold blockOf. destruct (F32.ne _ _); [|split; intros H; exact H].
  destruct (result_ st); simpl; split; intros H; try discriminate; reflexivity.
Qed.

Lemma instructionsOf_app t p q :
  instructionsOf t (p ++ q) = instructionsOf t p ++ instructionsOf t q.
Proof. unfold instructionsOf. apply List.filter_app. Qed.

Lemma instructionsOf_all t p :
  Forall (fun mad => targetIndex mad = t) p -> instructionsOf t p = p.
Proof.
  induction 1 as [|mad p Hm _ IH]; simpl; [reflexivity|].
  rewrite Hm, Z.eqb_refl. f_equal. exact IH.
Qed.

Lemma instructionsOf_none t p :
  Forall (fun mad => targetIndex mad <> t) p -> instructionsOf t p = [].
Proof.
  induction 1 as [|mad p Hm _ IH]; simpl; [reflexivity|].
  apply Z.eqb_neq in Hm. rewrite Hm. exact IH.
Qed.

(** In a concatenation of blocks whose [k]-th block writes target
    [base + k], the instructions of a target are its block. *)
Lemma instructionsOf_blocks sts : forall base t,
  (forall k st, sts !! k = Some st ->
     Forall (fun mad => targetIndex mad = base + Z.of_nat k)%Z (blockOf st)) ->
  instructionsOf (base + Z.of_nat t) (concat (map blockOf sts)) =
  match sts !! t with Some st => blockOf st | None => [] end.
Proof.
  induction sts as [|st0 sts IH]; intros base t H; simpl.
  - reflexivity.
  - rewrite instructionsOf_app.
    assert (Htail : forall k st, sts !! k = Some st ->
              Forall (fun mad => targetIndex mad = (base + 1) + Z.of_nat k)%Z
                     (blockOf st)).
    { intros k st Hk. specialize (H (S k) st Hk).
      eapply Forall_impl; [exact H|]. simpl. intros mad Hm. lia. }
    destruct t as [|t]; simpl.
    + rewrite instructionsOf_all.
      2:{ specialize (H O st0 eq_refl). eapply Forall_impl; [exact H|].
          simpl. intros mad Hm. lia. }
      rewrite instructionsOf_none; [apply app_nil_r|].
      apply Forall_concat. apply Forall_map. apply Forall_lookup_2.
      intros k st Hk. specialize (Htail k st Hk).
      eapply Forall_impl; [exact Htail|]. simpl. intros mad Hm. lia.
    + rewrite instructionsOf_none.
      2:{ specialize (H O st0 eq_refl). eapply Forall_impl; [exact H|].
          simpl. intros mad Hm. lia. }
      simpl. replace (base + Z.of_nat (S t))%Z with ((base + 1) + Z.of_nat t)%Z by lia.
      apply IH. exact Htail.
Qed.

(** The structure of a generated program: the concatenation, target
    after target, of the blocks of the scans at the running centres. *)
Lemma generateMadProgram_blocks program :
  (0 <= ntarget <= 2 ^ 32)%Z ->
  generateMadProgram ntarget nsource left right filter radiusMultiplier []
    = Ok program ->
  exists sts,
    scans ntarget nsource left right filter radiusMultiplier
          (Z.to_nat ntarget) 0 (dtarget ntarget / F32.two) = Ok sts /\
    program = concat (map blockOf sts) /\
    length sts = Z.to_nat ntarget /\
    (forall t st, sts !! t = Some st ->
       scan (Z.of_nat t) (xtargetAt ntarget t) = Ok st) /\
    (forall t, instructionsOf (Z.of_nat t) program =
               match sts !! t with Some st => blockOf st | None => [] end).
Proof.
  intros Hn Hgen. unfold generateMadProgram in Hgen.
  rewrite targetLoop_scans in Hgen.
  apply bind_Ok in Hgen. destruct Hgen as (sts & Hsts & Hprog).
  simpl in Hprog. injection Hprog as <-.
  exists sts. split; [exact Hsts|]. split; [reflexivity|].
  assert (Hb : (0 + Z.of_nat (Z.to_nat ntarget) <= 2 ^ 32)%Z) by lia.
  destruct (scans_lookup _ _ _ _ (Z.le_refl 0) Hb Hsts) as [Hlen Hk].
  split; [exact Hlen|].
  assert (Hscan : forall t st, sts !! t = Some st ->
            scan (Z.of_nat t) (xtargetAt ntarget t) = Ok st).
  { intros t st Ht. specialize (Hk t st Ht). simpl in Hk. exact Hk. }
  split; [exact Hscan|].
  intros t. change (Z.of_nat t) with (0 + Z.of_nat t)%Z.
  apply instructionsOf_blocks.
  intros k st Hst. specialize (Hscan k st Hst).
  destruct (scanOf_inv _ _ _ Hscan) as (lo & hi & _ & _ & Hinv).
  apply (blockOf_indices (fun t _ => t = (0 + Z.of_nat k)%Z)).
  eapply Forall_impl; [exact (inv_appended _ _ _ _ _ _ Hinv)|].
  simpl. intros mad [[Ht _] _]. exact Ht.
Qed.

Lemma Zseq_In lo n i : In i (Zseq lo n) <-> (lo <= i < lo + Z.of_nat n)%Z.
Proof.
  unfold Zseq. rewrite in_map_iff. split.
  - intros (k & <- & Hk). apply in_seq in Hk. lia.
  - intros H. exists (Z.to_nat (i - lo)). split; [lia|]. apply in_seq. lia.
Qed.

Lemma Zseq_S lo n : Zseq lo (S n) = lo :: Zseq (lo + 1) n.
Proof.
  unfold Zseq. simpl. f_equal; [lia|].
  rewrite <- seq_shift, map_map. apply map_ext. intros k. lia.
Qed.

(** A scan that finishes has run the body once for each of the [n]
    indices from [isource], in ascending order. *)
Lemma scanLoop_fold n : forall itarget xtarget isource st st',
  loop n itarget xtarget isource st = Ok st' ->
  st' = fold_left (fun s i => body itarget xtarget i s) (Zseq isource n) st.
Proof.
  induction n as [|n IH]; intros itarget xtarget isource st st' H; simpl in H.
  - injection H as <-. reflexivity.
  - destruct (isource =? INT32_MAX)%Z; [discriminate|].
    rewrite Zseq_S. simpl. apply IH. exact H.
Qed.

(** Every instruction of a generated program writes a target below
    [ntarget] and, when the kernel rejects external samples, reads a
    source sample of the image. *)
Lemma generateMadProgram_indices program :
  (0 <= ntarget <= 2 ^ 32)%Z ->
  generateMadProgram ntarget nsource left right filter radiusMultiplier []
    = Ok program ->
  Forall (fun mad =>
            (0 <= targetIndex mad < ntarget)%Z /\
            (rejectExternalSamples filter = true ->
             (0 <= sourceIndex mad < wrap_int32 nsource)%Z))
         program.
Proof.
  intros Hn Hgen.
  destruct (generateMadProgram_blocks _ Hn Hgen)
    as (sts & _ & -> & Hlen & Hscan & _).
  apply Forall_concat. apply Forall_map. apply Forall_lookup_2.
  intros k st Hk.
  pose proof (lookup_lt_Some _ _ _ Hk) as Hlt.
  specialize (Hscan k st Hk).
  destruct (scanOf_inv _ _ _ Hscan) as (lo & hi & _ & _ & Hinv).
  apply (blockOf_indices
           (fun t s => (0 <= t < ntarget)%Z /\
                       (rejectExternalSamples filter = true ->
                        (0 <= s < wrap_int32 nsource)%Z))).
  eapply Forall_impl; [exact (inv_appended _ _ _ _ _ _ Hinv)|].
  simpl. intros mad [(Ht & _ & _ & Hs) _]. split; [lia|exact Hs].
Qed.

End GeneratorFacts.

(* =================================================================== *)
(** ** The channel expander *)
(* =================================================================== *)

Lemma wrap_uint32_le (z : Z) : (0 <= z)%Z -> (0 <= wrap_uint32 z <= z)%Z.
Proof.
  intros H. unfold wrap_uint32. split.
  - apply Z.mod_pos_bound. lia.
  - apply Z.mod_le; lia.
Qed.

Lemma channelLoop_inRow (ns nt : Z) n : forall mad acc (tb : Z),
  (ns <= 2 ^ 31)%Z ->
  Forall (inRow ns nt) acc ->
  (0 <= targetIndex mad <= tb)%Z -> (tb + Z.of_nat n <= nt)%Z ->
  (0 <= sourceIndex mad)%Z -> (sourceIndex mad + Z.of_nat n <= ns)%Z ->
  Forall (inRow ns nt) (channelLoop n mad acc).
Proof.
  induction n as [|n IH]; intros mad acc tb Hns Hacc Ht Htb Hs Hsb; simpl.
  - exact Hacc.
  - destruct n as [|m].
    { simpl. apply Forall_app. split; [exact Hacc|].
      constructor; [|constructor]. unfold inRow. lia. }
    apply (IH _ _ (tb + 1)%Z Hns).
    + apply Forall_app. split; [exact Hacc|].
      constructor; [|constructor]. unfold inRow. lia.
    + simpl. pose proof (wrap_uint32_le (targetIndex mad + 1)). lia.
    + lia.
    + simpl. rewrite wrap_int32_small; lia.
    + simpl. rewrite wrap_int32_small; lia.
Qed.

(** Expansion keeps the instructions inside the widened rows, as long as
    the widened source row can be indexed by an [int32_t]. *)
Lemma expandMadProgram_inRow (nsource ntarget nchannels : Z) (program : MadProgram) :
  (0 <= nsource)%Z -> (nsource * nchannels <= 2 ^ 31)%Z ->
  Forall (inRow nsource ntarget) program ->
  Forall (inRow (nsource * nchannels) (ntarget * nchannels))
         (expandMadProgram nchannels program).
Proof.
  intros HS HSC Hprog. unfold expandMadProgram.
  destruct (nchannels =? 1)%Z eqn:E1.
  { apply Z.eqb_eq in E1. subst nchannels. rewrite !Z.mul_1_r. exact Hprog. }
  assert (Hgen : forall acc,
             Forall (inRow (nsource * nchannels) (ntarget * nchannels)) acc ->
             Forall (inRow (nsource * nchannels) (ntarget * nchannels))
               (fold_left
                  (fun acc mad =>
                     channelLoop (Z.to_nat nchannels)
                       {| targetIndex := wrap_uint32 (targetIndex mad * nchannels);
                          sourceIndex := wrap_int32 (sourceIndex mad * nchannels);
                          weight := weight mad |} acc)
                  program acc)).
  { induction Hprog as [|mad program Hmad _ IH]; intros acc Hacc; simpl.
    - exact Hacc.
    - apply IH. destruct Hmad as [Hs Ht].
      destruct (Z.le_gt_cases nchannels 0) as [Hc|Hc].
      { replace (Z.to_nat nchannels) with O by lia. simpl. exact Hacc. }
      assert (Hsc : (0 <= sourceIndex mad * nchannels)%Z) by nia.
      assert (Hsc' : (sourceIndex mad * nchannels + nchannels
                      <= nsource * nchannels)%Z) by nia.
      assert (Htc : (0 <= targetIndex mad * nchannels)%Z) by nia.
      assert (Htc' : (targetIndex mad * nchannels + nchannels
                      <= ntarget * nchannels)%Z) by nia.
      apply (channelLoop_inRow _ _ _ _ _ (targetIndex mad * nchannels)%Z HSC Hacc);
        simpl.
      + pose proof (wrap_uint32_le _ Htc). lia.
      + lia.
      + rewrite wrap_int32_small; lia.
      + rewrite wrap_int32_small; lia. }
  apply Hgen. constructor.
Qed.

(* =================================================================== *)
(** ** The executor *)
(* =================================================================== *)

Lemma minRow_execRow program : forall source sourceRow targetRow target,
  minRow program source sourceRow targetRow target =
  execRow opMin program source sourceRow targetRow target.
Proof.
  induction program as [|mad rest IH]; intros; simpl; [reflexivity|].
  destruct (load source _); simpl; [|reflexivity].
  destruct (load target _); simpl; [|reflexivity].
  destruct (store target _ _); simpl; [|reflexivity].
  apply IH.
Qed.

Lemma madRow_execRow program : forall source sourceRow targetRow target,
  madRow program source sourceRow targetRow target =
  execRow opMad program source sourceRow targetRow target.
Proof.
  induction program as [|mad rest IH]; intros; simpl; [reflexivity|].
  destruct (load source _); simpl; [|reflexivity].
  destruct (load target _); simpl; [|reflexivity].
  destruct (store target _ _); simpl; [|reflexivity].
  apply IH.
Qed.

Lemma load_Ok (buf : list float) (i : Z) (x : float) :
  load buf i = Ok x <-> (0 <= i)%Z /\ buf !! Z.to_nat i = Some x.
Proof.
  unfold load. destruct (0 <=? i)%Z eqn:E.
  - apply Z.leb_le in E. destruct (buf !! Z.to_nat i) as [y|]; split.
    + intros [= <-]. auto.
    + intros [_ [= <-]]. reflexivity.
    + discriminate.
    + intros [_ ?]. discriminate.
  - apply Z.leb_gt in E. split; [discriminate|]. intros [? _]. lia.
Qed.

Lemma load_in_range (buf : list float) (i : Z) :
  (0 <= i < Z.of_nat (length buf))%Z -> exists x, load buf i = Ok x.
Proof.
  intros H. destruct (lookup_lt_is_Some_2 buf (Z.to_nat i)) as [x Hx]; [lia|].
  exists x. apply load_Ok. split; [lia|exact Hx].
Qed.

Lemma store_Ok (buf : list float) (i : Z) (x : float) (buf' : list float) :
  store buf i x = Ok buf' <->
  (0 <= i < Z.of_nat (length buf))%Z /\ buf' = <[Z.to_nat i := x]> buf.
Proof.
  unfold store.
  destruct (0 <=? i)%Z eqn:E1; destruct (i <? Z.of_nat (length buf))%Z eqn:E2; simpl;
    try apply Z.leb_le in E1; try apply Z.leb_gt in E1;
    try apply Z.ltb_lt in E2; try apply Z.ltb_ge in E2.
  - split; [intros [= <-]; split; [lia|reflexivity] | intros [_ ->]; reflexivity].
  - split; [discriminate | intros [? _]; lia].
  - split; [discriminate | intros [? _]; lia].
  - split; [discriminate | intros [? _]; lia].
Qed.

Section ExecRow.

Variable op : MadInstruction -> float -> float -> float.
Variable source : list float.

Lemma execRow_length program : forall sourceRow targetRow target target',
  execRow op program source sourceRow targetRow target = Ok target' ->
  length target' = length target.
Proof.
  induction program as [|mad rest IH]; intros sourceRow targetRow target target' H;
    simpl in H.
  - injection H as <-. reflexivity.
  - apply bind_Ok in H. destruct H as (a & Ha & H).
    apply bind_Ok in H. destruct H as (b & Hb & H).
    apply bind_Ok in H. destruct H as (t1 & Ht1 & H).
    apply store_Ok in Ht1. destruct Ht1 as [_ ->].
    rewrite (IH _ _ _ _ H). apply length_insert.
Qed.

(** What a row leaves in each cell of the target buffer. *)
Lemma execRow_cell program : forall sourceRow targetRow target target' idx,
  execRow op program source sourceRow targetRow target = Ok target' ->
  target' !! idx =
  cellFold op source sourceRow targetRow idx program <$> target !! idx.
Proof.
  induction program as [|mad rest IH]; intros sourceRow targetRow target target' idx H;
    simpl in H.
  - injection H as <-. unfold cellFold. simpl.
    destruct (target !! idx); reflexivity.
  - apply bind_Ok in H. destruct H as (a & Ha & H).
    apply bind_Ok in H. destruct H as (b & Hb & H).
    apply bind_Ok in H. destruct H as (t1 & Ht1 & H).
    apply load_Ok in Ha. destruct Ha as [Ha0 Ha].
    apply load_Ok in Hb. destruct Hb as [Hb0 Hb].
    apply store_Ok in Ht1. destruct Ht1 as [Hrange ->].
    rewrite (IH _ _ _ _ idx H). unfold cellFold. simpl. rewrite Ha. simpl.
    destruct (targetRow + targetIndex mad =? Z.of_nat idx)%Z eqn:E.
    + apply Z.eqb_eq in E.
      assert (Hidx : Z.to_nat (targetRow + targetIndex mad) = idx) by lia.
      rewrite Hidx in *. rewrite list_lookup_insert_eq by lia.
      rewrite Hb. reflexivity.
    + apply Z.eqb_neq in E.
      rewrite list_lookup_insert_ne by lia. reflexivity.
Qed.

(** A row whose indices stay inside the buffers runs to completion. *)
Lemma execRow_safe program : forall sourceRow targetRow target,
  Forall (fun mad =>
            (0 <= sourceRow + sourceIndex mad < Z.of_nat (length source))%Z /\
            (0 <= targetRow + targetIndex mad < Z.of_nat (length target))%Z)
         program ->
  exists target', execRow op program source sourceRow targetRow target = Ok target'.
Proof.
  induction program as [|mad rest IH]; intros sourceRow targetRow target Hall; simpl.
  - eauto.
  - inversion Hall as [|? ? [Hs Ht] Hrest]; subst.
    destruct (load_in_range source _ Hs) as [a ->].
    destruct (load_in_range target _ Ht) as [b ->]. simpl.
    destruct (store target (targetRow + targetIndex mad) (op mad a b)) as [t1|e] eqn:Est.
    2:{ unfold store in Est.
        destruct (0 <=? _)%Z eqn:E1; destruct (_ <? _)%Z eqn:E2; simpl in Est;
          try discriminate; lia. }
    simpl. apply IH. apply store_Ok in Est. destruct Est as [_ ->].
    rewrite length_insert. exact Hrest.
Qed.

Lemma cellFold_untouched sourceRow targetRow idx program b :
  Forall (fun mad => (targetRow + targetIndex mad <> Z.of_nat idx)%Z) program ->
  cellFold op source sourceRow targetRow idx program b = b.
Proof.
  unfold cellFold. induction 1 as [|mad rest Hm _ IH]; simpl; [reflexivity|].
  apply Z.eqb_neq in Hm. rewrite Hm. exact IH.
Qed.

Variable program : MadProgram.

Lemma rowLoop_length n : forall sstride tstride sourceRow targetRow target target',
  rowLoop (execRow op program source) n sstride tstride sourceRow targetRow target
    = Ok target' ->
  length target' = length target.
Proof.
  induction n as [|n IH]; intros sstride tstride sourceRow targetRow target target' H;
    simpl in H.
  - injection H as <-. reflexivity.
  - apply bind_Ok in H. destruct H as (t1 & Ht1 & H).
    rewrite (IH _ _ _ _ _ _ H). eapply execRow_length. exact Ht1.
Qed.

Lemma rowLoop_cell n : forall sstride tstride sourceRow targetRow target target' idx,
  rowLoop (execRow op program source) n sstride tstride sourceRow targetRow target
    = Ok target' ->
  target' !! idx =
  rowsCell op source program idx n sstride tstride sourceRow targetRow
    <$> target !! idx.
Proof.
  induction n as [|n IH];
    intros sstride tstride sourceRow targetRow target target' idx H; simpl in H.
  - injection H as <-. simpl. destruct (target !! idx); reflexivity.
  - apply bind_Ok in H. destruct H as (t1 & Ht1 & H).
    rewrite (IH _ _ _ _ _ _ idx H). rewrite (execRow_cell _ _ _ _ _ idx Ht1).
    simpl. destruct (target !! idx); reflexivity.
Qed.

(** Rows that stay inside the buffers run to completion. *)
Lemma rowLoop_safe n : forall sstride tstride sourceRow targetRow target,
  (0 <= sstride)%Z -> (0 <= tstride)%Z -> (0 <= sourceRow)%Z -> (0 <= targetRow)%Z ->
  (sourceRow + Z.of_nat n * sstride <= Z.of_nat (length source))%Z ->
  (targetRow + Z.of_nat n * tstride <= Z.of_nat (length target))%Z ->
  Forall (inRow sstride tstride) program ->
  exists target',
    rowLoop (execRow op program source) n sstride tstride sourceRow targetRow target
      = Ok target'.
Proof.
  induction n as [|n IH];
    intros sstride tstride sourceRow targetRow target Hss Hts Hs Ht Hsl Htl Hall; simpl.
  - eauto.
  - destruct (execRow_safe program sourceRow targetRow target) as [t1 Ht1].
    { eapply Forall_impl; [exact Hall|]. simpl. intros mad [H1 H2]. nia. }
    rewrite Ht1. simpl.
    apply IH; try lia; try exact Hall.
    rewrite (execRow_length _ _ _ _ _ Ht1). lia.
Qed.

End ExecRow.

Section RowsCell.

Variable op : MadInstruction -> float -> float -> float.
Variable source : list float.
Variable program : MadProgram.
Variables sstride tstride : Z.
Hypothesis Htstride : (0 <= tstride)%Z.
Hypothesis Hprogram : Forall (fun mad => (0 <= targetIndex mad < tstride)%Z) program.

Lemma rowsCell_untouched idx n : forall sourceRow targetRow b,
  (Z.of_nat idx < targetRow)%Z ->
  rowsCell op source program idx n sstride tstride sourceRow targetRow b = b.
Proof.
  induction n as [|n IH]; intros sourceRow targetRow b Hlt; simpl; [reflexivity|].
  rewrite cellFold_untouched.
  - apply IH. lia.
  - eapply Forall_impl; [exact Hprogram|]. simpl. intros mad Hm. lia.
Qed.

(** Rows do not overlap: a cell of row [r] is written by row [r] only. *)
Lemma rowsCell_row idx n : forall r sourceRow targetRow b,
  (r < n)%nat ->
  (targetRow + Z.of_nat r * tstride <= Z.of_nat idx
   < targetRow + Z.of_nat r * tstride + tstride)%Z ->
  rowsCell op source program idx n sstride tstride sourceRow targetRow b =
  cellFold op source (sourceRow + Z.of_nat r * sstride)
           (targetRow + Z.of_nat r * tstride) idx program b.
Proof.
  induction n as [|n IH]; intros r sourceRow targetRow b Hr Hidx; [lia|].
  simpl. destruct r as [|r].
  - rewrite rowsCell_untouched by lia.
    replace (sourceRow + Z.of_nat 0 * sstride)%Z with sourceRow by lia.
    replace (targetRow + Z.of_nat 0 * tstride)%Z with targetRow by lia.
    reflexivity.
  - rewrite cellFold_untouched.
    2:{ eapply Forall_impl; [exact Hprogram|]. simpl. intros mad Hm. nia. }
    rewrite (IH r) by (try lia; nia).
    f_equal; lia.
Qed.

End RowsCell.

(* =================================================================== *)
(** ** Outcomes of the drivers *)
(* =================================================================== *)

Lemma noPanic_bind {A B : Type} (r : result A) (k : A -> result B) :
  noPanic r -> (forall a, r = Ok a -> noPanic (k a)) -> noPanic (bind r k).
Proof. destruct r as [a|e]; simpl; intros H1 H2; [apply H2; reflexivity | exact H1]. Qed.

Lemma int32_of_float_noPanic x : noPanic (int32_of_float x).
Proof.
  unfold int32_of_float. destruct (F32.trunc x); [|exact I].
  destruct (_ && _); exact I.
Qed.

Lemma scanLoop_noPanic nt ns l r f rm n : forall it xt i st,
  noPanic (scanLoop nt ns l r f rm n it xt i st).
Proof.
  induction n as [|n IH]; intros; simpl; [exact I|].
  destruct (_ =? _)%Z; [exact I|apply IH].
Qed.

Lemma normalizeTail_noPanic c s p : noPanic (normalizeTail c s p).
Proof. unfold normalizeTail. destruct (_ <=? _)%Z; exact I. Qed.

Lemma generateMadProgram_noPanic nt ns l r f rm p :
  noPanic (generateMadProgram nt ns l r f rm p).
Proof.
  unfold generateMadProgram. generalize (dtarget nt / F32.two) 0%Z p.
  induction (Z.to_nat nt) as [|n IH]; intros xt it q; simpl; [exact I|].
  apply noPanic_bind; [|intros; apply IH].
  unfold scanTarget.
  apply noPanic_bind; [apply int32_of_float_noPanic|intros lo _].
  apply noPanic_bind; [apply int32_of_float_noPanic|intros hi _].
  apply noPanic_bind; [apply scanLoop_noPanic|intros st _].
  destruct (F32.ne _ _); [apply normalizeTail_noPanic|exact I].
Qed.

Lemma load_noPanic buf i : noPanic (load buf i).
Proof. unfold load. destruct (_ <=? _)%Z; [destruct (buf !! _)|]; exact I. Qed.

Lemma store_noPanic buf i x : noPanic (store buf i x).
Proof. unfold store. destruct (_ && _); exact I. Qed.

Lemma execRow_noPanic op program : forall source sr tr target,
  noPanic (execRow op program source sr tr target).
Proof.
  induction program as [|mad rest IH]; intros; simpl; [exact I|].
  apply noPanic_bind; [apply load_noPanic|intros a _].
  apply noPanic_bind; [apply load_noPanic|intros b _].
  apply noPanic_bind; [apply store_noPanic|intros t _]. apply IH.
Qed.

Lemma rowLoop_noPanic body n : forall ss ts sr tr target,
  (forall sr tr target, noPanic (body sr tr target)) ->
  noPanic (rowLoop body n ss ts sr tr target).
Proof.
  induction n as [|n IH]; intros; simpl; [exact I|].
  apply noPanic_bind; [auto|intros; apply IH; auto].
Qed.

Lemma fillMax_noPanic c buf : noPanic (fillMax c buf).
Proof. unfold fillMax. destruct (_ <=? _)%Z; exact I. Qed.

Lemma normalizeLoop_noPanic n : forall data, noPanic (normalizeLoop n data).
Proof.
  induction n as [|n IH]; intros data; simpl; [exact I|].
  destruct data as [|x [|y [|z rest]]]; try exact I.
  destruct (vnormalize (x, y, z)) as [[x' y'] z'].
  apply noPanic_bind; [apply IH|intros; exact I].
Qed.

(** The only precondition [normalize] can fail is its own. *)
Lemma normalize_Err image e :
  normalize image = Err e ->
  e = Panic "Must be a 3-channel image." \/ exists what, e = Undefined what.
Proof.
  unfold normalize, ASSERT_PRECONDITION.
  destruct (getChannels image =? 3)%Z; simpl.
  - pose proof (normalizeLoop_noPanic
                  (Z.to_nat (wrap_uint32 (getWidth image * getHeight image)))
                  (get image)) as H.
    destruct (normalizeLoop _ _) as [d|[msg|what]]; simpl in *;
      [discriminate|contradiction|].
    intros [= <-]. right. eauto.
  - intros [= <-]. left. reflexivity.
Qed.

Lemma normalize_dims image image' :
  normalize image = Ok image' ->
  getWidth image' = getWidth image /\ getHeight image' = getHeight image /\
  getChannels image' = getChannels image.
Proof.
  unfold normalize. intros H.
  apply bind_Ok in H. destruct H as (_ & _ & H).
  apply bind_Ok in H. destruct H as (d & _ & H).
  injection H as <-. simpl. auto.
Qed.

Lemma rowLoop_ext body1 body2 n : forall ss ts sr tr target,
  (forall sr tr target, body1 sr tr target = body2 sr tr target) ->
  rowLoop body1 n ss ts sr tr target = rowLoop body2 n ss ts sr tr target.
Proof.
  induction n as [|n IH]; intros ss ts sr tr target H; simpl; [reflexivity|].
  rewrite H. destruct (body2 sr tr target); simpl; [apply IH; exact H|reflexivity].
Qed.

(** [resampleImage1D] in terms of the generic row loop. *)
Lemma resampleImage1D_unfold source program twidth filter left right rm :
  resampleImage1D source program twidth filter left right rm =
  let swidth := getWidth source in
  let sheight := getHeight source in
  let nchan := getChannels source in
  let filter' := resolvedFilter twidth swidth filter in
  let* hfn := createFilterFunction filter' in
  let* program0 := generateMadProgram twidth swidth left right hfn rm [] in
  let program' := expandMadProgram nchan program0 in
  let result := newLinearImage twidth sheight nchan in
  let sstride := wrap_uint32 (swidth * nchan) in
  let tstride := wrap_uint32 (twidth * nchan) in
  if Filter_eqb filter' MINIMUM then
    let* target := fillMax (wrap_uint32 (twidth * sheight * nchan)) (get result) in
    let* target := rowLoop (execRow opMin program' (get source)) (Z.to_nat sheight)
                     sstride tstride 0 0 target in
    Ok (withData result target, program')
  else
    let* target := rowLoop (execRow opMad program' (get source)) (Z.to_nat sheight)
                     sstride tstride 0 0 (get result) in
    let* result := if Filter_eqb filter' GAUSSIAN_NORMALS
                   then normalize (withData result target)
                   else Ok (withData result target) in
    Ok (result, program').
Proof.
  unfold resampleImage1D, resolvedFilter. cbv zeta.
  destruct (createFilterFunction _) as [hfn|e]; simpl; [|reflexivity].
  destruct (generateMadProgram _ _ _ _ _ _ _) as [program0|e]; simpl; [|reflexivity].
  destruct (Filter_eqb _ MINIMUM).
  - destruct (fillMax _ _) as [t0|e]; simpl; [|reflexivity].
    rewrite (rowLoop_ext _ (execRow opMin (expandMadProgram (getChannels source) program0)
                                    (get source))).
    + reflexivity.
    + intros. apply minRow_execRow.
  - rewrite (rowLoop_ext _ (execRow opMad (expandMadProgram (getChannels source) program0)
                                    (get source))).
    + reflexivity.
    + intros. apply madRow_execRow.
Qed.

(** The image [resampleImage1D] returns has the requested width and the
    height and channel count of the source. *)
Lemma resampleImage1D_dims source program twidth filter left right rm image program' :
  resampleImage1D source program twidth filter left right rm = Ok (image, program') ->
  getWidth image = twidth /\ getHeight image = getHeight source /\
  getChannels image = getChannels source.
Proof.
  rewrite resampleImage1D_unfold. cbv zeta. intros H.
  apply bind_Ok in H. destruct H as (hfn & _ & H).
  apply bind_Ok in H. destruct H as (program0 & _ & H).
  destruct (Filter_eqb _ MINIMUM).
  - apply bind_Ok in H. destruct H as (t0 & _ & H).
    apply bind_Ok in H. destruct H as (t1 & _ & H).
    injection H as <- <-. simpl. auto.
  - apply bind_Ok in H. destruct H as (t1 & _ & H).
    apply bind_Ok in H. destruct H as (image1 & Himage1 & H).
    injection H as <- <-.
    destruct (Filter_eqb _ GAUSSIAN_NORMALS).
    + apply normalize_dims in Himage1. simpl in Himage1. exact Himage1.
    + injection Himage1 as <-. simpl. auto.
Qed.

(** [resampleImage1D] never aborts on an unresolved filter kind, and the
    only precondition it can fail is the channel count of [normalize]. *)
Lemma resampleImage1D_Err source program twidth filter left right rm e :
  resampleImage1D source program twidth filter left right rm = Err e ->
  e = Panic "Must be a 3-channel image." \/ exists what, e = Undefined what.
Proof.
  rewrite resampleImage1D_unfold. cbv zeta.
  assert (Hund : forall (A : Type) (r : result A), noPanic r -> r = Err e ->
                   exists what, e = Undefined what).
  { intros A r Hr ->. destruct e as [msg|what]; [contradiction|eauto]. }
  destruct (createFilterFunction _) as [hfn|e0] eqn:Hfn; simpl.
  2:{ exfalso. unfold resolvedFilter in Hfn.
      destruct filter; simpl in Hfn; try discriminate.
      destruct (twidth >? getWidth source)%Z; discriminate. }
  pose proof (generateMadProgram_noPanic twidth (getWidth source) left right hfn rm [])
    as Hgen.
  destruct (generateMadProgram _ _ _ _ _ _ _) as [program0|e0]; simpl.
  2:{ intros [= <-]. right. destruct e0; [contradiction|eauto]. }
  destruct (Filter_eqb _ MINIMUM).
  - pose proof (fillMax_noPanic
                  (wrap_uint32 (twidth * getHeight source * getChannels source))
                  (get (newLinearImage twidth (getHeight source) (getChannels source))))
      as Hfill.
    destruct (fillMax _ _) as [t0|e0]; simpl.
    2:{ intros [= <-]. right. destruct e0; [contradiction|eauto]. }
    match goal with
    | |- context [rowLoop ?b ?n ?ss ?ts ?sr ?tr ?t] =>
        pose proof (rowLoop_noPanic b n ss ts sr tr t
                      (fun x y z => execRow_noPanic _ _ _ x y z)) as Hrow;
        destruct (rowLoop b n ss ts sr tr t) as [t1|e1]; simpl
    end.
    + discriminate.
    + intros [= <-]. right. destruct e1; [contradiction|eauto].
  - match goal with
    | |- context [rowLoop ?b ?n ?ss ?ts ?sr ?tr ?t] =>
        pose proof (rowLoop_noPanic b n ss ts sr tr t
                      (fun x y z => execRow_noPanic _ _ _ x y z)) as Hrow;
        destruct (rowLoop b n ss ts sr tr t) as [t1|e1]; simpl
    end.
    2:{ intros [= <-]. right. destruct e1; [contradiction|eauto]. }
    destruct (Filter_eqb _ GAUSSIAN_NORMALS).
    + destruct (normalize _) as [image1|e1] eqn:Hnorm; simpl; [discriminate|].
      intros [= <-]. eapply normalize_Err. exact Hnorm.
    + simpl. discriminate.
Qed.

Lemma createFilterFunction_rejects ftype hfn :
  createFilterFunction ftype = Ok hfn -> rejectExternalSamples hfn = true.
Proof. destruct ftype; simpl; intros [= <-]; reflexivity. Qed.

Lemma resolvedFilter_not_DEFAULT twidth swidth filter :
  resolvedFilter twidth swidth filter <> DEFAULT.
Proof.
  unfold resolvedFilter. destruct filter; simpl; try discriminate.
  destruct (twidth >? swidth)%Z; discriminate.
Qed.

Lemma wrap_int32_le (z : Z) : (0 <= z)%Z -> (wrap_int32 z <= z)%Z.
Proof.
  intros H. unfold wrap_int32.
  pose proof (Z.mod_le (z + 2 ^ 31) (2 ^ 32)). lia.
Qed.

Lemma fillMax_safe count buf :
  (0 <= count <= Z.of_nat (length buf))%Z ->
  exists buf', fillMax count buf = Ok buf' /\ length buf' = length buf.
Proof.
  intros H. unfold fillMax.
  destruct (count <=? Z.of_nat (length buf))%Z eqn:E; [|apply Z.leb_gt in E; lia].
  eexists. split; [reflexivity|].
  rewrite length_app, length_replicate, length_drop. lia.
Qed.

Lemma normalizeLoop_safe n : forall data,
  (3 * n <= length data)%nat ->
  exists data', normalizeLoop n data = Ok data' /\ length data' = length data.
Proof.
  induction n as [|n IH]; intros data H; simpl.
  - eauto.
  - destruct data as [|x [|y [|z rest]]]; simpl in H; try lia.
    destruct (vnormalize (x, y, z)) as [[x' y'] z'].
    destruct (IH rest) as (rest' & -> & Hlen); [lia|].
    simpl. eexists. split; [reflexivity|]. simpl. lia.
Qed.

(** The program [resampleImage1D] builds stays inside the rows of the source
    and target images, provided the source row can be indexed by an
    [int32_t]. *)
Lemma built_program_inRow twidth swidth nchan left right rm ftype hfn program0 :
  (0 <= twidth <= 2 ^ 32)%Z -> (0 <= swidth)%Z -> (swidth * nchan <= 2 ^ 31)%Z ->
  createFilterFunction ftype = Ok hfn ->
  generateMadProgram twidth swidth left right hfn rm [] = Ok program0 ->
  Forall (inRow (swidth * nchan) (twidth * nchan))
         (expandMadProgram nchan program0).
Proof.
  intros HT HS HSC Hfn Hgen.
  apply expandMadProgram_inRow; [exact HS|exact HSC|].
  pose proof (generateMadProgram_indices _ _ _ _ _ _ _ HT Hgen) as Hidx.
  eapply Forall_impl; [exact Hidx|]. simpl. intros mad [Ht Hs].
  specialize (Hs (createFilterFunction_rejects _ _ Hfn)).
  pose proof (wrap_int32_le swidth HS). unfold inRow. lia.
Qed.

(** [resampleImage1D] returns an image whenever program generation is
    defined, the sizes fit their integer types and the normalising filter
    is given three channels. *)
Lemma resampleImage1D_returns source program twidth filter left right rm hfn program0 :
  wellFormed source ->
  (0 <= twidth < 2 ^ 32)%Z ->
  (getWidth source * getChannels source <= 2 ^ 31)%Z ->
  (twidth * getChannels source < 2 ^ 32)%Z ->
  createFilterFunction (resolvedFilter twidth (getWidth source) filter) = Ok hfn ->
  generateMadProgram twidth (getWidth source) left right hfn rm [] = Ok program0 ->
  (resolvedFilter twidth (getWidth source) filter = GAUSSIAN_NORMALS ->
   getChannels source = 3%Z) ->
  exists image,
    resampleImage1D source program twidth filter left right rm
      = Ok (image, expandMadProgram (getChannels source) program0) /\
    wellFormed image.
Proof.
  intros (HW & HH & HC & Hlen) HT HSC HTC Hfn Hgen Hnorm.
  rewrite resampleImage1D_unfold. cbv zeta. rewrite Hfn. cbn [bind]. rewrite Hgen. cbn [bind].
  assert (Hrow : Forall (inRow (getWidth source * getChannels source)
                               (twidth * getChannels source))
                        (expandMadProgram (getChannels source) program0)).
  { eapply built_program_inRow; eauto; lia. }
  set (program' := expandMadProgram (getChannels source) program0) in *.
  assert (Hsize : (0 <= twidth * getHeight source * getChannels source)%Z) by nia.
  rewrite (wrap_uint32_small (getWidth source * getChannels source)) by nia.
  rewrite (wrap_uint32_small (twidth * getChannels source)) by nia.
  assert (Hnew : Z.of_nat (length (get (newLinearImage twidth (getHeight source)
                                          (getChannels source)))) =
                 (twidth * getHeight source * getChannels source)%Z).
  { simpl. rewrite length_replicate. lia. }
  assert (HHn : Z.of_nat (Z.to_nat (getHeight source)) = getHeight source) by lia.
  assert (Hsrc : (0 + Z.of_nat (Z.to_nat (getHeight source)) *
                      (getWidth source * getChannels source)
                  <= Z.of_nat (length (get source)))%Z).
  { rewrite HHn, Hlen. lia. }
  assert (Htgt : (0 + Z.of_nat (Z.to_nat (getHeight source)) *
                      (twidth * getChannels source)
                  <= Z.of_nat (length (get (newLinearImage twidth (getHeight source)
                                              (getChannels source)))))%Z).
  { rewrite HHn, Hnew. lia. }
  destruct (Filter_eqb _ MINIMUM) eqn:Emin.
  - destruct (fillMax_safe
                (wrap_uint32 (twidth * getHeight source * getChannels source))
                (get (newLinearImage twidth (getHeight source) (getChannels source))))
      as (t0 & Ht0 & Hlen0).
    { rewrite Hnew. pose proof (wrap_uint32_le _ Hsize). lia. }
    rewrite Ht0. cbn [bind].
    destruct (rowLoop_safe opMin (get source) program' (Z.to_nat (getHeight source))
                (getWidth source * getChannels source)
                (twidth * getChannels source) 0 0 t0) as [t1 Ht1];
      try exact Hrow; try exact Hsrc; try nia.
    rewrite Ht1. cbn [bind]. eexists. split; [reflexivity|].
    unfold wellFormed. simpl. apply rowLoop_length in Ht1. rewrite Ht1, Hlen0.
    repeat split; try lia.
  - destruct (rowLoop_safe opMad (get source) program' (Z.to_nat (getHeight source))
                (getWidth source * getChannels source)
                (twidth * getChannels source) 0 0
                (get (newLinearImage twidth (getHeight source) (getChannels source))))
      as [t1 Ht1]; try exact Hrow; try exact Hsrc; try exact Htgt; try nia.
    rewrite Ht1. cbn [bind]. apply rowLoop_length in Ht1.
    destruct (Filter_eqb _ GAUSSIAN_NORMALS) eqn:Enorm.
    + assert (HC3 : getChannels source = 3%Z).
      { apply Hnorm. destruct (resolvedFilter _ _ _); simpl in Enorm;
          try discriminate; reflexivity. }
      unfold normalize, ASSERT_PRECONDITION. simpl. rewrite HC3. simpl.
      destruct (normalizeLoop_safe
                  (Z.to_nat (wrap_uint32 (twidth * getHeight source))) t1)
        as (d & Hd & Hdlen).
      { assert (H0 : (0 <= twidth * getHeight source)%Z) by nia.
        pose proof (wrap_uint32_le _ H0). rewrite Ht1. lia. }
      rewrite Hd. simpl. eexists. split; [reflexivity|].
      unfold wellFormed. simpl. rewrite Hdlen, Ht1. repeat split; try lia.
    + simpl. eexists. split; [reflexivity|].
      unfold wellFormed. simpl. rewrite Ht1. repeat split; try lia.
Qed.

(* =================================================================== *)
(** ** Kernels beyond their radius *)
(* =================================================================== *)

(** A distance of at least 1 is not at most 0.5. *)
Lemma ge_one_not_le_half (t : float) :
  (t >=? F32.one) = true -> (t <=? F32.half) = false.
Proof.
  unfold F32.ge, F32.le, SFleb.
  change F32.one with (S754_finite false 8388608 (-23)).
  change F32.half with (S754_finite false 8388608 (-24)).
  destruct t as [s|s| |s m e].
  - destruct s; cbv; discriminate.
  - destruct s; cbv; [discriminate|reflexivity].
  - cbv; discriminate.
  - destruct s; [cbv; discriminate|].
    cbv beta iota delta [SFcompare].
    destruct (Z.compare_spec (-23) e) as [He|He|He];
      destruct (Z.compare_spec e (-24)) as [He'|He'|He']; try lia;
      try discriminate; try reflexivity.
Qed.

(** C2 (amended). Box, Gaussian, Hermite, Mitchell and Lanczos return
    exactly 0 for every distance [t] that is at least their bounding radius.
    Nearest, which is Box's function with radius 0, returns 0 for every
    distance above 0.5 and 1 for every distance up to 0.5. *)
Theorem kernel_zero_beyond_radius (t : float) :
  (forall k, In k [Box; Gaussian; Hermite; Mitchell; Lanczos] ->
             (t >=? boundingRadius k) = true -> fn k t = F32.zero) /\
  ((F32.half <? t) = true -> fn Nearest t = F32.zero) /\
  ((t <=? F32.half) = true -> fn Nearest t = F32.one).
Proof.
  split; [|split].
  - intros k Hk Ht.
    destruct Hk as [<-|[<-|[<-|[<-|[<-|[]]]]]];
      cbn [fn boundingRadius Box Gaussian Hermite Mitchell Lanczos] in *.
    + rewrite (ge_one_not_le_half t Ht). reflexivity.
    + rewrite Ht. reflexivity.
    + rewrite Ht. reflexivity.
    + rewrite Ht. reflexivity.
    + rewrite Ht. reflexivity.
  - intros Ht. cbn [fn Nearest Box].
    assert (Hle : (t <=? F32.half) = false).
    { unfold F32.lt, F32.le, SFltb, SFleb in *.
      change F32.half with (S754_finite false 8388608 (-24)) in *.
      destruct t as [s|s| |s m e].
      - destruct s; cbv in Ht; discriminate.
      - destruct s; [cbv in Ht; discriminate|reflexivity].
      - reflexivity.
      - destruct s; [cbv in Ht; discriminate|].
        cbv beta iota delta [SFcompare] in *.
        destruct (Z.compare_spec (-24) e) as [He|He|He];
          destruct (Z.compare_spec e (-24)) as [He'|He'|He']; try lia;
          try discriminate; try reflexivity.
        pose proof (Pos.compare_cont_antisym 8388608 m Eq) as Hanti.
        change (CompOpp Eq) with Eq in Hanti. rewrite <- Hanti.
        destruct (Pos.compare_cont Eq 8388608 m); cbn [CompOpp] in *;
          try discriminate; reflexivity. }
    rewrite Hle. reflexivity.
  - intros Ht. cbn [fn Nearest Box]. rewrite Ht. reflexivity.
Qed.

(* =================================================================== *)
(** ** The drivers *)
(* =================================================================== *)

(** C7. Given the unresolved kind [DEFAULT], [resampleImage1D] builds the
    Mitchell kernel when the target is wider than the source and the
    Lanczos kernel otherwise: it generates the program with that kernel,
    expands it and executes it as weighted sums, which is what it does for
    [MITCHELL] and for [LANCZOS]. [createFilterFunction] aborts on
    [DEFAULT], and [resampleImage1D] never aborts on an unresolved filter
    kind, whatever kind it is given. *)
Theorem default_filter_resolved source program twidth left right rm :
  resampleImage1D source program twidth DEFAULT left right rm =
    (let* program0 :=
       generateMadProgram twidth (getWidth source) left right
         (if (twidth >? getWidth source)%Z then Mitchell else Lanczos) rm [] in
     let program' := expandMadProgram (getChannels source) program0 in
     let result := newLinearImage twidth (getHeight source) (getChannels source) in
     let* target :=
       rowLoop (madRow program' (get source)) (Z.to_nat (getHeight source))
               (wrap_uint32 (getWidth source * getChannels source))
               (wrap_uint32 (twidth * getChannels source)) 0 0 (get result) in
     Ok (withData result target, program')) /\
  resampleImage1D source program twidth DEFAULT left right rm =
    resampleImage1D source program twidth
      (if (twidth >? getWidth source)%Z then MITCHELL else LANCZOS)
      left right rm /\
  createFilterFunction MITCHELL = Ok Mitchell /\
  createFilterFunction LANCZOS = Ok Lanczos /\
  createFilterFunction DEFAULT = Err (Panic "Unresolved filter type.") /\
  forall filter,
    resolvedFilter twidth (getWidth source) filter <> DEFAULT /\
    resampleImage1D source program twidth filter left right rm
      <> Err (Panic "Unresolved filter type.").
Proof.
  split; [|split; [|split; [|split; [|split]]]]; try reflexivity.
  - unfold resampleImage1D. cbv zeta.
    change (Filter_eqb DEFAULT DEFAULT) with true. cbv iota.
    destruct (twidth >? getWidth source)%Z.
    + change (createFilterFunction MITCHELL) with (Ok Mitchell). cbn [bind].
      destruct (generateMadProgram _ _ _ _ _ _ _) as [program0|e]; cbn [bind];
        [|reflexivity].
      change (Filter_eqb MITCHELL MINIMUM) with false. cbv iota.
      destruct (rowLoop _ _ _ _ _ _ _) as [target|e]; cbn [bind]; reflexivity.
    + change (createFilterFunction LANCZOS) with (Ok Lanczos). cbn [bind].
      destruct (generateMadProgram _ _ _ _ _ _ _) as [program0|e]; cbn [bind];
        [|reflexivity].
      change (Filter_eqb LANCZOS MINIMUM) with false. cbv iota.
      destruct (rowLoop _ _ _ _ _ _ _) as [target|e]; cbn [bind]; reflexivity.
  - rewrite !resampleImage1D_unfold. cbv zeta. unfold resolvedFilter.
    destruct (twidth >? getWidth source)%Z; reflexivity.
  - intros filter. split.
    + apply resolvedFilter_not_DEFAULT.
    + intros H. apply resampleImage1D_Err in H.
      destruct H as [H|[what H]]; discriminate.
Qed.

Lemma Boundary_eqb_EXCLUDE b : Boundary_eqb b EXCLUDE = true <-> b = EXCLUDE.
Proof. destruct b; simpl; split; intros H; try discriminate; reflexivity. Qed.

(** C8. [resampleImage] aborts on its boundary-mode precondition exactly
    when one of the four edges of the sampler has a mode other than
    [EXCLUDE]; it then aborts whatever the image, the sizes and the rest of
    the sampler are, that is before any sampling. *)
Theorem boundary_modes_precondition source width height sampler :
  resampleImage source width height sampler = Err (Panic "Not yet implemented.")
  <->
  ~ (mode (east sampler) = EXCLUDE /\ mode (north sampler) = EXCLUDE /\
     mode (west sampler) = EXCLUDE /\ mode (south sampler) = EXCLUDE).
Proof.
  unfold resampleImage, ASSERT_PRECONDITION.
  destruct (Boundary_eqb (mode (east sampler)) EXCLUDE) eqn:Ee;
    [apply Boundary_eqb_EXCLUDE in Ee|];
    [destruct (Boundary_eqb (mode (north sampler)) EXCLUDE) eqn:En;
     [apply Boundary_eqb_EXCLUDE in En|]|];
    [destruct (Boundary_eqb (mode (west sampler)) EXCLUDE) eqn:Ew;
     [apply Boundary_eqb_EXCLUDE in Ew|]| |];
    [destruct (Boundary_eqb (mode (south sampler)) EXCLUDE) eqn:Es;
     [apply Boundary_eqb_EXCLUDE in Es|]| | |]; cbn [andb bind].
  - split; [|intros H; exfalso; apply H; auto].
    intros H. exfalso.
    destruct (resampleImage1D source [] width _ _ _ _) as [[image1 program1]|e] eqn:H1;
      cbn [bind] in H.
    + destruct (resampleImage1D (transpose image1) program1 height _ _ _ _)
        as [[image2 program2]|e] eqn:H2; cbn [bind] in H; [discriminate|].
      injection H as ->. apply resampleImage1D_Err in H2.
      destruct H2 as [H2|[what H2]]; discriminate.
    + injection H as ->. apply resampleImage1D_Err in H1.
      destruct H1 as [H1|[what H1]]; discriminate.
  - split; [intros _ (_ & _ & _ & H)|reflexivity].
    apply Boundary_eqb_EXCLUDE in H. congruence.
  - split; [intros _ (_ & _ & H & _)|reflexivity].
    apply Boundary_eqb_EXCLUDE in H. congruence.
  - split; [intros _ (_ & H & _)|reflexivity].
    apply Boundary_eqb_EXCLUDE in H. congruence.
  - split; [intros _ (H & _)|reflexivity].
    apply Boundary_eqb_EXCLUDE in H. congruence.
Qed.

Lemma bind_length_const {A B : Type} (f : A -> list B) (k : nat) (l : list A) :
  (forall x, length (f x) = k) -> length (l ≫= f) = (length l * k)%nat.
Proof.
  intros H. induction l as [|x l IH]; [reflexivity|].
  rewrite bind_cons, length_app, IH, H. simpl. reflexivity.
Qed.

Lemma transpose_wellFormed image :
  (0 <= getWidth image)%Z -> (0 <= getHeight image)%Z -> (0 <= getChannels image)%Z ->
  wellFormed (transpose image).
Proof.
  intros HW HH HC. unfold wellFormed, transpose. cbn [getWidth getHeight getChannels get].
  repeat split; try assumption.
  rewrite (bind_length_const _ (Z.to_nat (getHeight image) * Z.to_nat (getChannels image))).
  - rewrite length_seq. nia.
  - intros col. rewrite (bind_length_const _ (Z.to_nat (getChannels image))).
    + rewrite length_seq. reflexivity.
    + intros row. rewrite (bind_length_const _ 1%nat).
      * rewrite length_seq. lia.
      * intros ch. reflexivity.
Qed.

Lemma createFilterFunction_resolved twidth swidth filter :
  exists hfn, createFilterFunction (resolvedFilter twidth swidth filter) = Ok hfn.
Proof.
  unfold resolvedFilter. destruct filter; simpl; eauto.
  destruct (twidth >? swidth)%Z; simpl; eauto.
Qed.

Lemma resampleImage1D_passDefined source program twidth filter left right rm :
  wellFormed source ->
  passDefined (getWidth source) (getChannels source) twidth filter left right rm ->
  exists image program',
    resampleImage1D source program twidth filter left right rm = Ok (image, program') /\
    wellFormed image.
Proof.
  intros Hwf (HT & HSC & HTC & Hgen & Hnorm).
  destruct (createFilterFunction_resolved twidth (getWidth source) filter) as [hfn Hfn].
  destruct (Hgen hfn Hfn) as [program0 Hprog].
  destruct (resampleImage1D_returns source program twidth filter left right rm
              hfn program0 Hwf HT HSC HTC Hfn Hprog Hnorm) as (image & Himage & Hwf').
  eauto.
Qed.

(** C9. Whenever [resampleImage] returns an image, its width and height
    are the requested ones and its channel count is the source's; and it
    does return one when all four boundary modes are [EXCLUDE] and its two
    passes are defined. *)
Theorem resampleImage_dimensions source width height sampler :
  (forall image,
      resampleImage source width height sampler = Ok image ->
      getWidth image = width /\ getHeight image = height /\
      getChannels image = getChannels source) /\
  (wellFormed source ->
   mode (east sampler) = EXCLUDE -> mode (north sampler) = EXCLUDE ->
   mode (west sampler) = EXCLUDE -> mode (south sampler) = EXCLUDE ->
   passDefined (getWidth source) (getChannels source) width
               (horizontalFilter sampler)
               (left (sourceRegion sampler)) (right (sourceRegion sampler))
               (filterRadiusMultiplier sampler) ->
   passDefined (getHeight source) (getChannels source) height
               (verticalFilter sampler)
               (top (sourceRegion sampler)) (bottom (sourceRegion sampler))
               (filterRadiusMultiplier sampler) ->
   exists image, resampleImage source width height sampler = Ok image).
Proof.
  split.
  - unfold resampleImage. intros image H.
    apply bind_Ok in H. destruct H as (_ & _ & H).
    apply bind_Ok in H. destruct H as ([image1 program1] & H1 & H).
    apply bind_Ok in H. destruct H as ([image2 program2] & H2 & H).
    injection H as <-.
    apply resampleImage1D_dims in H1. destruct H1 as (W1 & H1' & C1).
    apply resampleImage1D_dims in H2. destruct H2 as (W2 & H2' & C2).
    simpl in *. rewrite H2', C2, W2, W1, C1. auto.
  - intros Hwf He Hn Hw Hs Hpass1 Hpass2.
    unfold resampleImage, ASSERT_PRECONDITION. rewrite He, Hn, Hw, Hs. cbn [Boundary_eqb andb bind].
    destruct (resampleImage1D_passDefined source [] width _ _ _ _ Hwf Hpass1)
      as (image1 & program1 & H1 & Hwf1).
    rewrite H1. cbn [bind].
    pose proof (resampleImage1D_dims _ _ _ _ _ _ _ _ _ H1) as (W1 & H1' & C1).
    destruct Hwf1 as (HW1 & HH1 & HC1 & _).
    destruct (resampleImage1D_passDefined (transpose image1) program1 height
                (verticalFilter sampler) (top (sourceRegion sampler))
                (bottom (sourceRegion sampler)) (filterRadiusMultiplier sampler))
      as (image2 & program2 & H2 & Hwf2).
    + apply transpose_wellFormed; assumption.
    + cbn [transpose getWidth getHeight getChannels]. rewrite H1', C1. exact Hpass2.
    + rewrite H2. cbn [bind]. eauto.
Qed.

(* =================================================================== *)
(** ** The executor on the built program *)
(* =================================================================== *)

(** C10 (amended). When the source row of [S * C] samples can be indexed
    by an [int32_t] ([S * C <= 2^31]) and the target row by a [uint32_t],
    every instruction of the program [resampleImage1D] builds has
    [0 <= sourceIndex < S * C] and [0 <= targetIndex < T * C], and the
    row loop of the executor completes: none of its reads and writes falls
    outside the buffers. *)
Theorem built_program_in_bounds source twidth filter left right rm hfn program0 :
  wellFormed source ->
  (0 <= twidth < 2 ^ 32)%Z ->
  (getWidth source * getChannels source <= 2 ^ 31)%Z ->
  (twidth * getChannels source < 2 ^ 32)%Z ->
  createFilterFunction (resolvedFilter twidth (getWidth source) filter) = Ok hfn ->
  generateMadProgram twidth (getWidth source) left right hfn rm [] = Ok program0 ->
  Forall (fun mad =>
            (0 <= sourceIndex mad < getWidth source * getChannels source)%Z /\
            (0 <= targetIndex mad < twidth * getChannels source)%Z)
         (expandMadProgram (getChannels source) program0) /\
  forall op target,
    Z.of_nat (length target) = (twidth * getHeight source * getChannels source)%Z ->
    exists target',
      rowLoop (execRow op (expandMadProgram (getChannels source) program0) (get source))
              (Z.to_nat (getHeight source))
              (wrap_uint32 (getWidth source * getChannels source))
              (wrap_uint32 (twidth * getChannels source)) 0 0 target
      = Ok target'.
Proof.
  intros (HW & HH & HC & Hlen) HT HSC HTC Hfn Hgen.
  assert (Hrow : Forall (inRow (getWidth source * getChannels source)
                               (twidth * getChannels source))
                        (expandMadProgram (getChannels source) program0)).
  { eapply built_program_inRow; eauto; lia. }
  split; [exact Hrow|].
  intros op target Htarget.
  rewrite (wrap_uint32_small (getWidth source * getChannels source)) by nia.
  rewrite (wrap_uint32_small (twidth * getChannels source)) by nia.
  assert (HHn : Z.of_nat (Z.to_nat (getHeight source)) = getHeight source) by lia.
  apply rowLoop_safe; try exact Hrow; nia.
Qed.

Lemma cellFold_instructionsOf op source sourceRow targetRow idx col program : forall b,
  Z.of_nat idx = (targetRow + col)%Z ->
  cellFold op source sourceRow targetRow idx program b =
  fold_left
    (fun b mad =>
       op mad (default F32.zero (source !! Z.to_nat (sourceRow + sourceIndex mad))) b)
    (instructionsOf col program) b.
Proof.
  unfold cellFold, instructionsOf.
  induction program as [|mad rest IH]; intros b Hidx; simpl; [reflexivity|].
  destruct (Z.eqb_spec (targetRow + targetIndex mad) (Z.of_nat idx)) as [E1|E1];
    destruct (Z.eqb_spec (targetIndex mad) col) as [E2|E2]; try lia;
    simpl; apply IH; exact Hidx.
Qed.

(** C4 (amended). Under [MINIMUM], for sizes that fit the index types,
    every sample of the returned image is the minimum, taken with
    [std::min] in program order, of [std::numeric_limits<float>::max()] (not
    of +infinity) and of the source samples that the instructions for that
    target read in the same row; the weights of the instructions play no
    part. *)
Theorem minimum_reduction source program twidth left right rm image program' :
  wellFormed source ->
  (0 <= twidth < 2 ^ 32)%Z ->
  (getWidth source * getChannels source <= 2 ^ 31)%Z ->
  (twidth * getHeight source * getChannels source < 2 ^ 32)%Z ->
  resampleImage1D source program twidth MINIMUM left right rm = Ok (image, program') ->
  forall row col : nat,
    (Z.of_nat row < getHeight source)%Z ->
    (Z.of_nat col < twidth * getChannels source)%Z ->
    get image !! (row * Z.to_nat (twidth * getChannels source) + col)%nat =
    Some (fold_left
            (fun b mad =>
               fmin (default F32.zero
                       (get source !! Z.to_nat
                          (Z.of_nat row * (getWidth source * getChannels source)
                           + sourceIndex mad)))
                    b)
            (instructionsOf (Z.of_nat col) program')
            F32.max_float).
Proof.
  intros (HW & HH & HC & Hlen) HT HSC HTHC Hrun row col Hrow Hcol.
  rewrite resampleImage1D_unfold in Hrun. cbv zeta in Hrun.
  change (resolvedFilter twidth (getWidth source) MINIMUM) with MINIMUM in Hrun.
  cbn [createFilterFunction bind Filter_eqb] in Hrun.
  apply bind_Ok in Hrun. destruct Hrun as (program0 & Hgen & Hrun).
  apply bind_Ok in Hrun. destruct Hrun as (t0 & Ht0 & Hrun).
  apply bind_Ok in Hrun. destruct Hrun as (t1 & Ht1 & Hrun).
  injection Hrun as <- <-. cbn [get withData].
  assert (HTC : (twidth * getChannels source < 2 ^ 32)%Z) by nia.
  assert (Hprog : Forall (inRow (getWidth source * getChannels source)
                                (twidth * getChannels source))
                         (expandMadProgram (getChannels source) program0)).
  { eapply (built_program_inRow _ _ _ _ _ _ MINIMUM); eauto; lia. }
  set (program' := expandMadProgram (getChannels source) program0) in *.
  rewrite (wrap_uint32_small (getWidth source * getChannels source)) in Ht1 by nia.
  rewrite (wrap_uint32_small (twidth * getChannels source)) in Ht1 by nia.
  rewrite (wrap_uint32_small (twidth * getHeight source * getChannels source))
    in Ht0 by nia.
  unfold fillMax in Ht0. cbn [get newLinearImage] in Ht0.
  rewrite length_replicate in Ht0.
  destruct (_ <=? _)%Z eqn:E in Ht0; [|apply Z.leb_gt in E; lia].
  injection Ht0 as <-.
  set (idx := (row * Z.to_nat (twidth * getChannels source) + col)%nat).
  rewrite (rowLoop_cell _ _ _ _ _ _ _ _ _ _ idx Ht1).
  assert (Hidx : Z.of_nat idx =
                 (0 + Z.of_nat row * (twidth * getChannels source) + Z.of_nat col)%Z).
  { unfold idx. nia. }
  rewrite lookup_app_l by (rewrite length_replicate; nia).
  rewrite lookup_replicate_2 by nia.
  cbn [fmap option_fmap option_map]. f_equal.
  rewrite (rowsCell_row opMin (get source) program' _ (twidth * getChannels source)%Z
             ltac:(nia)
             ltac:(eapply Forall_impl; [exact Hprog|]; intros mad [_ Hm]; exact Hm)
             idx (Z.to_nat (getHeight source)) row 0 0 F32.max_float) by lia.
  rewrite (cellFold_instructionsOf _ _ _ _ _ (Z.of_nat col)) by lia.
  replace (0 + Z.of_nat row * (getWidth source * getChannels source))%Z
    with (Z.of_nat row * (getWidth source * getChannels source))%Z by lia.
  reflexivity.
Qed.

Lemma instructionsOf_nil t program :
  instructionsOf t program = [] ->
  Forall (fun mad => targetIndex mad <> t) program.
Proof.
  unfold instructionsOf. induction program as [|mad rest IH]; simpl; intros H.
  - constructor.
  - destruct (Z.eqb_spec (targetIndex mad) t) as [E|E]; [discriminate|].
    constructor; [exact E|apply IH; exact H].
Qed.

(** A target whose scan appends nothing keeps the zero the new image was
    filled with, whatever the source holds there. *)
Lemma empty_scan_leaves_zero (n : Z) (t : nat) (x : float) :
  (0 <= n < 2 ^ 31)%Z -> (Z.of_nat t < n)%Z ->
  scanIsEmpty (scans n n F32.zero F32.one Nearest F32.one
                     (Z.to_nat n) 0 (dtarget n / F32.two)) t = true ->
  exists image program',
    resampleImage1D (constantRow n x) [] n NEAREST F32.zero F32.one F32.one
      = Ok (image, program') /\
    get (constantRow n x) !! t = Some x /\
    get image !! t = Some F32.zero.
Proof.
  intros Hn Ht Hempty. unfold scanIsEmpty in Hempty.
  destruct (scans _ _ _ _ _ _ _ _ _) as [sts|] eqn:Hscans; [|discriminate].
  destruct (sts !! t) as [st|] eqn:Hst; [|discriminate].
  destruct (result_ st) as [|mad0 rest0] eqn:Hres; [|discriminate].
  assert (Hgen : generateMadProgram n n F32.zero F32.one Nearest F32.one []
                 = Ok (concat (map blockOf sts))).
  { unfold generateMadProgram. rewrite targetLoop_scans, Hscans. reflexivity. }
  assert (Hwf : wellFormed (constantRow n x)).
  { unfold wellFormed, constantRow. cbn [getWidth getHeight getChannels get].
    rewrite length_replicate. lia. }
  assert (Hfn : createFilterFunction
                  (resolvedFilter n (getWidth (constantRow n x)) NEAREST) = Ok Nearest)
    by reflexivity.
  destruct (resampleImage1D_returns (constantRow n x) [] n NEAREST
              F32.zero F32.one F32.one Nearest (concat (map blockOf sts)))
    as (image & Himage & _); try assumption.
  { lia. }
  { cbn [constantRow getWidth getChannels]. lia. }
  { cbn [constantRow getWidth getChannels]. lia. }
  { discriminate. }
  exists image, (expandMadProgram (getChannels (constantRow n x))
                                  (concat (map blockOf sts))).
  split; [exact Himage|]. split.
  { cbn [constantRow get]. apply lookup_replicate_2. lia. }
  rewrite resampleImage1D_unfold in Himage. cbv zeta in Himage.
  rewrite Hfn in Himage. cbn [bind] in Himage.
  cbn [constantRow getWidth getHeight getChannels get] in Himage.
  rewrite Hgen in Himage. cbn [bind] in Himage.
  change (Filter_eqb (resolvedFilter n n NEAREST) MINIMUM) with false in Himage.
  change (Filter_eqb (resolvedFilter n n NEAREST) GAUSSIAN_NORMALS) with false in Himage.
  cbv iota in Himage.
  apply bind_Ok in Himage. destruct Himage as (t1 & Ht1 & Himage).
  cbn [bind] in Himage. injection Himage as <-. cbn [get withData].
  rewrite (rowLoop_cell _ _ _ _ _ _ _ _ _ _ t Ht1).
  cbn [get newLinearImage]. rewrite lookup_replicate_2 by lia.
  cbn [fmap option_fmap option_map]. f_equal.
  change (Z.to_nat 1) with 1%nat. cbn [rowsCell].
  apply cellFold_untouched.
  unfold expandMadProgram. cbn [Z.eqb Pos.eqb].
  pose proof (generateMadProgram_blocks n n F32.zero F32.one Nearest F32.one
                _ ltac:(lia) Hgen) as (sts' & Hscans' & _ & _ & _ & Hinstr).
  rewrite Hscans in Hscans'. injection Hscans' as <-.
  specialize (Hinstr t). rewrite Hst in Hinstr.
  assert (Hblock : blockOf st = []) by (apply blockOf_nil; exact Hres).
  rewrite Hblock in Hinstr. apply instructionsOf_nil in Hinstr.
  eapply Forall_impl; [exact Hinstr|]. simpl. intros mad Hm. lia.
Qed.

(** C6, evaluated on the code: resampling a row of 5859 samples, all equal
    to 1, to 5859 targets with the Nearest filter over the whole row
    returns a row whose sample 5851 is 0. The running centre [xtarget],
    advanced 5851 times by [dtarget] in binary32, has drifted by half a
    pixel; the only candidate of the scan is then at a distance slightly
    above 0.5 and the target receives no instruction. *)
Theorem nearest_identity_fails :
  exists image program',
    resampleImage1D (constantRow 5859 F32.one) [] 5859 NEAREST
                    F32.zero F32.one F32.one = Ok (image, program') /\
    get (constantRow 5859 F32.one) !! Z.to_nat 5851 = Some F32.one /\
    get image !! Z.to_nat 5851 = Some F32.zero.
Proof.
  apply empty_scan_leaves_zero; [lia|lia|].
  vm_compute. reflexivity.
Qed.

(* =================================================================== *)
(** ** The generator: claims on the generated program *)
(* =================================================================== *)

Lemma div_eucl_mul (a b : Z) : (0 < b)%Z -> Z.div_eucl (a * b) b = (a, 0%Z).
Proof.
  intros Hb. pose proof (Z.div_mul a b ltac:(lia)) as Hd.
  pose proof (Z.mod_mul a b ltac:(lia)) as Hm.
  unfold Z.div, Z.modulo in *. destruct (Z.div_eucl (a * b) b) as [q r].
  simpl in *. congruence.
Qed.

(** A finite non-zero binary32 number divided by itself is exactly 1. *)
Lemma div_self s m e :
  S754_finite s m e / S754_finite s m e = F32.one.
Proof.
  change F32.one with (S754_finite false 8388608 (-23)).
  unfold F32.div, SFdiv, SFdiv_core_binary.
  replace (Zdigits2 (Z.pos m) + e - (Zdigits2 (Z.pos m) + e))%Z with 0%Z by lia.
  replace (e - e)%Z with 0%Z by lia.
  change (Z.min (fexp F32.prec F32.emax 0) 0) with (-24)%Z.
  change (0 - -24)%Z with 24%Z.
  rewrite Z.shiftl_mul_pow2 by lia.
  rewrite (Z.mul_comm (Z.pos m)).
  change (IntDef.Z.div_eucl (2 ^ 24 * Z.pos m) (Z.pos m))
    with (Z.div_eucl (2 ^ 24 * Z.pos m) (Z.pos m)).
  rewrite div_eucl_mul by lia.
  replace (xorb s s) with false by (destruct s; reflexivity).
  unfold new_location. destruct (Z.even (Z.pos m)); reflexivity.
Qed.

Section GeneratedProgram.

Variables (ntarget nsource : Z) (left right : float)
          (filter : FilterFn) (radiusMultiplier : float).
Variable program : MadProgram.

Hypothesis Hntarget : (0 <= ntarget < 2 ^ 32)%Z.
Hypothesis Hgenerated :
  generateMadProgram ntarget nsource left right filter radiusMultiplier []
  = Ok program.

Let scan := scanOf ntarget nsource left right filter radiusMultiplier.

(** Every target below [ntarget] has a finished scan, whose block is
    what the program holds for the target. *)
Lemma target_scan (t : nat) :
  (Z.of_nat t < ntarget)%Z ->
  exists st,
    scan (Z.of_nat t) (xtargetAt ntarget t) = Ok st /\
    instructionsOf (Z.of_nat t) program = blockOf st.
Proof.
  intros Ht.
  assert (Hrange : (0 <= ntarget <= 2 ^ 32)%Z) by lia.
  destruct (generateMadProgram_blocks _ _ _ _ _ _ _ Hrange Hgenerated)
    as (sts & _ & _ & Hlen & Hscan & Hinstr).
  destruct (lookup_lt_is_Some_2 sts t) as [st Hst]; [lia|].
  exists st. split; [apply Hscan; exact Hst|].
  rewrite Hinstr, Hst. reflexivity.
Qed.

Lemma target_present (t : nat) :
  instructionsOf (Z.of_nat t) program <> [] -> (Z.of_nat t < ntarget)%Z.
Proof.
  intros Hne.
  assert (Hrange : (0 <= ntarget <= 2 ^ 32)%Z) by lia.
  destruct (generateMadProgram_blocks _ _ _ _ _ _ _ Hrange Hgenerated)
    as (sts & _ & _ & Hlen & _ & Hinstr).
  rewrite Hinstr in Hne.
  destruct (sts !! t) as [st|] eqn:Hst; [|congruence].
  apply lookup_lt_Some in Hst. lia.
Qed.

(** C1 (amended). For every target index that has at least one
    instruction in a generated program, the weights of its instructions
    are the kernel weights gathered by the scan of that target, each
    divided in binary32 by their accumulated binary32 sum when that sum
    is not zero, and left as they are when it is zero. In particular a
    target with a single instruction, of finite kernel weight, has the
    weight 1 exactly; and when the kernel weights gathered are positive
    finite numbers and at most 64, the exact sum of the target's weights
    is 1 within 1e-5 (or 0, when the binary32 sum overflowed). *)
Theorem weights_renormalized (t : nat) :
  instructionsOf (Z.of_nat t) program <> [] ->
  exists st,
    scanOf ntarget nsource left right filter radiusMultiplier
           (Z.of_nat t) (xtargetAt ntarget t) = Ok st /\
    sum st = fold_left F32.add (map weight (result_ st)) F32.zero /\
    instructionsOf (Z.of_nat t) program =
      (if sum st !=? F32.zero
       then map (fun mad => {| targetIndex := targetIndex mad;
                               sourceIndex := sourceIndex mad;
                               weight := weight mad / sum st |})
                (result_ st)
       else result_ st) /\
    (forall mad,
        result_ st = [mad] -> F32.is_finite (weight mad) = true ->
        instructionsOf (Z.of_nat t) program =
          [ {| targetIndex := targetIndex mad;
               sourceIndex := sourceIndex mad;
               weight := F32.one |} ]) /\
    (Forall (fun mad => positiveFinite (weight mad) = true) (result_ st) ->
     (length (result_ st) <= 64)%nat ->
     zeroOrOne (weightSum (Z.of_nat t) program) = true).
Proof.
  intros Hne. destruct (target_scan t (target_present t Hne)) as (st & Hst & Hinstr).
  exists st. split; [exact Hst|].
  destruct (scanOf_inv _ _ _ _ _ _ _ _ _ Hst) as (lo & hi & _ & _ & Hinv).
  pose proof (inv_sum _ _ _ _ _ _ Hinv) as Hsum.
  split; [exact Hsum|].
  split; [rewrite Hinstr; reflexivity|].
  split.
  - intros mad Hres Hfin.
    pose proof (inv_appended _ _ _ _ _ _ Hinv) as Happ.
    rewrite Hres in Happ, Hsum. simpl in Hsum.
    inversion Happ as [|? ? [(_ & _ & Hnz & _) _] _]; subst.
    rewrite Hinstr. unfold blockOf. rewrite Hres.
    destruct (weight mad) as [s|s| |s m e] eqn:Hw; try discriminate.
    change (F32.zero + S754_finite s m e) with (S754_finite s m e) in Hsum.
    rewrite Hsum, Hnz. simpl. unfold divWeight. rewrite Hw, div_self. reflexivity.
  - intros Hpos Hlen.
    assert (Hres : result_ st <> []).
    { intros E. apply Hne. rewrite Hinstr. unfold blockOf. rewrite E.
      destruct (sum st !=? F32.zero); reflexivity. }
    destruct (normalized_zeroOrOne (result_ st) Hres Hlen Hpos) as [Hnz Hz].
    unfold weightSum. rewrite Hinstr. unfold blockOf. rewrite Hsum, Hnz. exact Hz.
Qed.

Lemma int32_of_float_trunc x z : int32_of_float x = Ok z -> F32.trunc x = Some z.
Proof.
  unfold int32_of_float. destruct (F32.trunc x) as [y|]; [|discriminate].
  destruct (_ && _); [|discriminate]. intros [= <-]. reflexivity.
Qed.

(** C3 (amended). For each target index [t], with [xtarget] the running
    centre ([dtarget / 2] advanced [t] times by [dtarget] in binary32)
    and [filterBounds = domainScale * |boundingRadius|], the scan runs
    the loop body once for each integer of the closed interval from the
    truncation toward zero of [(xtarget - filterBounds) * S] to the
    ceiling of [(xtarget + filterBounds) * S], in ascending order, and
    for no other index. *)
Theorem candidates_scanned (t : nat) :
  (Z.of_nat t < ntarget)%Z ->
  let xtarget := xtargetAt ntarget t in
  let bounds := filterBounds ntarget nsource left right filter radiusMultiplier in
  exists lo hi candidates,
    bounds = domainScale ntarget nsource left right radiusMultiplier
             * F32.abs (boundingRadius filter) /\
    F32.trunc ((xtarget - bounds) * F32.of_Z nsource) = Some lo /\
    F32.trunc (F32.ceilf ((xtarget + bounds) * F32.of_Z nsource)) = Some hi /\
    candidates = Zseq lo (Z.to_nat (hi - lo + 1)) /\
    (forall i, In i candidates <-> (lo <= i <= hi)%Z) /\
    instructionsOf (Z.of_nat t) program =
      blockOf (fold_left
                 (fun st i =>
                    scanBody ntarget nsource left right filter radiusMultiplier
                             (Z.of_nat t) xtarget i st)
                 candidates
                 {| result_ := []; count := 0; sum := F32.zero |}).
Proof.
  intros Ht xtarget bounds.
  destruct (target_scan t Ht) as (st & Hst & Hinstr).
  unfold scan, scanOf in Hst.
  apply bind_Ok in Hst. destruct Hst as (lo & Hlo & Hst).
  apply bind_Ok in Hst. destruct Hst as (hi & Hhi & Hst).
  exists lo, hi, (Zseq lo (Z.to_nat (hi - lo + 1))).
  split; [reflexivity|].
  split; [apply int32_of_float_trunc; exact Hlo|].
  split; [apply int32_of_float_trunc; exact Hhi|].
  split; [reflexivity|]. split.
  - intros i. rewrite Zseq_In. lia.
  - apply scanLoop_fold in Hst. rewrite Hinstr, Hst. reflexivity.
Qed.

(** C5 (amended). A target whose scan appends no instruction has the
    accumulated sum 0 and no instruction in the program; and whenever the
    accumulated sum of a target is 0, the program holds for it exactly
    the instructions its scan appended, with their kernel weights
    unchanged. *)
Theorem zero_sum_keeps_instructions (t : nat) :
  (Z.of_nat t < ntarget)%Z ->
  exists st,
    scanOf ntarget nsource left right filter radiusMultiplier
           (Z.of_nat t) (xtargetAt ntarget t) = Ok st /\
    count st = Z.of_nat (length (result_ st)) /\
    (count st = 0%Z ->
     sum st = F32.zero /\ instructionsOf (Z.of_nat t) program = []) /\
    ((sum st !=? F32.zero) = false ->
     instructionsOf (Z.of_nat t) program = result_ st).
Proof.
  intros Ht. destruct (target_scan t Ht) as (st & Hst & Hinstr).
  exists st. split; [exact Hst|].
  destruct (scanOf_inv _ _ _ _ _ _ _ _ _ Hst) as (lo & hi & _ & _ & Hinv).
  pose proof (inv_count _ _ _ _ _ _ Hinv) as Hcount.
  pose proof (inv_sum _ _ _ _ _ _ Hinv) as Hsum.
  split; [exact Hcount|]. split.
  - intros H0. rewrite Hcount in H0.
    destruct (result_ st) as [|mad rest] eqn:Hres; [|simpl in H0; lia].
    split; [exact Hsum|].
    rewrite Hinstr. apply blockOf_nil. exact Hres.
  - intros H0. rewrite Hinstr. unfold blockOf. rewrite H0. reflexivity.
Qed.

End GeneratedProgram.

(* =================================================================== *)
(** ** Further properties of the generator, the expander and the drivers *)
(* =================================================================== *)

(** *** The channel expander *)

Lemma wrap_uint32_succ (z : Z) :
  wrap_uint32 (wrap_uint32 z + 1) = wrap_uint32 (z + 1).
Proof. unfold wrap_uint32. apply Zplus_mod_idemp_l. Qed.

Lemma wrap_int32_succ (z : Z) :
  wrap_int32 (wrap_int32 z + 1) = wrap_int32 (z + 1).
Proof.
  unfold wrap_int32. f_equal.
  replace ((z + 2 ^ 31) mod 2 ^ 32 - 2 ^ 31 + 1 + 2 ^ 31)%Z
    with ((z + 2 ^ 31) mod 2 ^ 32 + 1)%Z by lia.
  rewrite Zplus_mod_idemp_l. f_equal. lia.
Qed.

(** The loop over the channels appends one copy per channel. *)
Lemma channelLoop_copies (w : float) (tb sb : Z) n : forall (k : nat) acc,
  channelLoop n {| targetIndex := wrap_uint32 (tb + Z.of_nat k);
                   sourceIndex := wrap_int32 (sb + Z.of_nat k);
                   weight := w |} acc =
  acc ++ map (fun j => {| targetIndex := wrap_uint32 (tb + Z.of_nat j);
                          sourceIndex := wrap_int32 (sb + Z.of_nat j);
                          weight := w |})
             (seq k n).
Proof.
  induction n as [|n IH]; intros k acc; cbn [channelLoop seq map].
  - rewrite app_nil_r. reflexivity.
  - cbn [targetIndex sourceIndex weight].
    rewrite wrap_uint32_succ, wrap_int32_succ.
    replace (tb + Z.of_nat k + 1)%Z with (tb + Z.of_nat (S k))%Z by lia.
    replace (sb + Z.of_nat k + 1)%Z with (sb + Z.of_nat (S k))%Z by lia.
    rewrite IH, <- app_assoc. reflexivity.
Qed.

Lemma expandMadProgram_copies (nchannels : Z) (program : MadProgram) :
  nchannels <> 1%Z ->
  expandMadProgram nchannels program = concat (map (channelCopies nchannels) program).
Proof.
  intros Hne. unfold expandMadProgram.
  destruct (Z.eqb_spec nchannels 1) as [E|_]; [contradiction|].
  assert (Hgen : forall acc,
            fold_left
              (fun acc mad =>
                 channelLoop (Z.to_nat nchannels)
                   {| targetIndex := wrap_uint32 (targetIndex mad * nchannels);
                      sourceIndex := wrap_int32 (sourceIndex mad * nchannels);
                      weight := weight mad |} acc)
              program acc
            = acc ++ concat (map (channelCopies nchannels) program)).
  { induction program as [|mad rest IH]; intros acc; cbn [fold_left map concat].
    - rewrite app_nil_r. reflexivity.
    - rewrite IH.
      pose proof (channelLoop_copies (weight mad) (targetIndex mad * nchannels)
                    (sourceIndex mad * nchannels) (Z.to_nat nchannels) 0 acc) as Hc.
      cbn [Z.of_nat] in Hc. rewrite !Z.add_0_r in Hc. rewrite Hc.
      rewrite <- app_assoc. reflexivity. }
  apply (Hgen []).
Qed.

Lemma instructionsOf_seq (f : nat -> MadInstruction) (base x : Z) n : forall k,
  (forall i, targetIndex (f i) = base + Z.of_nat i)%Z ->
  instructionsOf x (map f (seq k n)) =
  if ((base + Z.of_nat k <=? x) && (x <? base + Z.of_nat k + Z.of_nat n))%Z
  then [f (Z.to_nat (x - base))] else [].
Proof.
  induction n as [|n IH]; intros k Hf; cbn [seq map].
  - destruct (Z.leb_spec (base + Z.of_nat k) x); destruct (Z.ltb_spec x (base + Z.of_nat k + Z.of_nat 0));
      cbn [andb]; try reflexivity. lia.
  - unfold instructionsOf in *. cbn [List.filter]. rewrite Hf, (IH (S k) Hf).
    destruct (Z.eqb_spec (base + Z.of_nat k) x) as [E|E].
    + subst x.
      destruct (Z.leb_spec (base + Z.of_nat (S k)) (base + Z.of_nat k)); [lia|].
      cbn [andb].
      destruct (Z.leb_spec (base + Z.of_nat k) (base + Z.of_nat k)); [|lia].
      destruct (Z.ltb_spec (base + Z.of_nat k) (base + Z.of_nat k + Z.of_nat (S n))); [|lia].
      cbn [andb]. do 2 f_equal. lia.
    + destruct (Z.leb_spec (base + Z.of_nat (S k)) x);
        destruct (Z.ltb_spec x (base + Z.of_nat (S k) + Z.of_nat n));
        destruct (Z.leb_spec (base + Z.of_nat k) x);
        destruct (Z.ltb_spec x (base + Z.of_nat k + Z.of_nat (S n)));
        cbn [andb]; try reflexivity; lia.
Qed.

(** Inside the rows the copies are not wrapped. *)
Lemma channelCopies_inRow (nsource ntarget nchannels : Z) (mad : MadInstruction) :
  inRow nsource ntarget mad ->
  (nsource * nchannels <= 2 ^ 31)%Z -> (ntarget * nchannels <= 2 ^ 32)%Z ->
  channelCopies nchannels mad =
  map (fun j => {| targetIndex := (targetIndex mad * nchannels + Z.of_nat j)%Z;
                   sourceIndex := (sourceIndex mad * nchannels + Z.of_nat j)%Z;
                   weight := weight mad |})
      (seq 0 (Z.to_nat nchannels)).
Proof.
  intros [Hs Ht] HS HT. unfold channelCopies. apply map_ext_in.
  intros i Hi. apply in_seq in Hi.
  rewrite wrap_uint32_small by nia. rewrite wrap_int32_small by nia. reflexivity.
Qed.

(** X1. Channel [j] of target pixel [t] is computed from channel [j] of the
    source pixels that a one-channel program reads for target [t], with the
    same weights and in the same order. *)
Theorem expanded_channel_instructions
        (nsource ntarget nchannels : Z) (program : MadProgram) (t j : Z) :
  Forall (inRow nsource ntarget) program ->
  (nsource * nchannels <= 2 ^ 31)%Z -> (ntarget * nchannels <= 2 ^ 32)%Z ->
  (0 <= j < nchannels)%Z ->
  instructionsOf (t * nchannels + j) (expandMadProgram nchannels program) =
  map (fun mad => {| targetIndex := (t * nchannels + j)%Z;
                     sourceIndex := (sourceIndex mad * nchannels + j)%Z;
                     weight := weight mad |})
      (instructionsOf t program).
Proof.
  intros Hrow HS HT Hj.
  destruct (Z.eq_dec nchannels 1) as [->|Hne].
  { assert (j = 0%Z) by lia. subst j. unfold expandMadProgram. cbn [Z.eqb Pos.eqb].
    rewrite Z.mul_1_r, Z.add_0_r. clear.
    unfold instructionsOf.
    induction program as [|mad rest IH]; cbn [List.filter map]; [reflexivity|].
    destruct (Z.eqb_spec (targetIndex mad) t) as [E|E]; [|exact IH].
    cbn [map]. rewrite <- IH. f_equal. destruct mad as [tt ss ww]. cbn in *. subst tt.
    f_equal. lia. }
  rewrite expandMadProgram_copies by exact Hne.
  induction Hrow as [|mad rest Hmad _ IH]; cbn [map concat].
  - reflexivity.
  - rewrite instructionsOf_app, IH. clear IH.
    rewrite (channelCopies_inRow _ _ _ _ Hmad HS HT).
    rewrite (instructionsOf_seq _ (targetIndex mad * nchannels) (t * nchannels + j)).
    2:{ intros i. reflexivity. }
    destruct Hmad as [Hs Ht].
    unfold instructionsOf at 2. cbn [List.filter].
    destruct (Z.eqb_spec (targetIndex mad) t) as [E|E].
    + subst t.
      destruct (Z.leb_spec (targetIndex mad * nchannels + Z.of_nat 0)
                           (targetIndex mad * nchannels + j)); [|lia].
      destruct (Z.ltb_spec (targetIndex mad * nchannels + j)
                  (targetIndex mad * nchannels + Z.of_nat 0 + Z.of_nat (Z.to_nat nchannels)));
        [|lia].
      cbn [andb map app]. fold (instructionsOf (targetIndex mad) rest).
      f_equal. f_equal; lia.
    + fold (instructionsOf t rest).
      destruct (Z.leb_spec (targetIndex mad * nchannels + Z.of_nat 0)
                           (t * nchannels + j));
        destruct (Z.ltb_spec (t * nchannels + j)
                    (targetIndex mad * nchannels + Z.of_nat 0 + Z.of_nat (Z.to_nat nchannels)));
        cbn [andb app]; try reflexivity.
      exfalso. apply E. nia.
Qed.

Lemma lookup_concat_uniform {A B : Type} (f : A -> list B) (n : nat) (l : list A) :
  (forall x, length (f x) = n) ->
  forall (i j : nat) (x : A),
    l !! i = Some x -> (j < n)%nat ->
    concat (map f l) !! (i * n + j)%nat = f x !! j.
Proof.
  intros Hlen. induction l as [|y l IH]; intros i j x Hi Hj; [discriminate|].
  cbn [map concat]. destruct i as [|i].
  - injection Hi as <-. cbn [Nat.mul Nat.add].
    apply lookup_app_l. rewrite Hlen. exact Hj.
  - cbn [lookup list_lookup] in Hi.
    rewrite lookup_app_r by (rewrite Hlen; lia).
    rewrite Hlen. replace (S i * n + j - n)%nat with (i * n + j)%nat by lia.
    apply IH; assumption.
Qed.

(** X2. For a channel count other than 1, [expandMadProgram] replaces
    each instruction, in place and in order, by one copy per channel:
    the copy of instruction [i] for channel [j] is at position
    [i * nchannels + j], with both indices multiplied by the channel count
    and advanced by [j], on 32 bits, and the same weight; the program is
    [nchannels] times as long. *)
Theorem expandMadProgram_layout (nchannels : Z) (program : MadProgram)
        (i j : nat) (mad : MadInstruction) :
  nchannels <> 1%Z ->
  program !! i = Some mad ->
  (j < Z.to_nat nchannels)%nat ->
  length (expandMadProgram nchannels program) = (Z.to_nat nchannels * length program)%nat /\
  expandMadProgram nchannels program !! (i * Z.to_nat nchannels + j)%nat =
    Some {| targetIndex := wrap_uint32 (targetIndex mad * nchannels + Z.of_nat j);
            sourceIndex := wrap_int32 (sourceIndex mad * nchannels + Z.of_nat j);
            weight := weight mad |}.
Proof.
  intros Hne Hi Hj. rewrite expandMadProgram_copies by exact Hne. split.
  - clear Hi. induction program as [|m rest IH]; cbn [map concat length]; [lia|].
    rewrite length_app, IH. unfold channelCopies.
    rewrite length_map, length_seq. lia.
  - rewrite (lookup_concat_uniform (channelCopies nchannels) (Z.to_nat nchannels)
               program) with (x := mad); try assumption.
    + unfold channelCopies. rewrite list_lookup_fmap.
      rewrite lookup_seq_lt by exact Hj. reflexivity.
    + intros x. unfold channelCopies. rewrite length_map, length_seq. reflexivity.
Qed.

(** *** The generator *)

Section GeneratorOrder.

Variables (ntarget nsource : Z) (left right : float)
          (filter : FilterFn) (radiusMultiplier : float).

Let body := scanBody ntarget nsource left right filter radiusMultiplier.

(** One run of the loop body leaves the state as it is or appends one
    instruction, for the index it visits. *)
Lemma scanBody_cases itarget xtarget isource st :
  body itarget xtarget isource st = st \/
  exists w,
    body itarget xtarget isource st =
      {| result_ := result_ st ++ [ {| targetIndex := itarget;
                                       sourceIndex := isource;
                                       weight := w |} ];
         count := wrap_uint32 (count st + 1);
         sum := sum st + w |} /\
    (rejectExternalSamples filter = true ->
     outside_image nsource isource = false /\
     outside_range (xsource_of nsource left right isource) = false).
Proof.
  unfold body, scanBody.
  destruct (rejectExternalSamples filter) eqn:Hr; cbn [andb].
  - destruct (outside_image nsource isource) eqn:Hi; cbn [orb]; [left; reflexivity|].
    destruct (outside_range _) eqn:Ho; [left; reflexivity|].
    destruct (F32.ne _ _); [|left; reflexivity].
    right. eexists. split; [reflexivity|]. intros _. split; reflexivity.
  - destruct (F32.ne _ _); [|left; reflexivity].
    right. eexists. split; [reflexivity|]. discriminate.
Qed.

(** The instructions a scan appends: in ascending order of their source
    index, all for the target of the scan, and none for a sample the
    kernel rejects. *)
Lemma scan_fold_sorted itarget xtarget n : forall isource st,
  StronglySorted (fun a b => (sourceIndex a < sourceIndex b)%Z) (result_ st) ->
  Forall (fun mad =>
            targetIndex mad = itarget /\ (sourceIndex mad < isource)%Z /\
            (rejectExternalSamples filter = true ->
             outside_image nsource (sourceIndex mad) = false /\
             outside_range (xsource_of nsource left right (sourceIndex mad)) = false))
         (result_ st) ->
  let st' := fold_left (fun s i => body itarget xtarget i s) (Zseq isource n) st in
  StronglySorted (fun a b => (sourceIndex a < sourceIndex b)%Z) (result_ st') /\
  Forall (fun mad =>
            targetIndex mad = itarget /\ (sourceIndex mad < isource + Z.of_nat n)%Z /\
            (rejectExternalSamples filter = true ->
             outside_image nsource (sourceIndex mad) = false /\
             outside_range (xsource_of nsource left right (sourceIndex mad)) = false))
         (result_ st').
Proof.
  induction n as [|n IH]; intros isource st Hsorted Hall; cbn zeta.
  - cbn [Zseq seq map fold_left]. split; [exact Hsorted|].
    eapply Forall_impl; [exact Hall|]. cbn beta. intros mad (Ht & Hs & Hr).
    split; [exact Ht|]. split; [lia|exact Hr].
  - rewrite Zseq_S. cbn [fold_left].
    replace (isource + Z.of_nat (S n))%Z with (isource + 1 + Z.of_nat n)%Z by lia.
    apply IH.
    + destruct (scanBody_cases itarget xtarget isource st) as [->|(w & -> & _)];
        [exact Hsorted|]. cbn [result_].
      apply StronglySorted_app_2; [|exact Hsorted|repeat constructor].
      intros a b Ha Hb. apply list_elem_of_singleton in Hb. subst b. cbn [sourceIndex].
      rewrite Forall_forall in Hall. destruct (Hall a Ha) as (_ & Hlt & _). exact Hlt.
    + destruct (scanBody_cases itarget xtarget isource st) as [->|(w & -> & Hin)].
      * eapply Forall_impl; [exact Hall|]. cbn beta. intros mad (Ht & Hs & Hr).
        split; [exact Ht|]. split; [lia|exact Hr].
      * cbn [result_]. apply Forall_app. split.
        -- eapply Forall_impl; [exact Hall|]. cbn beta. intros mad (Ht & Hs & Hr).
           split; [exact Ht|]. split; [lia|exact Hr].
        -- constructor; [|constructor]. cbn [targetIndex sourceIndex].
           split; [reflexivity|]. split; [lia|exact Hin].
Qed.

(** Every weight a scan gathers is a value of the kernel, and not zero. *)
Lemma scan_fold_weights itarget xtarget (cands : list Z) : forall st,
  Forall (fun mad => (weight mad !=? F32.zero) = true /\
                     exists d, weight mad = fn filter d) (result_ st) ->
  Forall (fun mad => (weight mad !=? F32.zero) = true /\
                     exists d, weight mad = fn filter d)
         (result_ (fold_left (fun s i => body itarget xtarget i s) cands st)).
Proof.
  induction cands as [|i cands IH]; intros st Hall; cbn [fold_left]; [exact Hall|].
  apply IH. unfold body, scanBody.
  destruct (rejectExternalSamples filter && _); [exact Hall|].
  destruct (F32.ne _ _) eqn:Hw; [|exact Hall].
  cbn [result_]. apply Forall_app. split; [exact Hall|].
  constructor; [|constructor]. cbn [weight]. split; [exact Hw|]. eexists. reflexivity.
Qed.

Lemma scanOf_weights itarget xtarget st :
  scanOf ntarget nsource left right filter radiusMultiplier itarget xtarget = Ok st ->
  Forall (fun mad => (weight mad !=? F32.zero) = true /\
                     exists d, weight mad = fn filter d) (result_ st).
Proof.
  unfold scanOf. intros H.
  apply bind_Ok in H. destruct H as (lo & _ & H).
  apply bind_Ok in H. destruct H as (hi & _ & H).
  apply scanLoop_fold in H. rewrite H. apply scan_fold_weights. constructor.
Qed.

Lemma blockOf_sorted st :
  StronglySorted (fun a b => (sourceIndex a < sourceIndex b)%Z) (result_ st) ->
  StronglySorted (fun a b => (sourceIndex a < sourceIndex b)%Z) (blockOf st).
Proof.
  intros H. unfold blockOf. destruct (F32.ne _ _); [|exact H].
  induction H as [|a l Hl IH Ha]; cbn [map]; constructor; [exact IH|].
  apply Forall_map. eapply Forall_impl; [exact Ha|]. intros b Hb. exact Hb.
Qed.

(** The facts of [scan_fold_sorted] for the block of a finished scan. *)
Lemma scanOf_block_sorted itarget xtarget st :
  scanOf ntarget nsource left right filter radiusMultiplier itarget xtarget = Ok st ->
  StronglySorted (fun a b => (sourceIndex a < sourceIndex b)%Z) (blockOf st) /\
  Forall (fun mad =>
            targetIndex mad = itarget /\
            (rejectExternalSamples filter = true ->
             outside_image nsource (sourceIndex mad) = false /\
             outside_range (xsource_of nsource left right (sourceIndex mad)) = false))
         (blockOf st).
Proof.
  unfold scanOf. intros H.
  apply bind_Ok in H. destruct H as (lo & _ & H).
  apply bind_Ok in H. destruct H as (hi & _ & H).
  apply scanLoop_fold in H.
  destruct (scan_fold_sorted itarget xtarget (Z.to_nat (hi - lo + 1)) lo
              {| result_ := []; count := 0; sum := F32.zero |})
    as [Hsorted Hall]; [constructor|constructor|].
  cbn zeta in Hsorted, Hall. fold body in H. rewrite <- H in Hsorted, Hall.
  split; [apply blockOf_sorted; exact Hsorted|].
  apply (blockOf_indices
           (fun t s => t = itarget /\
                       (rejectExternalSamples filter = true ->
                        outside_image nsource s = false /\
                        outside_range (xsource_of nsource left right s) = false))).
  eapply Forall_impl; [exact Hall|]. cbn beta. intros mad (Ht & _ & Hr). split; assumption.
Qed.

Lemma blocks_sorted sts : forall base : Z,
  (forall k st, sts !! k = Some st ->
     StronglySorted (fun a b => (sourceIndex a < sourceIndex b)%Z) (blockOf st) /\
     Forall (fun mad => targetIndex mad = base + Z.of_nat k)%Z (blockOf st)) ->
  StronglySorted madBefore (concat (map blockOf sts)).
Proof.
  induction sts as [|st0 sts IH]; intros base H; cbn [map concat]; [constructor|].
  assert (Htail : forall k st, sts !! k = Some st ->
            StronglySorted (fun a b => (sourceIndex a < sourceIndex b)%Z) (blockOf st) /\
            Forall (fun mad => targetIndex mad = (base + 1) + Z.of_nat k)%Z (blockOf st)).
  { intros k st Hk. destruct (H (S k) st Hk) as [H1 H2]. split; [exact H1|].
    eapply Forall_impl; [exact H2|]. cbn beta. intros mad Hm. lia. }
  destruct (H O st0 eq_refl) as [Hs0 Ht0].
  apply StronglySorted_app_2.
  - intros a b Ha Hb. left.
    rewrite Forall_forall in Ht0. rewrite (Ht0 a Ha).
    assert (Hrest : Forall (fun mad => base + 1 <= targetIndex mad)%Z
                           (concat (map blockOf sts))).
    { apply Forall_concat. apply Forall_map. apply Forall_lookup_2.
      intros k st Hk. destruct (Htail k st Hk) as [_ Hk2].
      eapply Forall_impl; [exact Hk2|]. cbn beta. intros mad Hm. lia. }
    rewrite Forall_forall in Hrest. specialize (Hrest b Hb). lia.
  - clear -Hs0 Ht0. induction Hs0 as [|a l Hl IHl Ha]; constructor.
    + apply IHl. inversion Ht0; assumption.
    + inversion Ht0 as [|? ? Hta Htl]; subst.
      rewrite Forall_forall in Ha, Htl |- *. intros b Hb. right.
      split; [rewrite Hta, (Htl b Hb); reflexivity|exact (Ha b Hb)].
  - apply (IH (base + 1)%Z). exact Htail.
Qed.

End GeneratorOrder.

Lemma madBefore_NoDup (program : MadProgram) :
  StronglySorted madBefore program ->
  NoDup (map (fun mad => (targetIndex mad, sourceIndex mad)) program).
Proof.
  induction 1 as [|a l Hl IH Ha]; cbn [map]; [constructor|].
  constructor; [|exact IH].
  intros Hin. apply list_elem_of_fmap in Hin. destruct Hin as (b & Heq & Hb).
  rewrite Forall_forall in Ha. specialize (Ha b Hb).
  injection Heq as Et Es. unfold madBefore in Ha. lia.
Qed.

(** X3. [generateMadProgram] appends to the vector it is given: what was
    there stays in front, unread and unchanged, followed by the program
    generated on an empty vector. *)
Theorem generateMadProgram_appends ntarget nsource left right filter radiusMultiplier
        (program : MadProgram) :
  generateMadProgram ntarget nsource left right filter radiusMultiplier program =
  let* generated := generateMadProgram ntarget nsource left right filter
                      radiusMultiplier [] in
  Ok (program ++ generated).
Proof.
  unfold generateMadProgram. rewrite !targetLoop_scans.
  destruct (scans _ _ _ _ _ _ _ _ _) as [sts|e]; reflexivity.
Qed.

(** X4. The instructions of a generated program are in ascending order of
    their target index and, for one target, in strictly ascending order of
    their source index; no pair of a target and a source occurs twice. *)
Theorem generated_program_sorted ntarget nsource left right filter radiusMultiplier
        (program : MadProgram) :
  (0 <= ntarget <= 2 ^ 32)%Z ->
  generateMadProgram ntarget nsource left right filter radiusMultiplier [] = Ok program ->
  StronglySorted madBefore program /\
  NoDup (map (fun mad => (targetIndex mad, sourceIndex mad)) program).
Proof.
  intros Hn Hgen.
  destruct (generateMadProgram_blocks _ _ _ _ _ _ _ Hn Hgen)
    as (sts & _ & -> & _ & Hscan & _).
  assert (Hsorted : StronglySorted madBefore (concat (map blockOf sts))).
  { apply (blocks_sorted sts 0%Z). intros k st Hk.
    destruct (scanOf_block_sorted _ _ _ _ _ _ _ _ _ (Hscan k st Hk)) as [H1 H2].
    split; [exact H1|].
    eapply Forall_impl; [exact H2|]. cbn beta. intros mad [Hm _]. lia. }
  split; [exact Hsorted|apply madBefore_NoDup; exact Hsorted].
Qed.

(** X5. With a kernel that rejects external samples, no instruction of a
    generated program reads a sample outside the image or outside the
    requested range: for each one [outside_image] and [outside_range], as
    the scan computes them, are false. *)
Theorem rejected_samples_never_contribute
        ntarget nsource left right filter radiusMultiplier (program : MadProgram) :
  rejectExternalSamples filter = true ->
  (0 <= ntarget <= 2 ^ 32)%Z ->
  generateMadProgram ntarget nsource left right filter radiusMultiplier [] = Ok program ->
  Forall (fun mad =>
            let xsource := xsource_of nsource left right (sourceIndex mad) in
            (0 <= sourceIndex mad < wrap_int32 nsource)%Z /\
            (xsource <? F32.zero) = false /\ (xsource >=? F32.one) = false)
         program.
Proof.
  intros Hrej Hn Hgen.
  destruct (generateMadProgram_blocks _ _ _ _ _ _ _ Hn Hgen)
    as (sts & _ & -> & _ & Hscan & _).
  apply Forall_concat. apply Forall_map. apply Forall_lookup_2.
  intros k st Hk.
  destruct (scanOf_block_sorted _ _ _ _ _ _ _ _ _ (Hscan k st Hk)) as [_ H2].
  eapply Forall_impl; [exact H2|]. cbn beta zeta. intros mad [_ Hm].
  destruct (Hm Hrej) as [Himg Hrange].
  unfold outside_image in Himg. unfold outside_range in Hrange.
  apply orb_false_elim in Himg. destruct Himg as [H1 H2'].
  apply orb_false_elim in Hrange. destruct Hrange as [H3 H4].
  split; [lia|]. split; assumption.
Qed.

Lemma sorted_range_length (l : MadProgram) : forall lo hi : Z,
  StronglySorted (fun a b => (sourceIndex a < sourceIndex b)%Z) l ->
  Forall (fun mad => (lo <= sourceIndex mad < hi)%Z) l ->
  (Z.of_nat (length l) <= Z.max 0 (hi - lo))%Z.
Proof.
  induction l as [|a l IH]; intros lo hi Hs Hr; cbn [length]; [lia|].
  apply StronglySorted_inv in Hs. destruct Hs as [Hs Ha].
  inversion Hr as [|? ? Hra Hrl]; subst.
  assert (Hl : Forall (fun mad => (sourceIndex a + 1 <= sourceIndex mad < hi)%Z) l).
  { rewrite Forall_forall in Ha, Hrl |- *. intros b Hb.
    specialize (Ha b Hb). specialize (Hrl b Hb). lia. }
  specialize (IH _ _ Hs Hl). lia.
Qed.

Lemma length_concat_le {A : Type} (ls : list (list A)) (n : Z) :
  Forall (fun l => (Z.of_nat (length l) <= n)%Z) ls ->
  (Z.of_nat (length (concat ls)) <= Z.of_nat (length ls) * n)%Z.
Proof.
  induction 1 as [|l ls Hl _ IH]; cbn [concat length]; [lia|].
  rewrite length_app. lia.
Qed.

(** X6. With a kernel that rejects external samples, a generated program
    holds at most [nsource] instructions for each target, hence at most
    [ntarget * nsource] instructions. *)
Theorem generated_program_size
        ntarget nsource left right filter radiusMultiplier (program : MadProgram) :
  rejectExternalSamples filter = true ->
  (0 <= ntarget <= 2 ^ 32)%Z -> (0 <= nsource)%Z ->
  generateMadProgram ntarget nsource left right filter radiusMultiplier [] = Ok program ->
  (forall t : nat, (Z.of_nat (length (instructionsOf (Z.of_nat t) program)) <= nsource)%Z) /\
  (Z.of_nat (length program) <= ntarget * nsource)%Z.
Proof.
  intros Hrej Hn Hs Hgen.
  destruct (generateMadProgram_blocks _ _ _ _ _ _ _ Hn Hgen)
    as (sts & _ & Hprog & Hlen & Hscan & Hinstr).
  assert (Hblock : forall k st, sts !! k = Some st ->
            (Z.of_nat (length (blockOf st)) <= nsource)%Z).
  { intros k st Hk.
    destruct (scanOf_block_sorted _ _ _ _ _ _ _ _ _ (Hscan k st Hk)) as [H1 H2].
    pose proof (sorted_range_length (blockOf st) 0 nsource H1) as Hb.
    rewrite Z.sub_0_r, Z.max_r in Hb by lia. apply Hb.
    eapply Forall_impl; [exact H2|]. cbn beta. intros mad [_ Hm].
    destruct (Hm Hrej) as [Himg _]. unfold outside_image in Himg.
    apply orb_false_elim in Himg. destruct Himg as [H3 H4].
    pose proof (wrap_int32_le nsource Hs). lia. }
  split.
  - intros t. rewrite Hinstr. destruct (sts !! t) as [st|] eqn:Hst.
    + exact (Hblock t st Hst).
    + cbn [length]. lia.
  - rewrite Hprog.
    assert (Hall : Forall (fun l : MadProgram => (Z.of_nat (length l) <= nsource)%Z)
                          (map blockOf sts)).
    { apply Forall_map. apply Forall_lookup_2. exact Hblock. }
    pose proof (length_concat_le _ _ Hall) as Hc.
    rewrite length_map, Hlen in Hc. lia.
Qed.

(** *** The executor and the drivers *)

Lemma resolvedFilter_resolved twidth swidth filter :
  filter <> DEFAULT -> resolvedFilter twidth swidth filter = filter.
Proof. unfold resolvedFilter. destruct filter; try reflexivity. contradiction. Qed.

Lemma Filter_eqb_eq a b : Filter_eqb a b = true <-> a = b.
Proof. destruct a, b; cbn; split; intros H; try discriminate; reflexivity. Qed.

Lemma resolvedFilter_eq twidth swidth filter target :
  target <> DEFAULT -> target <> MITCHELL -> target <> LANCZOS ->
  Filter_eqb (resolvedFilter twidth swidth filter) target = Filter_eqb filter target.
Proof.
  intros H0 H1 H2. unfold resolvedFilter.
  destruct filter; try reflexivity.
  destruct (twidth >? swidth)%Z; destruct target; try reflexivity; congruence.
Qed.

(** X7. In the weighted-sum mode (every filter kind but [MINIMUM] and
    [GAUSSIAN_NORMALS]), for sizes that fit the index types, every sample
    of the returned image is the sum, accumulated in binary32 from 0 in
    program order, of the products of the source samples that the
    instructions for that target read in the same row by their weights. *)
Theorem weighted_sum_samples source program twidth filter left right rm image program' :
  wellFormed source ->
  (0 <= twidth < 2 ^ 32)%Z ->
  (getWidth source * getChannels source <= 2 ^ 31)%Z ->
  (twidth * getChannels source < 2 ^ 32)%Z ->
  filter <> MINIMUM -> filter <> GAUSSIAN_NORMALS ->
  resampleImage1D source program twidth filter left right rm = Ok (image, program') ->
  forall row col : nat,
    (Z.of_nat row < getHeight source)%Z ->
    (Z.of_nat col < twidth * getChannels source)%Z ->
    get image !! (row * Z.to_nat (twidth * getChannels source) + col)%nat =
    Some (fold_left
            (fun b mad =>
               b + default F32.zero
                     (get source !! Z.to_nat
                        (Z.of_nat row * (getWidth source * getChannels source)
                         + sourceIndex mad))
                   * weight mad)
            (instructionsOf (Z.of_nat col) program')
            F32.zero).
Proof.
  intros (HW & HH & HC & Hlen) HT HSC HTC Hmin Hnorm Hrun row col Hrow Hcol.
  rewrite resampleImage1D_unfold in Hrun. cbv zeta in Hrun.
  apply bind_Ok in Hrun. destruct Hrun as (hfn & Hfn & Hrun).
  apply bind_Ok in Hrun. destruct Hrun as (program0 & Hgen & Hrun).
  rewrite (resolvedFilter_eq _ _ _ MINIMUM) in Hrun by discriminate.
  rewrite (resolvedFilter_eq _ _ _ GAUSSIAN_NORMALS) in Hrun by discriminate.
  assert (E1 : Filter_eqb filter MINIMUM = false).
  { destruct (Filter_eqb filter MINIMUM) eqn:E; [|reflexivity].
    apply Filter_eqb_eq in E. contradiction. }
  assert (E2 : Filter_eqb filter GAUSSIAN_NORMALS = false).
  { destruct (Filter_eqb filter GAUSSIAN_NORMALS) eqn:E; [|reflexivity].
    apply Filter_eqb_eq in E. contradiction. }
  rewrite E1, E2 in Hrun.
  apply bind_Ok in Hrun. destruct Hrun as (t1 & Ht1 & Hrun).
  cbn [bind] in Hrun. injection Hrun as <- <-. cbn [get withData].
  assert (Hprog : Forall (inRow (getWidth source * getChannels source)
                                (twidth * getChannels source))
                         (expandMadProgram (getChannels source) program0)).
  { eapply built_program_inRow; eauto; lia. }
  set (program' := expandMadProgram (getChannels source) program0) in *.
  rewrite (wrap_uint32_small (getWidth source * getChannels source)) in Ht1 by nia.
  rewrite (wrap_uint32_small (twidth * getChannels source)) in Ht1 by nia.
  set (idx := (row * Z.to_nat (twidth * getChannels source) + col)%nat).
  rewrite (rowLoop_cell _ _ _ _ _ _ _ _ _ _ idx Ht1).
  assert (Hidx : Z.of_nat idx =
                 (0 + Z.of_nat row * (twidth * getChannels source) + Z.of_nat col)%Z).
  { unfold idx. nia. }
  cbn [get newLinearImage].
  rewrite lookup_replicate_2 by nia.
  cbn [fmap option_fmap option_map]. f_equal.
  rewrite (rowsCell_row opMad (get source) program' _ (twidth * getChannels source)%Z
             ltac:(nia)
             ltac:(eapply Forall_impl; [exact Hprog|]; intros mad [_ Hm]; exact Hm)
             idx (Z.to_nat (getHeight source)) row 0 0 F32.zero) by lia.
  rewrite (cellFold_instructionsOf _ _ _ _ _ (Z.of_nat col)) by lia.
  replace (0 + Z.of_nat row * (getWidth source * getChannels source))%Z
    with (Z.of_nat row * (getWidth source * getChannels source))%Z by lia.
  reflexivity.
Qed.

Lemma resampleImage1D_normals source program twidth left right rm :
  resampleImage1D source program twidth GAUSSIAN_NORMALS left right rm =
  let* '(image, program') := resampleImage1D source program twidth GAUSSIAN_SCALARS
                               left right rm in
  let* image' := normalize image in
  Ok (image', program').
Proof.
  rewrite !resampleImage1D_unfold. cbv zeta.
  rewrite !resolvedFilter_resolved by discriminate.
  cbn [createFilterFunction bind Filter_eqb].
  destruct (generateMadProgram _ _ _ _ _ _ _) as [program0|e]; cbn [bind]; [|reflexivity].
  destruct (rowLoop _ _ _ _ _ _ _) as [t1|e]; cbn [bind]; [|reflexivity].
  destruct (normalize _) as [image'|e]; reflexivity.
Qed.

(** X8. The pass for [GAUSSIAN_NORMALS] is the pass for [GAUSSIAN_SCALARS]
    followed by [normalize]: same program, same weighted sums, then the
    normalisation of the pixels, whose failure is the failure of the
    pass. *)
Theorem gaussian_normals_pass source program twidth left right rm :
  resampleImage1D source program twidth GAUSSIAN_NORMALS left right rm =
  let* '(image, program') := resampleImage1D source program twidth GAUSSIAN_SCALARS
                               left right rm in
  let* image' := normalize image in
  Ok (image', program').
Proof. apply resampleImage1D_normals. Qed.

(** The aborts of one pass: only the channel count of [normalize], and
    only under [GAUSSIAN_NORMALS]. *)
Lemma resampleImage1D_Panic source program twidth filter left right rm msg :
  resampleImage1D source program twidth filter left right rm = Err (Panic msg) ->
  msg = "Must be a 3-channel image."%string /\
  filter = GAUSSIAN_NORMALS /\ getChannels source <> 3%Z.
Proof.
  rewrite resampleImage1D_unfold. cbv zeta.
  destruct (createFilterFunction_resolved twidth (getWidth source) filter) as [hfn ->].
  cbn [bind].
  pose proof (generateMadProgram_noPanic twidth (getWidth source) left right hfn rm [])
    as Hgen.
  destruct (generateMadProgram _ _ _ _ _ _ _) as [program0|e0]; cbn [bind].
  2:{ intros [= ->]. destruct Hgen. }
  destruct (Filter_eqb _ MINIMUM).
  - pose proof (fillMax_noPanic
                  (wrap_uint32 (twidth * getHeight source * getChannels source))
                  (get (newLinearImage twidth (getHeight source) (getChannels source))))
      as Hfill.
    destruct (fillMax _ _) as [t0|e0]; cbn [bind].
    2:{ intros [= ->]. destruct Hfill. }
    match goal with
    | |- context [rowLoop ?b ?n ?ss ?ts ?sr ?tr ?t] =>
        pose proof (rowLoop_noPanic b n ss ts sr tr t
                      (fun x y z => execRow_noPanic _ _ _ x y z)) as Hrow;
        destruct (rowLoop b n ss ts sr tr t) as [t1|e1]; cbn [bind]
    end.
    + discriminate.
    + intros [= ->]. destruct Hrow.
  - match goal with
    | |- context [rowLoop ?b ?n ?ss ?ts ?sr ?tr ?t] =>
        pose proof (rowLoop_noPanic b n ss ts sr tr t
                      (fun x y z => execRow_noPanic _ _ _ x y z)) as Hrow;
        destruct (rowLoop b n ss ts sr tr t) as [t1|e1]; cbn [bind]
    end.
    2:{ intros [= ->]. destruct Hrow. }
    rewrite (resolvedFilter_eq _ _ _ GAUSSIAN_NORMALS) by discriminate.
    destruct (Filter_eqb filter GAUSSIAN_NORMALS) eqn:En; [|discriminate].
    apply Filter_eqb_eq in En.
    unfold normalize, ASSERT_PRECONDITION. cbn [getChannels withData newLinearImage].
    destruct (Z.eqb_spec (getChannels source) 3) as [E3|E3]; cbn [bind].
    + pose proof (normalizeLoop_noPanic
                    (Z.to_nat (wrap_uint32 (getWidth (withData (newLinearImage twidth
                        (getHeight source) (getChannels source)) t1)
                      * getHeight (withData (newLinearImage twidth
                        (getHeight source) (getChannels source)) t1)))) t1) as Hn.
      cbn [get withData].
      destruct (normalizeLoop _ _) as [d|e1]; cbn [bind]; [discriminate|].
      intros [= ->]. destruct Hn.
    + intros [= <-]. split; [reflexivity|]. split; assumption.
Qed.

(** X9. [resampleImage] aborts on a precondition in two cases only: a
    boundary mode other than [EXCLUDE] ("Not yet implemented."), or the
    filter kind [GAUSSIAN_NORMALS] for one of the two passes on an image
    that does not have three channels ("Must be a 3-channel image."). *)
Theorem resampleImage_aborts source width height sampler msg :
  resampleImage source width height sampler = Err (Panic msg) ->
  (msg = "Not yet implemented."%string /\
   ~ (mode (east sampler) = EXCLUDE /\ mode (north sampler) = EXCLUDE /\
      mode (west sampler) = EXCLUDE /\ mode (south sampler) = EXCLUDE)) \/
  (msg = "Must be a 3-channel image."%string /\
   (horizontalFilter sampler = GAUSSIAN_NORMALS \/
    verticalFilter sampler = GAUSSIAN_NORMALS) /\
   getChannels source <> 3%Z).
Proof.
  unfold resampleImage, ASSERT_PRECONDITION.
  destruct (Boundary_eqb (mode (east sampler)) EXCLUDE &&
            Boundary_eqb (mode (north sampler)) EXCLUDE &&
            Boundary_eqb (mode (west sampler)) EXCLUDE &&
            Boundary_eqb (mode (south sampler)) EXCLUDE) eqn:Emodes; cbn [bind].
  - intros H. right.
    destruct (resampleImage1D source [] width _ _ _ _) as [[image1 program1]|e] eqn:H1;
      cbn [bind] in H.
    + destruct (resampleImage1D (transpose image1) program1 height _ _ _ _)
        as [[image2 program2]|e] eqn:H2; cbn [bind] in H; [discriminate|].
      injection H as ->.
      destruct (resampleImage1D_Panic _ _ _ _ _ _ _ _ H2) as (-> & Hf & Hc).
      apply resampleImage1D_dims in H1. destruct H1 as (_ & _ & C1).
      cbn [transpose getChannels] in Hc. rewrite C1 in Hc.
      split; [reflexivity|]. split; [right; exact Hf|exact Hc].
    + injection H as ->.
      destruct (resampleImage1D_Panic _ _ _ _ _ _ _ _ H1) as (-> & Hf & Hc).
      split; [reflexivity|]. split; [left; exact Hf|exact Hc].
  - intros [= <-]. left. split; [reflexivity|].
    intros (He & Hn & Hw & Hs). rewrite He, Hn, Hw, Hs in Emodes. discriminate.
Qed.

(** X10. Under [GAUSSIAN_NORMALS], a pass whose sizes fit the index types
    and whose program generation is defined aborts with "Must be a
    3-channel image." exactly when the source does not have three
    channels. *)
Theorem normals_need_three_channels source program twidth left right rm program0 :
  wellFormed source ->
  (0 <= twidth < 2 ^ 32)%Z ->
  (getWidth source * getChannels source <= 2 ^ 31)%Z ->
  (twidth * getChannels source < 2 ^ 32)%Z ->
  generateMadProgram twidth (getWidth source) left right Gaussian rm [] = Ok program0 ->
  (getChannels source <> 3%Z <->
   resampleImage1D source program twidth GAUSSIAN_NORMALS left right rm
   = Err (Panic "Must be a 3-channel image.")) /\
  (getChannels source = 3%Z <->
   exists image program',
     resampleImage1D source program twidth GAUSSIAN_NORMALS left right rm
     = Ok (image, program')).
Proof.
  intros Hwf HT HSC HTC Hgen.
  assert (Hyes : getChannels source = 3%Z ->
            exists image program',
              resampleImage1D source program twidth GAUSSIAN_NORMALS left right rm
              = Ok (image, program')).
  { intros H3.
    destruct (resampleImage1D_returns source program twidth GAUSSIAN_NORMALS
                left right rm Gaussian program0 Hwf HT HSC HTC)
      as (image & Himage & _); [reflexivity|exact Hgen|intros _; exact H3|].
    eauto. }
  assert (Hno : getChannels source <> 3%Z ->
            resampleImage1D source program twidth GAUSSIAN_NORMALS left right rm
            = Err (Panic "Must be a 3-channel image.")).
  { intros H3. rewrite resampleImage1D_normals.
    destruct (resampleImage1D_returns source program twidth GAUSSIAN_SCALARS
                left right rm Gaussian program0 Hwf HT HSC HTC)
      as (image & Himage & _); [reflexivity|exact Hgen|discriminate|].
    rewrite Himage. cbn [bind].
    apply resampleImage1D_dims in Himage. destruct Himage as (_ & _ & C1).
    unfold normalize, ASSERT_PRECONDITION. rewrite C1.
    destruct (Z.eqb_spec (getChannels source) 3) as [E|E]; [contradiction|reflexivity]. }
  split; split.
  - exact Hno.
  - intros H E. destruct (Hyes E) as (image & program' & H'). congruence.
  - exact Hyes.
  - intros (image & program' & H).
    destruct (Z.eq_dec (getChannels source) 3) as [E|E]; [exact E|].
    rewrite (Hno E) in H. discriminate.
Qed.

Lemma normalizeLoop_length n : forall data data',
  normalizeLoop n data = Ok data' -> length data' = length data.
Proof.
  induction n as [|n IH]; intros data data' H; cbn [normalizeLoop] in H.
  - injection H as <-. reflexivity.
  - destruct data as [|x [|y [|z rest]]]; try discriminate.
    destruct (vnormalize (x, y, z)) as [[x' y'] z'].
    apply bind_Ok in H. destruct H as (rest' & Hrest & H). injection H as <-.
    cbn [length]. rewrite (IH _ _ Hrest). reflexivity.
Qed.

(** The buffer of the image a pass returns has one sample per pixel and
    channel. *)
Lemma resampleImage1D_length source program twidth filter left right rm image program' :
  resampleImage1D source program twidth filter left right rm = Ok (image, program') ->
  length (get image) = Z.to_nat (twidth * getHeight source * getChannels source).
Proof.
  intros H.
  rewrite resampleImage1D_unfold in H. cbv zeta in H.
  apply bind_Ok in H. destruct H as (hfn & _ & H).
  apply bind_Ok in H. destruct H as (program0 & _ & H).
  destruct (Filter_eqb _ MINIMUM).
  - apply bind_Ok in H. destruct H as (t0 & Ht0 & H).
    apply bind_Ok in H. destruct H as (t1 & Ht1 & H).
    injection H as <- <-. cbn [get withData].
    apply rowLoop_length in Ht1. rewrite Ht1.
    unfold fillMax in Ht0. destruct (_ <=? _)%Z eqn:E in Ht0; [|discriminate].
    apply Z.leb_le in E. injection Ht0 as <-.
    cbn [get newLinearImage] in *. rewrite length_replicate in E.
    rewrite length_app, length_replicate, length_drop, length_replicate. lia.
  - apply bind_Ok in H. destruct H as (t1 & Ht1 & H).
    apply bind_Ok in H. destruct H as (image1 & Himage1 & H).
    injection H as <- <-.
    apply rowLoop_length in Ht1. cbn [get newLinearImage] in Ht1.
    rewrite length_replicate in Ht1.
    destruct (Filter_eqb _ GAUSSIAN_NORMALS).
    + unfold normalize in Himage1.
      apply bind_Ok in Himage1. destruct Himage1 as (_ & _ & Himage1).
      apply bind_Ok in Himage1. destruct Himage1 as (d & Hd & Himage1).
      injection Himage1 as <-. cbn [get withData] in *.
      apply normalizeLoop_length in Hd. lia.
    + injection Himage1 as <-. cbn [get withData]. exact Ht1.
Qed.

(** X11. Whenever a pass returns, the image has the requested width, the
    height and the channel count of the source, and a buffer of exactly
    width x height x channels samples, in every mode. *)
Theorem resampleImage1D_buffer source program twidth filter left right rm image program' :
  resampleImage1D source program twidth filter left right rm = Ok (image, program') ->
  getWidth image = twidth /\ getHeight image = getHeight source /\
  getChannels image = getChannels source /\
  length (get image) = Z.to_nat (twidth * getHeight source * getChannels source).
Proof.
  intros H. pose proof (resampleImage1D_dims _ _ _ _ _ _ _ _ _ H) as (HW & HH & HC).
  split; [exact HW|]. split; [exact HH|]. split; [exact HC|].
  eapply resampleImage1D_length. exact H.
Qed.

(** The minimum reduction stores no value of its own. *)
Lemma execRow_opMin_values (source : list float) (P : float -> Prop) program :
  forall sourceRow targetRow target target',
  Forall P source -> Forall P target ->
  execRow opMin program source sourceRow targetRow target = Ok target' ->
  Forall P target'.
Proof.
  induction program as [|mad rest IH]; intros sourceRow targetRow target target' Hs Ht H;
    cbn [execRow] in H.
  - injection H as <-. exact Ht.
  - apply bind_Ok in H. destruct H as (a & Ha & H).
    apply bind_Ok in H. destruct H as (b & Hb & H).
    apply bind_Ok in H. destruct H as (t1 & Ht1 & H).
    apply load_Ok in Ha. destruct Ha as [_ Ha].
    apply load_Ok in Hb. destruct Hb as [_ Hb].
    apply store_Ok in Ht1. destruct Ht1 as [_ ->].
    apply (IH _ _ _ _ Hs) in H; [exact H|].
    apply Forall_insert; [exact Ht|].
    unfold opMin, fmin. destruct (b <? a).
    + rewrite Forall_lookup in Ht. exact (Ht _ _ Hb).
    + rewrite Forall_lookup in Hs. exact (Hs _ _ Ha).
Qed.

Lemma rowLoop_opMin_values (source : list float) (P : float -> Prop) program n :
  forall ss ts sr tr target target',
  Forall P source -> Forall P target ->
  rowLoop (execRow opMin program source) n ss ts sr tr target = Ok target' ->
  Forall P target'.
Proof.
  induction n as [|n IH]; intros ss ts sr tr target target' Hs Ht H; cbn [rowLoop] in H.
  - injection H as <-. exact Ht.
  - apply bind_Ok in H. destruct H as (t1 & Ht1 & H).
    apply (IH _ _ _ _ _ _ Hs) in H; [exact H|].
    eapply execRow_opMin_values; [exact Hs|exact Ht|exact Ht1].
Qed.

(** X13. Under [MINIMUM], when the number of samples of the target fits a
    [uint32_t], every sample of the returned image is a sample of the
    source image or [std::numeric_limits<float>::max()]: the reduction
    computes no new value. *)
Theorem minimum_values source program twidth left right rm image program' :
  (0 <= twidth * getHeight source * getChannels source < 2 ^ 32)%Z ->
  resampleImage1D source program twidth MINIMUM left right rm = Ok (image, program') ->
  Forall (fun v => v = F32.max_float \/ v ∈ get source) (get image).
Proof.
  intros Hsize. rewrite resampleImage1D_unfold. cbv zeta.
  change (resolvedFilter twidth (getWidth source) MINIMUM) with MINIMUM.
  cbn [createFilterFunction bind Filter_eqb]. intros H.
  apply bind_Ok in H. destruct H as (program0 & _ & H).
  apply bind_Ok in H. destruct H as (t0 & Ht0 & H).
  apply bind_Ok in H. destruct H as (t1 & Ht1 & H).
  injection H as <- <-. cbn [get withData].
  eapply rowLoop_opMin_values; [| |exact Ht1].
  - apply Forall_forall. intros v Hv. right. exact Hv.
  - rewrite wrap_uint32_small in Ht0 by exact Hsize.
    unfold fillMax in Ht0. destruct (_ <=? _)%Z in Ht0; [|discriminate].
    injection Ht0 as <-. apply Forall_app. split.
    + apply Forall_replicate. left. reflexivity.
    + cbn [get newLinearImage]. rewrite drop_replicate, Nat.sub_diag. constructor.
Qed.

Lemma cellFold_ext op (source1 source2 : list float) sourceRow targetRow idx program :
  forall b,
  Forall (fun mad => source1 !! Z.to_nat (sourceRow + sourceIndex mad)
                     = source2 !! Z.to_nat (sourceRow + sourceIndex mad)) program ->
  cellFold op source1 sourceRow targetRow idx program b =
  cellFold op source2 sourceRow targetRow idx program b.
Proof.
  unfold cellFold. induction program as [|mad rest IH]; intros b Hall; cbn [fold_left];
    [reflexivity|].
  inversion Hall as [|? ? Hm Hrest]; subst. rewrite Hm. apply IH. exact Hrest.
Qed.

(** A sample of the image a pass returns, but for the normalisation: the
    instructions of the program, run on the row of the sample. *)
Lemma resampleImage1D_row_cell source program twidth filter left right rm image program'
      (row col : nat) :
  wellFormed source ->
  (0 <= twidth < 2 ^ 32)%Z ->
  (getWidth source * getChannels source <= 2 ^ 31)%Z ->
  (twidth * getHeight source * getChannels source < 2 ^ 32)%Z ->
  filter <> GAUSSIAN_NORMALS ->
  resampleImage1D source program twidth filter left right rm = Ok (image, program') ->
  (Z.of_nat row < getHeight source)%Z ->
  (Z.of_nat col < twidth * getChannels source)%Z ->
  Forall (inRow (getWidth source * getChannels source) (twidth * getChannels source))
         program' /\
  (forall hfn program0,
     createFilterFunction (resolvedFilter twidth (getWidth source) filter) = Ok hfn ->
     generateMadProgram twidth (getWidth source) left right hfn rm [] = Ok program0 ->
     program' = expandMadProgram (getChannels source) program0) /\
  get image !! (row * Z.to_nat (twidth * getChannels source) + col)%nat =
  Some (cellFold (if Filter_eqb filter MINIMUM then opMin else opMad) (get source)
          (Z.of_nat row * (getWidth source * getChannels source))
          (Z.of_nat row * (twidth * getChannels source))
          (row * Z.to_nat (twidth * getChannels source) + col)%nat
          program'
          (if Filter_eqb filter MINIMUM then F32.max_float else F32.zero)).
Proof.
  intros (HW & HH & HC & Hlen) HT HSC HTHC Hnorm Hrun Hrow Hcol.
  rewrite resampleImage1D_unfold in Hrun. cbv zeta in Hrun.
  apply bind_Ok in Hrun. destruct Hrun as (hfn & Hfn & Hrun).
  apply bind_Ok in Hrun. destruct Hrun as (program0 & Hgen & Hrun).
  rewrite (resolvedFilter_eq _ _ _ MINIMUM) in Hrun by discriminate.
  rewrite (resolvedFilter_eq _ _ _ GAUSSIAN_NORMALS) in Hrun by discriminate.
  assert (E2 : Filter_eqb filter GAUSSIAN_NORMALS = false).
  { destruct (Filter_eqb filter GAUSSIAN_NORMALS) eqn:E; [|reflexivity].
    apply Filter_eqb_eq in E. contradiction. }
  rewrite E2 in Hrun.
  assert (HTC : (twidth * getChannels source < 2 ^ 32)%Z) by nia.
  assert (Hprog : Forall (inRow (getWidth source * getChannels source)
                                (twidth * getChannels source))
                         (expandMadProgram (getChannels source) program0)).
  { eapply built_program_inRow; eauto; lia. }
  set (idx := (row * Z.to_nat (twidth * getChannels source) + col)%nat).
  assert (Hidx : Z.of_nat idx =
                 (0 + Z.of_nat row * (twidth * getChannels source) + Z.of_nat col)%Z).
  { unfold idx. nia. }
  assert (Hprog' : Forall (fun mad => (0 <= targetIndex mad < twidth * getChannels source)%Z)
                          (expandMadProgram (getChannels source) program0)).
  { eapply Forall_impl; [exact Hprog|]. intros mad [_ Hm]. exact Hm. }
  assert (HTC0 : (0 <= twidth * getChannels source)%Z) by nia.
  rewrite (wrap_uint32_small (getWidth source * getChannels source)) in Hrun by nia.
  rewrite (wrap_uint32_small (twidth * getChannels source)) in Hrun by nia.
  destruct (Filter_eqb filter MINIMUM).
  - apply bind_Ok in Hrun. destruct Hrun as (t0 & Ht0 & Hrun).
    apply bind_Ok in Hrun. destruct Hrun as (t1 & Ht1 & Hrun).
    injection Hrun as <- <-. cbn [get withData].
    split; [exact Hprog|]. split.
    { intros hfn' program0' Hfn' Hgen'. congruence. }
    rewrite (wrap_uint32_small (twidth * getHeight source * getChannels source))
      in Ht0 by nia.
    unfold fillMax in Ht0. cbn [get newLinearImage] in Ht0.
    rewrite length_replicate in Ht0.
    destruct (_ <=? _)%Z eqn:E in Ht0; [|apply Z.leb_gt in E; lia].
    injection Ht0 as <-.
    rewrite (rowLoop_cell _ _ _ _ _ _ _ _ _ _ idx Ht1).
    rewrite lookup_app_l by (rewrite length_replicate; nia).
    rewrite lookup_replicate_2 by nia.
    cbn [fmap option_fmap option_map]. f_equal.
    rewrite (rowsCell_row opMin (get source) _ _ (twidth * getChannels source)%Z
               HTC0 Hprog' idx (Z.to_nat (getHeight source)) row 0 0 F32.max_float) by lia.
    f_equal; lia.
  - apply bind_Ok in Hrun. destruct Hrun as (t1 & Ht1 & Hrun).
    cbn [bind] in Hrun. injection Hrun as <- <-. cbn [get withData].
    split; [exact Hprog|]. split.
    { intros hfn' program0' Hfn' Hgen'. congruence. }
    rewrite (rowLoop_cell _ _ _ _ _ _ _ _ _ _ idx Ht1).
    cbn [get newLinearImage]. rewrite lookup_replicate_2 by nia.
    cbn [fmap option_fmap option_map]. f_equal.
    rewrite (rowsCell_row opMad (get source) _ _ (twidth * getChannels source)%Z
               HTC0 Hprog' idx (Z.to_nat (getHeight source)) row 0 0 F32.zero) by lia.
    f_equal; lia.
Qed.

(** X14. The rows of a pass are independent: two source images of the
    same sizes that hold the same samples in one row give, for the same
    arguments, the same program and the same samples in that row of the
    result (every filter kind but [GAUSSIAN_NORMALS], sizes that fit the
    index types). *)
Theorem rows_are_independent source1 source2 program twidth filter left right rm
        image1 image2 program1 program2 (row : nat) :
  wellFormed source1 -> wellFormed source2 ->
  getWidth source2 = getWidth source1 ->
  getHeight source2 = getHeight source1 ->
  getChannels source2 = getChannels source1 ->
  (0 <= twidth < 2 ^ 32)%Z ->
  (getWidth source1 * getChannels source1 <= 2 ^ 31)%Z ->
  (twidth * getHeight source1 * getChannels source1 < 2 ^ 32)%Z ->
  filter <> GAUSSIAN_NORMALS ->
  resampleImage1D source1 program twidth filter left right rm = Ok (image1, program1) ->
  resampleImage1D source2 program twidth filter left right rm = Ok (image2, program2) ->
  (Z.of_nat row < getHeight source1)%Z ->
  (forall i : nat,
      (Z.of_nat i < getWidth source1 * getChannels source1)%Z ->
      get source1 !! (row * Z.to_nat (getWidth source1 * getChannels source1) + i)%nat =
      get source2 !! (row * Z.to_nat (getWidth source1 * getChannels source1) + i)%nat) ->
  program1 = program2 /\
  forall col : nat,
    (Z.of_nat col < twidth * getChannels source1)%Z ->
    get image1 !! (row * Z.to_nat (twidth * getChannels source1) + col)%nat =
    get image2 !! (row * Z.to_nat (twidth * getChannels source1) + col)%nat.
Proof.
  intros Hwf1 Hwf2 EW EH EC HT HSC HTHC Hnorm H1 H2 Hrow Hsame.
  assert (Hprogs : program1 = program2).
  { pose proof H1 as H1'. pose proof H2 as H2'.
    rewrite resampleImage1D_unfold in H1', H2'. cbv zeta in H1', H2'.
    rewrite EW, EC in H2'.
    destruct (createFilterFunction _) as [hfn|e]; cbn [bind] in H1', H2'; [|discriminate].
    destruct (generateMadProgram _ _ _ _ _ _ _) as [program0|e]; cbn [bind] in H1', H2';
      [|discriminate].
    assert (Hp1 : program1 = expandMadProgram (getChannels source1) program0).
    { destruct (Filter_eqb _ MINIMUM).
      - apply bind_Ok in H1'. destruct H1' as (? & _ & H1').
        apply bind_Ok in H1'. destruct H1' as (? & _ & H1'). congruence.
      - apply bind_Ok in H1'. destruct H1' as (? & _ & H1').
        apply bind_Ok in H1'. destruct H1' as (? & _ & H1'). congruence. }
    assert (Hp2 : program2 = expandMadProgram (getChannels source1) program0).
    { destruct (Filter_eqb _ MINIMUM).
      - apply bind_Ok in H2'. destruct H2' as (? & _ & H2').
        apply bind_Ok in H2'. destruct H2' as (? & _ & H2'). congruence.
      - apply bind_Ok in H2'. destruct H2' as (? & _ & H2').
        apply bind_Ok in H2'. destruct H2' as (? & _ & H2'). congruence. }
    congruence. }
  split; [exact Hprogs|]. intros col Hcol.
  destruct (resampleImage1D_row_cell _ _ _ _ _ _ _ _ _ row col Hwf1 HT HSC HTHC Hnorm H1
              Hrow Hcol) as (Hin1 & _ & ->).
  assert (HSC2 : (getWidth source2 * getChannels source2 <= 2 ^ 31)%Z)
    by (rewrite EW, EC; exact HSC).
  assert (HTHC2 : (twidth * getHeight source2 * getChannels source2 < 2 ^ 32)%Z)
    by (rewrite EH, EC; exact HTHC).
  assert (Hrow2 : (Z.of_nat row < getHeight source2)%Z) by (rewrite EH; exact Hrow).
  assert (Hcol2 : (Z.of_nat col < twidth * getChannels source2)%Z)
    by (rewrite EC; exact Hcol).
  destruct (resampleImage1D_row_cell _ _ _ _ _ _ _ _ _ row col Hwf2 HT HSC2 HTHC2 Hnorm H2
              Hrow2 Hcol2) as (_ & _ & Hc2).
  rewrite EW, EC in Hc2. rewrite Hc2, <- Hprogs. f_equal.
  apply cellFold_ext.
  eapply Forall_impl; [exact Hin1|]. cbn beta. intros mad [[Hs0 Hs1] _].
  destruct Hwf1 as (HW & HH & HC & _).
  specialize (Hsame (Z.to_nat (sourceIndex mad)) ltac:(lia)).
  replace (Z.to_nat (Z.of_nat row * (getWidth source1 * getChannels source1)
                     + sourceIndex mad))
    with (row * Z.to_nat (getWidth source1 * getChannels source1)
          + Z.to_nat (sourceIndex mad))%nat by nia.
  exact Hsame.
Qed.

(** *** The single sample *)

Lemma copyLoop_bounds n : forall c src dst dst',
  (0 <= c)%Z -> (c + Z.of_nat n <= 2 ^ 32)%Z ->
  copyLoop n c src dst = Ok dst' ->
  (c + Z.of_nat n <= Z.of_nat (length src))%Z /\
  (c + Z.of_nat n <= Z.of_nat (length dst))%Z \/ n = O.
Proof.
  induction n as [|n IH]; intros c src dst dst' Hc Hn H; [right; reflexivity|left].
  cbn [copyLoop] in H.
  apply bind_Ok in H. destruct H as (x & Hx & H).
  apply bind_Ok in H. destruct H as (dst1 & Hdst1 & H).
  apply load_Ok in Hx. destruct Hx as [_ Hx]. apply lookup_lt_Some in Hx.
  apply store_Ok in Hdst1. destruct Hdst1 as [Hrange ->].
  destruct n as [|m]; [lia|].
  rewrite wrap_uint32_small in H by lia.
  assert (Hc1 : (0 <= c + 1)%Z) by lia.
  assert (Hn1 : (c + 1 + Z.of_nat (S m) <= 2 ^ 32)%Z) by lia.
  destruct (IH _ _ _ _ Hc1 Hn1 H) as [[H1 H2]|H0]; [|discriminate].
  rewrite length_insert in H2. lia.
Qed.

Lemma copyLoop_prefix src dst0 n : forall c : nat,
  (c + n <= length src)%nat -> (c + n <= length dst0)%nat ->
  (Z.of_nat (c + n) <= 2 ^ 32)%Z ->
  copyLoop n (Z.of_nat c) src (take c src ++ drop c dst0) =
  Ok (take (c + n) src ++ drop (c + n) dst0).
Proof.
  induction n as [|n IH]; intros c Hs Hd Hn; cbn [copyLoop].
  - rewrite Nat.add_0_r. reflexivity.
  - destruct (lookup_lt_is_Some_2 src c) as [x Hx]; [lia|].
    destruct (lookup_lt_is_Some_2 dst0 c) as [y Hy]; [lia|].
    assert (Hload : load src (Z.of_nat c) = Ok x).
    { apply load_Ok. split; [lia|]. rewrite Nat2Z.id. exact Hx. }
    rewrite Hload. cbn [bind].
    assert (Hlen : length (take c src) = c) by (rewrite length_take; lia).
    assert (Hstore : store (take c src ++ drop c dst0) (Z.of_nat c) x =
                     Ok (take (S c) src ++ drop (S c) dst0)).
    { apply store_Ok. split.
      - rewrite length_app, Hlen, length_drop. lia.
      - rewrite Nat2Z.id. rewrite insert_app_r_alt by lia. rewrite Hlen, Nat.sub_diag.
        rewrite (drop_S _ _ _ Hy). cbn [insert list_insert].
        rewrite (take_S_r _ _ _ Hx), <- app_assoc. reflexivity. }
    rewrite Hstore. cbn [bind].
    destruct n as [|m].
    { cbn [copyLoop]. replace (c + 1)%nat with (S c) by lia. reflexivity. }
    rewrite wrap_uint32_small by lia.
    replace (Z.of_nat c + 1)%Z with (Z.of_nat (S c)) by lia.
    rewrite IH by lia. do 3 f_equal; lia.
Qed.

(** The copy loop from index 0: the first [n] cells of the destination
    are overwritten with the first [n] cells of the source. *)
Lemma copyLoop_Ok n src dst dst' :
  (Z.of_nat n <= 2 ^ 32)%Z ->
  copyLoop n 0 src dst = Ok dst' <->
  (n = O \/ (n <= length src /\ n <= length dst)%nat) /\
  dst' = take n src ++ drop n dst.
Proof.
  intros Hn. split.
  - intros H.
    assert (Hn0 : (0 + Z.of_nat n <= 2 ^ 32)%Z) by lia.
    destruct (copyLoop_bounds n 0 src dst dst' (Z.le_refl 0) Hn0 H) as [[H1 H2]|H0].
    + assert (Hp : copyLoop n (Z.of_nat 0) src (take 0 src ++ drop 0 dst) =
                   Ok (take (0 + n) src ++ drop (0 + n) dst))
        by (apply copyLoop_prefix; lia).
      change (copyLoop n 0 src dst = Ok (take n src ++ drop n dst)) in Hp.
      rewrite Hp in H. injection H as <-.
      split; [right; lia|reflexivity].
    + subst n. cbn [copyLoop] in H. injection H as <-. split; [left; reflexivity|].
      reflexivity.
  - intros [[->|[H1 H2]] ->].
    + reflexivity.
    + assert (Hp : copyLoop n (Z.of_nat 0) src (take 0 src ++ drop 0 dst) =
                   Ok (take (0 + n) src ++ drop (0 + n) dst))
        by (apply copyLoop_prefix; lia).
      exact Hp.
Qed.

Lemma bind_singletons {A : Type} (f : nat -> A) n : forall k,
  (seq k n ≫= fun i => [f i]) = map f (seq k n).
Proof.
  induction n as [|n IH]; intros k; [reflexivity|].
  cbn [seq map]. rewrite bind_cons, IH. reflexivity.
Qed.

Lemma map_lookup_seq {A : Type} (d : A) (l : list A) :
  map (fun i => default d (l !! i)) (seq 0 (length l)) = l.
Proof.
  induction l as [|x l IH]; [reflexivity|].
  cbn [length seq map]. f_equal.
  rewrite <- seq_shift, map_map. exact IH.
Qed.

(** The transposition of an image of one pixel does not move its
    samples. *)
Lemma transpose_one_pixel image :
  getWidth image = 1%Z -> getHeight image = 1%Z ->
  length (get image) = Z.to_nat (getChannels image) ->
  get (transpose image) = get image.
Proof.
  intros HW HH Hlen. unfold transpose. cbn [get]. rewrite HW, HH.
  change (Z.to_nat 1) with 1%nat. cbn [seq].
  assert (Hnil : forall (A B : Type) (f : A -> list B), ([] ≫= f) = []) by reflexivity.
  rewrite !bind_cons, !Hnil, !app_nil_r.
  rewrite bind_singletons, <- Hlen.
  rewrite <- (map_lookup_seq F32.zero (get image)) at 2.
  apply map_ext. intros ch. do 2 f_equal.
Qed.

(** [computeSingleSample] in terms of [resampleImage] to one pixel. *)
Lemma computeSingleSample_unfold source x y pixel filter :
  computeSingleSample source x y pixel filter =
  let* image := resampleImage source 1 1 (singleSampler source x y filter) in
  let dst := match pixel with
             | Some buf => buf
             | None => replicate (Z.to_nat (getChannels source)) indeterminate
             end in
  let* dst := copyLoop (Z.to_nat (getChannels source)) 0 (get image) dst in
  Ok (Some dst).
Proof.
  unfold computeSingleSample, resampleImage, singleSampler, ASSERT_PRECONDITION.
  cbn [mode east north west south Boundary_eqb andb bind horizontalFilter verticalFilter
       sourceRegion filterRadiusMultiplier left top right bottom].
  destruct (resampleImage1D source [] 1 filter _ _ _) as [[image1 program1]|e] eqn:H1;
    cbn [bind]; [|reflexivity].
  destruct (resampleImage1D (transpose image1) program1 1 filter _ _ _)
    as [[image2 program2]|e] eqn:H2; cbn [bind]; [|reflexivity].
  rewrite transpose_one_pixel; [reflexivity| | |].
  - apply resampleImage1D_dims in H2. tauto.
  - apply resampleImage1D_dims in H2. destruct H2 as (_ & -> & _).
    cbn [transpose getHeight]. apply resampleImage1D_dims in H1. tauto.
  - pose proof (resampleImage1D_length _ _ _ _ _ _ _ _ _ H2) as Hlen.
    apply resampleImage1D_dims in H2. destruct H2 as (_ & _ & C2).
    apply resampleImage1D_dims in H1. destruct H1 as (W1 & _ & _).
    cbn [transpose getHeight getChannels] in Hlen, C2.
    rewrite Hlen, C2, W1. f_equal. lia.
Qed.

Lemma resampleImage_one_pixel source sampler image :
  resampleImage source 1 1 sampler = Ok image ->
  length (get image) = Z.to_nat (getChannels source).
Proof.
  unfold resampleImage. intros H.
  apply bind_Ok in H. destruct H as (_ & _ & H).
  apply bind_Ok in H. destruct H as ([image1 program1] & H1 & H).
  apply bind_Ok in H. destruct H as ([image2 program2] & H2 & H).
  injection H as <-.
  pose proof (resampleImage1D_length _ _ _ _ _ _ _ _ _ H2) as Hlen.
  apply resampleImage1D_dims in H2. destruct H2 as (W2 & H2' & C2).
  apply resampleImage1D_dims in H1. destruct H1 as (W1 & _ & C1).
  cbn [transpose getHeight getChannels] in Hlen, C2, H2'.
  rewrite transpose_one_pixel.
  - rewrite Hlen, W1, C1. f_equal. lia.
  - exact W2.
  - rewrite H2'. exact W1.
  - rewrite Hlen, C2, W1. f_equal. lia.
Qed.

(** X15. [computeSingleSample] returns exactly when [resampleImage] to one
    pixel, over the square of half-width one pixel around [(x, y)],
    returns and the buffer passed in, if any, holds at least one float per
    channel. The result then holds the samples of that pixel, followed by
    what the given buffer held beyond them; a buffer allocated by the call
    holds the samples and nothing else. *)
Theorem computeSingleSample_result source x y pixel filter r :
  (getChannels source <= 2 ^ 32)%Z ->
  computeSingleSample source x y pixel filter = Ok r <->
  exists image,
    resampleImage source 1 1 (singleSampler source x y filter) = Ok image /\
    match pixel with
    | Some buf => (Z.to_nat (getChannels source) <= length buf)%nat
    | None => True
    end /\
    r = Some (get image ++ drop (Z.to_nat (getChannels source)) (default [] pixel)).
Proof.
  intros HC. rewrite computeSingleSample_unfold. cbv zeta.
  assert (Hn : (Z.of_nat (Z.to_nat (getChannels source)) <= 2 ^ 32)%Z) by lia.
  split.
  - intros H.
    apply bind_Ok in H. destruct H as (image & Himage & H).
    apply bind_Ok in H. destruct H as (dst & Hdst & H).
    injection H as <-.
    pose proof (resampleImage_one_pixel _ _ _ Himage) as Hlen.
    apply (copyLoop_Ok _ _ _ _ Hn) in Hdst. destruct Hdst as [Hb ->].
    exists image. split; [exact Himage|].
    rewrite take_ge by lia.
    destruct pixel as [buf|]; cbn [default].
    + split; [lia|reflexivity].
    + split; [exact I|]. rewrite drop_replicate, Nat.sub_diag, drop_nil. reflexivity.
  - intros (image & Himage & Hbuf & ->).
    rewrite Himage. cbn [bind].
    pose proof (resampleImage_one_pixel _ _ _ Himage) as Hlen.
    match goal with
    | |- bind (copyLoop ?n 0 ?src ?dst) _ = _ =>
        assert (Hcopy : copyLoop n 0 src dst = Ok (take n src ++ drop n dst))
    end.
    { apply (copyLoop_Ok _ _ _ _ Hn). split; [|reflexivity]. right. split; [lia|].
      destruct pixel as [buf|]; [exact Hbuf|rewrite length_replicate; lia]. }
    rewrite Hcopy. cbn [bind]. rewrite take_ge by lia.
    destruct pixel as [buf|]; cbn [default]; [reflexivity|].
    rewrite drop_replicate, Nat.sub_diag, drop_nil. reflexivity.
Qed.

Lemma copyLoop_noPanic n : forall c src dst, noPanic (copyLoop n c src dst).
Proof.
  induction n as [|n IH]; intros c src dst; cbn [copyLoop]; [exact I|].
  apply noPanic_bind; [apply load_noPanic|intros a _].
  apply noPanic_bind; [apply store_noPanic|intros b _]. apply IH.
Qed.

(** X16. [computeSingleSample] aborts on a precondition in one case only:
    the filter kind [GAUSSIAN_NORMALS] on an image that does not have
    three channels. It never aborts on a boundary mode or on an
    unresolved filter kind. *)
Theorem computeSingleSample_aborts source x y pixel filter msg :
  computeSingleSample source x y pixel filter = Err (Panic msg) ->
  msg = "Must be a 3-channel image."%string /\
  filter = GAUSSIAN_NORMALS /\ getChannels source <> 3%Z.
Proof.
  unfold computeSingleSample. cbv zeta.
  destruct (resampleImage1D source [] 1 filter _ _ _) as [[image1 program1]|e] eqn:H1;
    cbn [bind].
  - destruct (resampleImage1D (transpose image1) program1 1 filter _ _ _)
      as [[image2 program2]|e] eqn:H2; cbn [bind].
    + match goal with
      | |- bind (copyLoop ?n ?c ?src ?dst) _ = _ -> _ =>
          pose proof (copyLoop_noPanic n c src dst) as Hcopy;
          destruct (copyLoop n c src dst) as [d|e]; cbn [bind]
      end.
      * discriminate.
      * intros [= ->]. destruct Hcopy.
    + intros [= ->].
      destruct (resampleImage1D_Panic _ _ _ _ _ _ _ _ H2) as (-> & Hf & Hc).
      apply resampleImage1D_dims in H1. destruct H1 as (_ & _ & C1).
      cbn [transpose getChannels] in Hc. rewrite C1 in Hc.
      split; [reflexivity|]. split; assumption.
  - intros [= ->].
    destruct (resampleImage1D_Panic _ _ _ _ _ _ _ _ H1) as (-> & Hf & Hc).
    split; [reflexivity|]. split; assumption.
Qed.

(** *** The kernels *)

(** A distance of at most 0.00001 is not at least 1. *)
Lemma le_small_not_ge_one (t : float) :
  (t <=? F32.one / F32.of_Z 100000) = true -> (t >=? F32.one) = false.
Proof.
  unfold F32.ge, F32.le, SFleb.
  change (F32.one / F32.of_Z 100000) with (S754_finite false 10995116 (-40)).
  change F32.one with (S754_finite false 8388608 (-23)).
  destruct t as [s|s| |s m e].
  - intros _. reflexivity.
  - destruct s; [reflexivity|]. cbv. discriminate.
  - cbv. discriminate.
  - destruct s; [intros _; reflexivity|].
    cbv beta iota delta [SFcompare].
    destruct (Z.compare_spec e (-40)) as [He|He|He];
      destruct (Z.compare_spec (-23) e) as [He'|He'|He']; try lia;
      try discriminate; intros _; reflexivity.
Qed.

(** X17. Up to the distance 0.00001 the Lanczos kernel is exactly 1, for
    every [sinf]: the quotient [sinf(pi t) / (pi t)], undefined at 0, is
    not evaluated there. *)
Theorem lanczos_near_zero (t : float) :
  (t <=? F32.one / F32.of_Z 100000) = true ->
  fn Lanczos t = F32.one /\ sinc t = F32.one.
Proof.
  intros Ht. cbn [fn Lanczos]. rewrite (le_small_not_ge_one t Ht).
  unfold sinc. rewrite Ht. split; reflexivity.
Qed.

(** *** The normalisation of the pixels *)

Lemma normalizeLoop_pixels n : forall data data',
  normalizeLoop n data = Ok data' ->
  (forall p : nat, (p < n)%nat ->
     exists x y z,
       data !! (3 * p)%nat = Some x /\ data !! (3 * p + 1)%nat = Some y /\
       data !! (3 * p + 2)%nat = Some z /\
       (data' !! (3 * p)%nat, data' !! (3 * p + 1)%nat, data' !! (3 * p + 2)%nat) =
       (let '(x', y', z') := vnormalize (x, y, z) in (Some x', Some y', Some z'))) /\
  drop (3 * n) data' = drop (3 * n) data.
Proof.
  induction n as [|n IH]; intros data data' H; cbn [normalizeLoop] in H.
  - injection H as <-. split; [intros p Hp; lia|reflexivity].
  - destruct data as [|x [|y [|z rest]]]; try discriminate.
    destruct (vnormalize (x, y, z)) as [[x' y'] z'] eqn:Hv.
    apply bind_Ok in H. destruct H as (rest' & Hrest & H). injection H as <-.
    destruct (IH _ _ Hrest) as [Hp Hd]. split.
    + intros [|p] Hlt.
      * exists x, y, z. cbn. rewrite Hv. repeat split; reflexivity.
      * destruct (Hp p ltac:(lia)) as (a & b & c & Ha & Hb & Hc & Heq).
        exists a, b, c.
        replace (3 * S p)%nat with (S (S (S (3 * p)))) by lia.
        replace (S (S (S (3 * p))) + 1)%nat with (S (S (S (3 * p + 1)))) by lia.
        replace (S (S (S (3 * p))) + 2)%nat with (S (S (S (3 * p + 2)))) by lia.
        cbn [lookup list_lookup]. repeat split; assumption.
    + replace (3 * S n)%nat with (S (S (S (3 * n)))) by lia. cbn [drop]. exact Hd.
Qed.

(** X18. When [normalize] returns, the image had three channels; its
    sizes are kept; each of the first width x height pixels (the product
    taken on 32 bits) is replaced by the normalisation of its three
    samples, and the samples after them are not changed. *)
Theorem normalize_pixels image image' :
  normalize image = Ok image' ->
  getChannels image = 3%Z /\
  getWidth image' = getWidth image /\ getHeight image' = getHeight image /\
  getChannels image' = getChannels image /\
  length (get image') = length (get image) /\
  let n := Z.to_nat (wrap_uint32 (getWidth image * getHeight image)) in
  (forall p : nat, (p < n)%nat ->
     exists x y z,
       get image !! (3 * p)%nat = Some x /\ get image !! (3 * p + 1)%nat = Some y /\
       get image !! (3 * p + 2)%nat = Some z /\
       (get image' !! (3 * p)%nat, get image' !! (3 * p + 1)%nat,
        get image' !! (3 * p + 2)%nat) =
       (let '(x', y', z') := vnormalize (x, y, z) in (Some x', Some y', Some z'))) /\
  drop (3 * n) (get image') = drop (3 * n) (get image).
Proof.
  intros H. pose proof (normalize_dims _ _ H) as (HW & HH & HC).
  unfold normalize, ASSERT_PRECONDITION in H.
  destruct (Z.eqb_spec (getChannels image) 3) as [E|E]; [|discriminate].
  cbn [bind] in H.
  apply bind_Ok in H. destruct H as (data & Hdata & H). injection H as <-.
  cbn [get withData] in *.
  split; [exact E|]. split; [exact HW|]. split; [exact HH|]. split; [exact HC|].
  split; [eapply normalizeLoop_length; exact Hdata|].
  cbv zeta. apply normalizeLoop_pixels. exact Hdata.
Qed.

(** *** The weights of the Box kernel *)

Section ExactSums.

Local Close Scope f32_scope.

(** Rounding a value that the format represents returns it. *)
Lemma binary_round_exact mz ez :
  -149 <= ez ->
  fexp 24 128 (Zdigits2 (Z.pos mz * 2 ^ (ez + 149)) - 149) < 104 ->
  (exists q, Z.pos mz * 2 ^ (ez + 149) =
             q * 2 ^ (fexp 24 128 (Zdigits2 (Z.pos mz * 2 ^ (ez + 149)) - 149) + 149)) ->
  positiveFinite (binary_round 24 128 false mz ez) = true /\
  units (binary_round 24 128 false mz ez) = Z.pos mz * 2 ^ (ez + 149).
Proof.
  intros Hez. rewrite Zdigits2_shift by lia.
  replace (Zdigits2 (Z.pos mz) + (ez + 149) - 149) with (Zdigits2 (Z.pos mz) + ez) by lia.
  unfold binary_round.
  change (Z.pos (digits2_pos mz)) with (Zdigits2 (Z.pos mz)).
  set (f := fexp 24 128 (Zdigits2 (Z.pos mz) + ez)).
  intros Hf104 [q Hq].
  destruct (shl_align_spec mz ez f) as [Hsnd Hfst].
  destruct (shl_align mz ez f) as [mz2 ez2]. cbn [fst snd] in Hsnd, Hfst.
  assert (Hf : -149 <= f) by (unfold f; rewrite fexp32; lia).
  assert (Hd : Zdigits2 (Z.pos mz2) + ez2 = Zdigits2 (Z.pos mz) + ez).
  { rewrite Hfst, Zdigits2_shift by lia. lia. }
  destruct (round_aux_units (Z.pos mz2) ez2 loc_Exact (Z.pos mz2) 1)
    as (m1 & e1 & He1 & Hm1 & Herr & _ & _ & Hres).
  { lia. } { lia. } { unfold located. lia. } { rewrite Hd. fold f. lia. }
  rewrite Hd in He1. fold f in He1. subst e1.
  destruct Hres as [(_ & _ & H104)|(HV & Hres)]; [lia|].
  set (r := binary_round_aux 24 128 false (Z.pos mz2) ez2 loc_Exact) in *.
  assert (HP : 0 < 2 ^ (ez2 + 149)) by (apply Z.pow_pos_nonneg; lia).
  assert (HK : 0 < 2 ^ (f - ez2)) by (apply Z.pow_pos_nonneg; lia).
  assert (HX : Z.pos mz * 2 ^ (ez + 149) = Z.pos mz2 * 2 ^ (ez2 + 149)).
  { rewrite Hfst. replace (ez + 149) with ((ez - Z.min ez f) + (ez2 + 149)) by lia.
    rewrite Z.pow_add_r by lia. ring. }
  assert (HF : 2 ^ (f + 149) = 2 ^ (f - ez2) * 2 ^ (ez2 + 149)).
  { rewrite <- Z.pow_add_r by lia. f_equal. lia. }
  rewrite HX, HF in Hq. rewrite HV, HX, HF.
  set (P := 2 ^ (ez2 + 149)) in *. set (K := 2 ^ (f - ez2)) in *.
  rewrite !Z.mul_1_r in Herr.
  assert (Hmq : Z.pos mz2 = q * K).
  { apply (Z.mul_cancel_r _ _ P); [lia|]. rewrite Hq. ring. }
  rewrite Hmq in Herr.
  assert (Hm1q : m1 = q).
  { replace (m1 * K - q * K) with ((m1 - q) * K) in Herr by ring.
    destruct (Z_lt_le_dec m1 q).
    - assert ((m1 - q) * K <= (-1) * K) by (apply Z.mul_le_mono_nonneg_r; lia). lia.
    - destruct (Z_lt_le_dec q m1); [|lia].
      assert (1 * K <= (m1 - q) * K) by (apply Z.mul_le_mono_nonneg_r; lia). lia. }
  subst m1. split.
  - destruct Hres as [[_ H0]|[Hp _]]; [|exact Hp].
    subst q. lia.
  - rewrite Hmq. ring.
Qed.

(** The binary32 sum of two positive numbers is their exact sum when the
    format represents it. *)
Lemma add_exact x y :
  positiveFinite x = true -> positiveFinite y = true ->
  fexp 24 128 (Zdigits2 (units x + units y) - 149) < 104 ->
  (exists q, units x + units y =
             q * 2 ^ (fexp 24 128 (Zdigits2 (units x + units y) - 149) + 149)) ->
  positiveFinite (SFadd 24 128 x y) = true /\
  units (SFadd 24 128 x y) = units x + units y.
Proof.
  intros Hx Hy.
  destruct (positiveFinite_inv x Hx) as (mx & ex & -> & Hex).
  destruct (positiveFinite_inv y Hy) as (my & ey & -> & Hey).
  cbn [SFadd cond_Zopp units].
  set (ez := Z.min ex ey).
  destruct (shl_align_spec mx ex ez) as [_ Ha].
  destruct (shl_align_spec my ey ez) as [_ Hb].
  set (a := fst (shl_align mx ex ez)) in *. set (b := fst (shl_align my ey ez)) in *.
  change (Z.pos a + Z.pos b) with (Z.pos (a + b)).
  cbn [binary_normalize].
  replace (Z.min ex ez) with ez in Ha by lia.
  replace (Z.min ey ez) with ez in Hb by lia.
  assert (HX : Z.pos mx * 2 ^ (ex + 149) + Z.pos my * 2 ^ (ey + 149)
               = Z.pos (a + b) * 2 ^ (ez + 149)).
  { rewrite Pos2Z.inj_add, Ha, Hb.
    replace (ex + 149) with ((ex - ez) + (ez + 149)) by lia.
    replace (ey + 149) with ((ey - ez) + (ez + 149)) by lia.
    rewrite (Z.pow_add_r 2 (ex - ez)), (Z.pow_add_r 2 (ey - ez)) by lia. ring. }
  rewrite HX. apply binary_round_exact. lia.
Qed.

(** The binary32 sum of [k] ones, for [k] up to [2^24], is [k]. *)
Lemma sum_of_ones (k : nat) :
  (1 <= k)%nat -> Z.of_nat k <= 2 ^ 24 ->
  positiveFinite (fold_left F32.add (replicate k F32.one) F32.zero) = true /\
  units (fold_left F32.add (replicate k F32.one) F32.zero) = Z.of_nat k * 2 ^ 149.
Proof.
  induction k as [|k IH]; intros H1 Hk; [lia|].
  destruct k as [|j].
  { split; reflexivity. }
  rewrite replicate_S_end, fold_left_app. cbn [fold_left].
  destruct IH as [Hp Hu]; [lia|lia|].
  set (s := fold_left F32.add (replicate (S j) F32.one) F32.zero) in *.
  assert (Hone : units F32.one = 2 ^ 149) by reflexivity.
  assert (HX : units s + units F32.one = Z.of_nat (S (S j)) * 2 ^ 149).
  { rewrite Hu, Hone. lia. }
  set (c := Z.of_nat (S (S j))) in *.
  assert (Hc : 2 <= c <= 2 ^ 24) by (unfold c; lia).
  assert (Hdig : Zdigits2 (c * 2 ^ 149) = Zdigits2 c + 149).
  { apply Zdigits2_shift; lia. }
  assert (Hd1 : 1 <= Zdigits2 c).
  { pose proof (Zdigits2_bounds c ltac:(lia)) as [_ Hhi].
    destruct (Z_lt_le_dec (Zdigits2 c) 1); [|lia].
    assert (2 ^ Zdigits2 c <= 2 ^ 0) by (apply Z.pow_le_mono_r; lia).
    change (2 ^ 0) with 1 in *. lia. }
  assert (Hd25 : Zdigits2 c <= 25).
  { apply Zdigits2_le; [lia|]. change (2 ^ 25) with (2 * 2 ^ 24). lia. }
  change (F32.add s F32.one) with (SFadd 24 128 s F32.one).
  rewrite <- HX.
  apply add_exact; [exact Hp|reflexivity| |]; rewrite HX, Hdig, fexp32;
    replace (Zdigits2 c + 149 - 149) with (Zdigits2 c) by lia.
  - lia.
  - replace (Z.max (Zdigits2 c - 24) (-149)) with (Zdigits2 c - 24) by lia.
    destruct (Z.eq_dec (Zdigits2 c) 25) as [E25|NE].
    + (* c = 2^24 *)
      pose proof (Zdigits2_bounds c ltac:(lia)) as [Hlo _].
      rewrite E25 in Hlo. change (2 ^ (25 - 1)) with (2 ^ 24) in Hlo.
      assert (c = 2 ^ 24) by lia.
      exists (2 ^ 23). rewrite E25, H. reflexivity.
    + exists (c * 2 ^ (24 - Zdigits2 c)).
      rewrite <- Z.mul_assoc, <- Z.pow_add_r by lia. do 2 f_equal. lia.
Qed.

End ExactSums.

(** X19. With the weight function of the Box kernel (the kernels Box and
    Nearest), a target that has up to [2^24] instructions gives all of
    them the same weight [1 / s], one binary32 division, where [s] is
    the binary32 sum of their kernel weights and is exactly their
    number. *)
Theorem box_weights_uniform ntarget nsource left right filter radiusMultiplier
        (program : MadProgram) (t : nat) :
  fn filter = fn Box ->
  (0 <= ntarget < 2 ^ 32)%Z ->
  generateMadProgram ntarget nsource left right filter radiusMultiplier [] = Ok program ->
  (Z.of_nat (length (instructionsOf (Z.of_nat t) program)) <= 2 ^ 24)%Z ->
  exists (s : float) (q : Q),
    F32.to_Q s = Some q /\
    (q == inject_Z (Z.of_nat (length (instructionsOf (Z.of_nat t) program))))%Q /\
    Forall (fun mad => weight mad = F32.one / s) (instructionsOf (Z.of_nat t) program).
Proof.
  intros Hfn Hn Hgen Hlen.
  destruct (instructionsOf (Z.of_nat t) program) as [|mad0 rest0] eqn:Hinstrs.
  { exists F32.zero, 0%Q. split; [reflexivity|]. split; [reflexivity|constructor]. }
  assert (Hne : instructionsOf (Z.of_nat t) program <> []) by (rewrite Hinstrs; discriminate).
  rewrite <- Hinstrs in *. clear Hinstrs mad0 rest0.
  pose proof (target_present _ _ _ _ _ _ _ Hn Hgen t Hne) as Ht.
  destruct (target_scan _ _ _ _ _ _ _ Hn Hgen t Ht) as (st & Hst & Hinstr).
  destruct (scanOf_inv _ _ _ _ _ _ _ _ _ Hst) as (lo & hi & _ & _ & Hinv).
  pose proof (inv_sum _ _ _ _ _ _ Hinv) as Hsum.
  pose proof (scanOf_weights _ _ _ _ _ _ _ _ _ Hst) as Hw.
  assert (Hones : map weight (result_ st) = replicate (length (result_ st)) F32.one).
  { clear -Hw Hfn. induction Hw as [|mad l [Hnz [d Hd]] _ IH]; [reflexivity|].
    cbn [map length replicate]. f_equal; [|exact IH].
    rewrite Hfn in Hd. cbn [fn Box] in Hd. rewrite Hd in Hnz |- *.
    destruct (d <=? F32.half); [reflexivity|discriminate]. }
  assert (Hk : length (instructionsOf (Z.of_nat t) program) = length (result_ st)).
  { rewrite Hinstr. unfold blockOf. destruct (F32.ne _ _); [apply length_map|reflexivity]. }
  assert (Hres : result_ st <> []).
  { intros E. apply Hne. rewrite Hinstr. apply blockOf_nil. exact E. }
  rewrite Hk in *.
  assert (Hk1 : (1 <= length (result_ st))%nat).
  { destruct (result_ st); [contradiction|cbn [length]; lia]. }
  destruct (sum_of_ones (length (result_ st)) Hk1 Hlen) as [Hp Hu].
  rewrite <- Hones, <- Hsum in Hp, Hu.
  destruct (to_Q_units (sum st) (or_intror Hp)) as (q & Hq & Eq).
  exists (sum st), q. split; [exact Hq|]. split.
  - rewrite Eq, Hu. unfold Qeq. cbn [Qnum Qden inject_Z].
    rewrite Pos2Z.inj_pow. change (Z.pos 2 ^ Z.pos 149)%Z with (2 ^ 149)%Z. ring.
  - rewrite Hinstr. unfold blockOf.
    destruct (positiveFinite_inv _ Hp) as (m & e & Es & _).
    rewrite Es. cbn [F32.ne SFeqb SFcompare F32.zero negb]. rewrite <- Es.
    apply Forall_map. 
    assert (Hall1 : Forall (fun mad => weight mad = F32.one) (result_ st)).
    { clear -Hones. induction (result_ st) as [|a l IH]; [constructor|].
      cbn [map length replicate] in Hones. injection Hones as Ha Hl.
      constructor; [exact Ha|apply IH; exact Hl]. }
    eapply Forall_impl; [exact Hall1|]. intros mad Hm. cbn [divWeight weight].
    rewrite Hm. reflexivity.
Qed.

End ImageSampler.

(* ===================================================================== *)
(** ** Evaluations on concrete inputs *)
(* ===================================================================== *)

Local Open Scope f32_scope.

(** Two evaluations of the whole 1D pass: the Box filter maps the row
    1, 2, 3, 4 to 1.5, 3.5 and the minimum reduction maps 5, 2, 8, 1 to
    2, 1. *)
Example box_halves_row :
  exists program,
    resampleImage1D nolibm nolibm novec
      {| getWidth := 4; getHeight := 1; getChannels := 1;
         get := map F32.of_Z [1; 2; 3; 4]%Z |}
      [] 2 BOX F32.zero F32.one F32.one
    = Ok ({| getWidth := 2; getHeight := 1; getChannels := 1;
             get := [F32.of_Z 3 / F32.two; F32.of_Z 7 / F32.two] |}, program).
Proof. eexists. vm_compute. reflexivity. Qed.

Example minimum_of_row :
  exists program,
    resampleImage1D nolibm nolibm novec row4 [] 2 MINIMUM F32.zero F32.one F32.one
    = Ok ({| getWidth := 2; getHeight := 1; getChannels := 1;
             get := [F32.of_Z 2; F32.of_Z 1] |}, program).
Proof. eexists. vm_compute. reflexivity. Qed.

(** C1 as stated fails: for the Mitchell kernel, 3 source samples, 8 targets,
    the whole row and the radius multiplier 0.41782171, target 2 has two
    instructions, of weights 4096.169... and -4095.169..., whose sum is
    0.999755859375. *)
Lemma mitchell_weight_sum_off :
  exists program,
    generateMadProgram 8 3 F32.zero F32.one Mitchell radiusNearCancel [] = Ok program /\
    instructionsOf 2 program <> [] /\
    (exists q, weightSum 2 program = Some q /\ (q == 4095 # 4096)%Q) /\
    zeroOrOne (weightSum 2 program) = false.
Proof.
  eexists. split; [vm_compute; reflexivity|].
  split; [vm_compute; discriminate|].
  split; [|vm_compute; reflexivity].
  eexists. split; [vm_compute; reflexivity|]. reflexivity.
Qed.

(** A second failure of C1: when [left = right] the weight is NaN. *)
Lemma empty_region_weight_nan :
  generateMadProgram 1 1 F32.half F32.half Hermite F32.one []
  = Ok [ {| targetIndex := 0; sourceIndex := 0; weight := F32.nan |} ].
Proof. vm_compute. reflexivity. Qed.

(** C2 as stated fails for Nearest: its radius is 0 and its weight at
    distance 0 is 1. *)
Lemma nearest_nonzero_at_radius :
  ~ (forall k t,
        In k (registry nolibm nolibm) ->
        (t >=? F32.zero) = true -> (t >=? boundingRadius k) = true ->
        fn k t = F32.zero).
Proof.
  intros H.
  specialize (H Nearest F32.zero).
  assert (Hin : In Nearest (registry nolibm nolibm)) by (right; left; reflexivity).
  specialize (H Hin eq_refl eq_refl). vm_compute in H. discriminate.
Qed.

(** C3 as stated fails: for the Box kernel, one source sample and one
    target, the centre is 0.5 and [filterBounds] is 1; the claimed interval
    starts at floor(-0.5) = -1, the scan starts at 0. *)
Lemma scan_starts_at_truncation :
  claimedCentre 1 0 = xtargetAt 1 0 /\
  claimedInterval 1 1 F32.zero F32.one Box F32.one 0 = Some (-1, 2)%Z /\
  isource_lower 1 1 F32.zero F32.one Box F32.one (xtargetAt 1 0) = Ok 0%Z /\
  isource_upper 1 1 F32.zero F32.one Box F32.one (xtargetAt 1 0) = Ok 2%Z /\
  ~ In (-1)%Z (Zseq 0 (Z.to_nat (2 - 0 + 1))).
Proof.
  repeat split; try (vm_compute; reflexivity).
  vm_compute. intros [H|[H|[H|[]]]]; discriminate.
Qed.

(** C4 as stated fails: over the region [0.75, 1) of a one-sample row no
    instruction is generated, and the target keeps the largest finite float,
    not +infinity. *)
Lemma minimum_prefill_is_max_float :
  exists image program,
    resampleImage1D nolibm nolibm novec image1x1 [] 1 MINIMUM
                    threeQuarters F32.one F32.one = Ok (image, program) /\
    get image = [F32.max_float] /\
    claimedMinimum image1x1 program 1 = Ok [F32.infinity] /\
    F32.max_float <> F32.infinity.
Proof.
  eexists. eexists. split; [vm_compute; reflexivity|].
  split; [reflexivity|]. split; [vm_compute; reflexivity|].
  vm_compute. discriminate.
Qed.

(** C5 as stated fails: for the Mitchell kernel, 2 source samples, 8 targets
    and the radius multiplier 0.33205593, the scan of target 3 gathers the
    weights 0.0039887... and -0.0039887..., whose sum is 0, and both
    instructions stay in the program. *)
Lemma mitchell_zero_sum_with_instructions :
  exists st program,
    scanOf 8 2 F32.zero F32.one Mitchell radiusCancel 3 (xtargetAt 8 3) = Ok st /\
    sum st = F32.zero /\
    generateMadProgram 8 2 F32.zero F32.one Mitchell radiusCancel [] = Ok program /\
    instructionsOf 3 program =
      [ {| targetIndex := 3; sourceIndex := 0;
           weight := S754_finite false 8565760 (-31) |};
        {| targetIndex := 3; sourceIndex := 1;
           weight := S754_finite true 8565760 (-31) |} ].
Proof.
  eexists. eexists. split; [vm_compute; reflexivity|].
  split; [reflexivity|]. split; vm_compute; reflexivity.
Qed.

(** C10 as stated fails: for a row of 10^9 pixels of 3 channels resampled to
    2 targets with NEAREST, the instruction for target 1 reads pixel
    750000000; multiplied by 3 on 32 bits its source index is
    -2044967296. *)
Lemma wide_row_source_index_wraps :
  createFilterFunction nolibm nolibm NEAREST = Ok Nearest /\
  exists program0,
    generateMadProgram 2 1000000000 F32.zero F32.one Nearest F32.one [] = Ok program0 /\
    Exists (fun mad => sourceIndex mad = (-2044967296)%Z)
           (expandMadProgram 3 program0).
Proof.
  split; [reflexivity|]. eexists. split; [vm_compute; reflexivity|].
  vm_compute. do 3 apply Exists_cons_tl. apply Exists_cons_hd. reflexivity.
Qed.

(* ===================================================================== *)
(** ** The theorems at concrete inputs *)
(* ===================================================================== *)

(** [weights_renormalized] for the Box kernel, 4 source samples and 2
    targets, at target 0; the two kernel weights gathered there are
    positive, so that the sum of the target's weights is within the
    tolerance. *)
Lemma weights_renormalized_witness :
  exists program,
    (0 <= 2 < 2 ^ 32)%Z /\
    generateMadProgram 2 4 F32.zero F32.one Box F32.one [] = Ok program /\
    instructionsOf (Z.of_nat 0) program <> [] /\
    exists st,
      (scanOf 2 4 F32.zero F32.one Box F32.one (Z.of_nat 0) (xtargetAt 2 0) = Ok st /\
       sum st = fold_left F32.add (map weight (result_ st)) F32.zero /\
       instructionsOf (Z.of_nat 0) program =
         (if sum st !=? F32.zero
          then map (fun mad => {| targetIndex := targetIndex mad;
                                  sourceIndex := sourceIndex mad;
                                  weight := weight mad / sum st |})
                   (result_ st)
          else result_ st) /\
       (forall mad,
           result_ st = [mad] -> F32.is_finite (weight mad) = true ->
           instructionsOf (Z.of_nat 0) program =
             [ {| targetIndex := targetIndex mad;
                  sourceIndex := sourceIndex mad;
                  weight := F32.one |} ]) /\
       (Forall (fun mad => positiveFinite (weight mad) = true) (result_ st) ->
        (length (result_ st) <= 64)%nat ->
        zeroOrOne (weightSum (Z.of_nat 0) program) = true)) /\
      Forall (fun mad => positiveFinite (weight mad) = true) (result_ st) /\
      (length (result_ st) <= 64)%nat /\
      zeroOrOne (weightSum (Z.of_nat 0) program) = true.
Proof.
  eexists. split; [lia|]. split; [vm_compute; reflexivity|].
  split; [vm_compute; discriminate|].
  match goal with
  | |- exists st, _ /\ _ /\ _ /\ zeroOrOne (weightSum _ ?p) = true =>
      destruct (weights_renormalized 2 4 F32.zero F32.one Box F32.one p)
        with (t := 0%nat) as (st & Hst & Hsum & Hinstr & Hone & Htol)
  end.
  - lia.
  - vm_compute. reflexivity.
  - vm_compute. discriminate.
  - exists st.
    assert (HF : Forall (fun mad => positiveFinite (weight mad) = true) (result_ st)).
    { pose proof Hst as Hst'. vm_compute in Hst'. injection Hst' as <-.
      repeat constructor. }
    assert (HL : (length (result_ st) <= 64)%nat).
    { pose proof Hst as Hst'. vm_compute in Hst'. injection Hst' as <-.
      cbn [result_ length]. lia. }
    split; [|split; [exact HF|split; [exact HL|exact (Htol HF HL)]]].
    repeat (split; [assumption|]). assumption.
Defined.

(** [default_filter_resolved] on the row 5, 2, 8, 1: resampled to 5
    targets [DEFAULT] gives what [MITCHELL] gives and not what [LANCZOS]
    gives; resampled to 4 and to 3 targets it gives what [LANCZOS] gives
    and not what [MITCHELL] gives. The program it returns is the one
    generated with the Mitchell kernel for 5 targets and with the Lanczos
    kernel for 3. *)
Lemma default_filter_resolved_witness :
  (resampleImage1D nolibm sinfSeries novec row4 [] 5 DEFAULT
     F32.zero F32.one F32.one =
    resampleImage1D nolibm sinfSeries novec row4 [] 5 MITCHELL
      F32.zero F32.one F32.one /\
   resampleImage1D nolibm sinfSeries novec row4 [] 5 DEFAULT
     F32.zero F32.one F32.one <>
    resampleImage1D nolibm sinfSeries novec row4 [] 5 LANCZOS
      F32.zero F32.one F32.one /\
   exists r,
    resampleImage1D nolibm sinfSeries novec row4 [] 5 DEFAULT
      F32.zero F32.one F32.one = Ok r) /\
  (resampleImage1D nolibm sinfSeries novec row4 [] 4 DEFAULT
     F32.zero F32.one F32.one =
    resampleImage1D nolibm sinfSeries novec row4 [] 4 LANCZOS
      F32.zero F32.one F32.one /\
   resampleImage1D nolibm sinfSeries novec row4 [] 4 DEFAULT
     F32.zero F32.one F32.one <>
    resampleImage1D nolibm sinfSeries novec row4 [] 4 MITCHELL
      F32.zero F32.one F32.one /\
   exists r,
    resampleImage1D nolibm sinfSeries novec row4 [] 4 DEFAULT
      F32.zero F32.one F32.one = Ok r) /\
  (resampleImage1D nolibm sinfSeries novec row4 [] 3 DEFAULT
     F32.zero F32.one F32.one =
    resampleImage1D nolibm sinfSeries novec row4 [] 3 LANCZOS
      F32.zero F32.one F32.one /\
   resampleImage1D nolibm sinfSeries novec row4 [] 3 DEFAULT
     F32.zero F32.one F32.one <>
    resampleImage1D nolibm sinfSeries novec row4 [] 3 MITCHELL
      F32.zero F32.one F32.one /\
   exists r,
    resampleImage1D nolibm sinfSeries novec row4 [] 3 DEFAULT
      F32.zero F32.one F32.one = Ok r) /\
  (exists image program0,
     generateMadProgram 5 4 F32.zero F32.one Mitchell F32.one [] = Ok program0 /\
     resampleImage1D nolibm sinfSeries novec row4 [] 5 DEFAULT
       F32.zero F32.one F32.one = Ok (image, program0)) /\
  (exists image program0,
     generateMadProgram 3 4 F32.zero F32.one (Lanczos sinfSeries) F32.one []
       = Ok program0 /\
     resampleImage1D nolibm sinfSeries novec row4 [] 3 DEFAULT
       F32.zero F32.one F32.one = Ok (image, program0)).
Proof.
  pose proof (proj1 (proj2 (default_filter_resolved nolibm sinfSeries novec row4 []
                              5 F32.zero F32.one F32.one))) as H5.
  pose proof (proj1 (proj2 (default_filter_resolved nolibm sinfSeries novec row4 []
                              4 F32.zero F32.one F32.one))) as H4.
  pose proof (proj1 (proj2 (default_filter_resolved nolibm sinfSeries novec row4 []
                              3 F32.zero F32.one F32.one))) as H3.
  change (if (5 >? getWidth row4)%Z then MITCHELL else LANCZOS) with MITCHELL in H5.
  change (if (4 >? getWidth row4)%Z then MITCHELL else LANCZOS) with LANCZOS in H4.
  change (if (3 >? getWidth row4)%Z then MITCHELL else LANCZOS) with LANCZOS in H3.
  split; [|split; [|split; [|split]]].
  - split; [exact H5|]. split; [|eexists; vm_compute; reflexivity].
    rewrite H5. vm_compute. discriminate.
  - split; [exact H4|]. split; [|eexists; vm_compute; reflexivity].
    rewrite H4. vm_compute. discriminate.
  - split; [exact H3|]. split; [|eexists; vm_compute; reflexivity].
    rewrite H3. vm_compute. discriminate.
  - eexists. eexists. split; [vm_compute; reflexivity|].
    rewrite (proj1 (default_filter_resolved nolibm sinfSeries novec row4 []
                      5 F32.zero F32.one F32.one)).
    vm_compute. reflexivity.
  - eexists. eexists. split; [vm_compute; reflexivity|].
    rewrite (proj1 (default_filter_resolved nolibm sinfSeries novec row4 []
                      3 F32.zero F32.one F32.one)).
    vm_compute. reflexivity.
Defined.

(** [kernel_zero_beyond_radius] at distance 2 for Mitchell and at distance 1
    for Nearest. *)
Lemma kernel_zero_beyond_radius_witness :
  In (Mitchell) [Box; Gaussian nolibm; Hermite; Mitchell; Lanczos nolibm] /\
  (F32.two >=? boundingRadius Mitchell) = true /\
  fn Mitchell F32.two = F32.zero /\
  (F32.half <? F32.one) = true /\
  fn Nearest F32.one = F32.zero.
Proof.
  split; [do 3 right; left; reflexivity|].
  split; [reflexivity|]. split.
  - apply (proj1 (kernel_zero_beyond_radius nolibm nolibm F32.two) Mitchell).
    + do 3 right. left. reflexivity.
    + reflexivity.
  - split; [reflexivity|].
    apply (proj1 (proj2 (kernel_zero_beyond_radius nolibm nolibm F32.one))).
    reflexivity.
Defined.

(** [candidates_scanned] for the Box kernel, 4 source samples and 2 targets,
    at target 1. *)
Lemma candidates_scanned_witness :
  exists program,
    (0 <= 2 < 2 ^ 32)%Z /\
    generateMadProgram 2 4 F32.zero F32.one Box F32.one [] = Ok program /\
    (Z.of_nat 1 < 2)%Z /\
    exists lo hi candidates,
      filterBounds 2 4 F32.zero F32.one Box F32.one =
        domainScale 2 4 F32.zero F32.one F32.one * F32.abs (boundingRadius Box) /\
      F32.trunc ((xtargetAt 2 1 - filterBounds 2 4 F32.zero F32.one Box F32.one)
                 * F32.of_Z 4) = Some lo /\
      F32.trunc (F32.ceilf ((xtargetAt 2 1 + filterBounds 2 4 F32.zero F32.one Box F32.one)
                            * F32.of_Z 4)) = Some hi /\
      candidates = Zseq lo (Z.to_nat (hi - lo + 1)) /\
      (forall i, In i candidates <-> (lo <= i <= hi)%Z) /\
      instructionsOf (Z.of_nat 1) program =
        blockOf (fold_left
                   (fun st i =>
                      scanBody 2 4 F32.zero F32.one Box F32.one
                               (Z.of_nat 1) (xtargetAt 2 1) i st)
                   candidates
                   {| result_ := []; count := 0; sum := F32.zero |}).
Proof.
  eexists. split; [lia|]. split; [vm_compute; reflexivity|]. split; [lia|].
  apply (candidates_scanned 2 4 F32.zero F32.one Box F32.one).
  - lia.
  - vm_compute. reflexivity.
  - lia.
Defined.

(** [minimum_reduction] on the row 5, 2, 8, 1 reduced to 2 targets: the
    second target is 1. *)
Lemma minimum_reduction_witness :
  exists image program',
    resampleImage1D nolibm nolibm novec row4 [] 2 MINIMUM F32.zero F32.one F32.one
      = Ok (image, program') /\
    get image !! (0 * Z.to_nat (2 * getChannels row4) + 1)%nat =
      Some (fold_left
              (fun b mad =>
                 fmin (default F32.zero
                         (get row4 !! Z.to_nat
                            (Z.of_nat 0 * (getWidth row4 * getChannels row4)
                             + sourceIndex mad)))
                      b)
              (instructionsOf (Z.of_nat 1) program')
              F32.max_float) /\
    get image !! 1%nat = Some (F32.of_Z 1).
Proof.
  eexists. eexists. split; [vm_compute; reflexivity|]. split.
  - apply (minimum_reduction nolibm nolibm novec row4 [] 2 F32.zero F32.one F32.one).
    + unfold wellFormed. simpl. lia.
    + lia.
    + simpl. lia.
    + simpl. lia.
    + vm_compute. reflexivity.
    + simpl. lia.
    + simpl. lia.
  - reflexivity.
Defined.

(** [zero_sum_keeps_instructions] for the Mitchell kernel at the target
    whose two weights cancel. *)
Lemma zero_sum_keeps_instructions_witness :
  exists program,
    (0 <= 8 < 2 ^ 32)%Z /\
    generateMadProgram 8 2 F32.zero F32.one Mitchell radiusCancel [] = Ok program /\
    (Z.of_nat 3 < 8)%Z /\
    exists st,
      scanOf 8 2 F32.zero F32.one Mitchell radiusCancel (Z.of_nat 3) (xtargetAt 8 3)
        = Ok st /\
      count st = Z.of_nat (length (result_ st)) /\
      (count st = 0%Z ->
       sum st = F32.zero /\ instructionsOf (Z.of_nat 3) program = []) /\
      ((sum st !=? F32.zero) = false ->
       instructionsOf (Z.of_nat 3) program = result_ st).
Proof.
  eexists. split; [lia|]. split; [vm_compute; reflexivity|]. split; [lia|].
  apply (zero_sum_keeps_instructions 8 2 F32.zero F32.one Mitchell radiusCancel).
  - lia.
  - vm_compute. reflexivity.
  - lia.
Defined.

(** [resampleImage_dimensions] on a 2 x 2 image of 2 channels resampled to
    3 x 1. *)
Lemma resampleImage_dimensions_witness :
  exists image,
    resampleImage nolibm nolibm novec image2x2 3 1 (excludeAll BOX NEAREST) = Ok image /\
    getWidth image = 3%Z /\ getHeight image = 1%Z /\
    getChannels image = getChannels image2x2.
Proof.
  eexists. split; [vm_compute; reflexivity|].
  apply (proj1 (resampleImage_dimensions nolibm nolibm novec image2x2 3 1
                  (excludeAll BOX NEAREST))).
  vm_compute. reflexivity.
Defined.

(** [built_program_in_bounds] on the 2 x 2 image of 2 channels resampled to
    width 3 with the Box kernel. *)
Lemma built_program_in_bounds_witness :
  exists program0,
    generateMadProgram 3 (getWidth image2x2) F32.zero F32.one Box F32.one []
      = Ok program0 /\
    Forall (fun mad =>
              (0 <= sourceIndex mad < getWidth image2x2 * getChannels image2x2)%Z /\
              (0 <= targetIndex mad < 3 * getChannels image2x2)%Z)
           (expandMadProgram (getChannels image2x2) program0) /\
    forall op target,
      Z.of_nat (length target) = (3 * getHeight image2x2 * getChannels image2x2)%Z ->
      exists target',
        rowLoop (execRow op (expandMadProgram (getChannels image2x2) program0)
                         (get image2x2))
                (Z.to_nat (getHeight image2x2))
                (wrap_uint32 (getWidth image2x2 * getChannels image2x2))
                (wrap_uint32 (3 * getChannels image2x2)) 0 0 target
        = Ok target'.
Proof.
  eexists. split; [vm_compute; reflexivity|].
  apply (built_program_in_bounds nolibm nolibm image2x2 3 BOX F32.zero F32.one F32.one Box).
  - unfold wellFormed. simpl. lia.
  - lia.
  - simpl. lia.
  - simpl. lia.
  - reflexivity.
  - vm_compute. reflexivity.
Defined.

(* ===================================================================== *)
(** ** The further properties at concrete inputs *)
(* ===================================================================== *)

(** [expanded_channel_instructions] for the Box program of 4 source samples
    and 2 targets, expanded to 2 channels, at target 1 and channel 1. *)
Lemma expanded_channel_instructions_witness :
  exists program,
    generateMadProgram 2 4 F32.zero F32.one Box F32.one [] = Ok program /\
    Forall (inRow 4 2) program /\
    (4 * 2 <= 2 ^ 31)%Z /\ (2 * 2 <= 2 ^ 32)%Z /\ (0 <= 1 < 2)%Z /\
    instructionsOf (1 * 2 + 1) (expandMadProgram 2 program) =
      map (fun mad => {| targetIndex := 1 * 2 + 1;
                         sourceIndex := sourceIndex mad * 2 + 1;
                         weight := weight mad |})
          (instructionsOf 1 program).
Proof.
  eexists. split; [vm_compute; reflexivity|].
  match goal with
  | |- Forall (inRow 4 2) ?p /\ _ =>
      assert (Hrow : Forall (inRow 4 2) p)
        by (repeat (constructor; [unfold inRow; cbn; lia|]); constructor)
  end.
  split; [exact Hrow|]. split; [lia|]. split; [lia|]. split; [lia|].
  apply (expanded_channel_instructions 4 2 2 _ 1 1 Hrow); lia.
Defined.

(** [generated_program_sorted] for the Box kernel, 4 source samples and 2
    targets. *)
Lemma generated_program_sorted_witness :
  exists program,
    (0 <= 2 <= 2 ^ 32)%Z /\
    generateMadProgram 2 4 F32.zero F32.one Box F32.one [] = Ok program /\
    StronglySorted madBefore program /\
    NoDup (map (fun mad => (targetIndex mad, sourceIndex mad)) program).
Proof.
  eexists. split; [lia|]. split; [vm_compute; reflexivity|].
  apply (generated_program_sorted 2 4 F32.zero F32.one Box F32.one).
  - lia.
  - vm_compute. reflexivity.
Defined.

(** [rejected_samples_never_contribute] for the Mitchell kernel, 3 source
    samples and 8 targets. *)
Lemma rejected_samples_never_contribute_witness :
  exists program,
    rejectExternalSamples Mitchell = true /\
    (0 <= 8 <= 2 ^ 32)%Z /\
    generateMadProgram 8 3 F32.zero F32.one Mitchell F32.one [] = Ok program /\
    Forall (fun mad =>
              let xsource := xsource_of 3 F32.zero F32.one (sourceIndex mad) in
              (0 <= sourceIndex mad < wrap_int32 3)%Z /\
              (xsource <? F32.zero) = false /\ (xsource >=? F32.one) = false)
           program.
Proof.
  eexists. split; [reflexivity|]. split; [lia|]. split; [vm_compute; reflexivity|].
  apply (rejected_samples_never_contribute 8 3 F32.zero F32.one Mitchell F32.one).
  - reflexivity.
  - lia.
  - vm_compute. reflexivity.
Defined.

(** [generated_program_size] for the Mitchell kernel, 3 source samples and
    8 targets. *)
Lemma generated_program_size_witness :
  exists program,
    rejectExternalSamples Mitchell = true /\
    (0 <= 8 <= 2 ^ 32)%Z /\ (0 <= 3)%Z /\
    generateMadProgram 8 3 F32.zero F32.one Mitchell F32.one [] = Ok program /\
    (forall t : nat,
        (Z.of_nat (length (instructionsOf (Z.of_nat t) program)) <= 3)%Z) /\
    (Z.of_nat (length program) <= 8 * 3)%Z.
Proof.
  eexists. split; [reflexivity|]. split; [lia|]. split; [lia|].
  split; [vm_compute; reflexivity|].
  apply (generated_program_size 8 3 F32.zero F32.one Mitchell F32.one).
  - reflexivity.
  - lia.
  - lia.
  - vm_compute. reflexivity.
Defined.

(** [weighted_sum_samples] on the row 5, 2, 8, 1 resampled to 2 targets
    with the Box kernel: the second target is 4.5. *)
Lemma weighted_sum_samples_witness :
  exists image program',
    wellFormed row4 /\
    BOX <> MINIMUM /\ BOX <> GAUSSIAN_NORMALS /\
    resampleImage1D nolibm nolibm novec row4 [] 2 BOX F32.zero F32.one F32.one
      = Ok (image, program') /\
    get image !! (0 * Z.to_nat (2 * getChannels row4) + 1)%nat =
      Some (fold_left
              (fun b mad =>
                 b + default F32.zero
                       (get row4 !! Z.to_nat
                          (Z.of_nat 0 * (getWidth row4 * getChannels row4)
                           + sourceIndex mad))
                     * weight mad)
              (instructionsOf (Z.of_nat 1) program')
              F32.zero) /\
    get image !! 1%nat = Some (F32.of_Z 9 / F32.two).
Proof.
  eexists. eexists.
  split; [unfold wellFormed; simpl; lia|].
  split; [discriminate|]. split; [discriminate|].
  split; [vm_compute; reflexivity|]. split.
  - apply (weighted_sum_samples nolibm nolibm novec row4 [] 2 BOX
             F32.zero F32.one F32.one).
    + unfold wellFormed. simpl. lia.
    + lia.
    + simpl. lia.
    + simpl. lia.
    + discriminate.
    + discriminate.
    + vm_compute. reflexivity.
    + simpl. lia.
    + simpl. lia.
  - vm_compute. reflexivity.
Defined.

(** [resampleImage_aborts] on a one-channel image resampled with
    [GAUSSIAN_NORMALS]. *)
Lemma resampleImage_aborts_witness :
  resampleImage nolibm nolibm novec image1x1 1 1 (excludeAll GAUSSIAN_NORMALS BOX)
    = Err (Panic "Must be a 3-channel image."%string) /\
  (("Must be a 3-channel image." = "Not yet implemented.")%string /\
   ~ (mode (east (excludeAll GAUSSIAN_NORMALS BOX)) = EXCLUDE /\
      mode (north (excludeAll GAUSSIAN_NORMALS BOX)) = EXCLUDE /\
      mode (west (excludeAll GAUSSIAN_NORMALS BOX)) = EXCLUDE /\
      mode (south (excludeAll GAUSSIAN_NORMALS BOX)) = EXCLUDE)
   \/
   ("Must be a 3-channel image." = "Must be a 3-channel image.")%string /\
   (horizontalFilter (excludeAll GAUSSIAN_NORMALS BOX) = GAUSSIAN_NORMALS \/
    verticalFilter (excludeAll GAUSSIAN_NORMALS BOX) = GAUSSIAN_NORMALS) /\
   getChannels image1x1 <> 3%Z).
Proof.
  split; [vm_compute; reflexivity|].
  apply (resampleImage_aborts nolibm nolibm novec image1x1 1 1
           (excludeAll GAUSSIAN_NORMALS BOX)).
  vm_compute. reflexivity.
Defined.

(** [normals_need_three_channels] on a one-channel image: the pass
    aborts. *)
Lemma normals_need_three_channels_witness :
  exists program0,
    wellFormed image1x1 /\
    generateMadProgram 1 (getWidth image1x1) F32.zero F32.one (Gaussian nolibm)
                       F32.one [] = Ok program0 /\
    (getChannels image1x1 <> 3%Z <->
     resampleImage1D nolibm nolibm novec image1x1 [] 1 GAUSSIAN_NORMALS
                     F32.zero F32.one F32.one
     = Err (Panic "Must be a 3-channel image."%string)) /\
    (getChannels image1x1 = 3%Z <->
     exists image program',
       resampleImage1D nolibm nolibm novec image1x1 [] 1 GAUSSIAN_NORMALS
                       F32.zero F32.one F32.one
       = Ok (image, program')).
Proof.
  eexists. split; [unfold wellFormed; simpl; lia|].
  split; [vm_compute; reflexivity|].
  eapply (normals_need_three_channels nolibm nolibm novec image1x1 [] 1
            F32.zero F32.one F32.one).
  - unfold wellFormed. simpl. lia.
  - lia.
  - simpl. lia.
  - simpl. lia.
  - vm_compute. reflexivity.
Defined.

(** [resampleImage1D_buffer] on the 2 x 2 image of 2 channels resampled to
    width 3: 12 samples. *)
Lemma resampleImage1D_buffer_witness :
  exists image program',
    resampleImage1D nolibm nolibm novec image2x2 [] 3 BOX F32.zero F32.one F32.one
      = Ok (image, program') /\
    getWidth image = 3%Z /\ getHeight image = getHeight image2x2 /\
    getChannels image = getChannels image2x2 /\
    length (get image) = Z.to_nat (3 * getHeight image2x2 * getChannels image2x2).
Proof.
  eexists. eexists. split; [vm_compute; reflexivity|].
  eapply (resampleImage1D_buffer nolibm nolibm novec image2x2 [] 3 BOX
           F32.zero F32.one F32.one).
  vm_compute. reflexivity.
Defined.

(** [minimum_values] on the row 5, 2, 8, 1 reduced to 2 targets. *)
Lemma minimum_values_witness :
  exists image program',
    (0 <= 2 * getHeight row4 * getChannels row4 < 2 ^ 32)%Z /\
    resampleImage1D nolibm nolibm novec row4 [] 2 MINIMUM F32.zero F32.one F32.one
      = Ok (image, program') /\
    Forall (fun v => v = F32.max_float \/ v ∈ get row4) (get image).
Proof.
  eexists. eexists. split; [simpl; lia|]. split; [vm_compute; reflexivity|].
  eapply (minimum_values nolibm nolibm novec row4 [] 2 F32.zero F32.one F32.one).
  - simpl. lia.
  - vm_compute. reflexivity.
Defined.

(** [rows_are_independent] on two 2 x 2 images of 2 channels that agree on
    row 0 and differ on row 1, resampled to width 3 with the Box kernel. *)
Lemma rows_are_independent_witness :
  exists image1 image2 program1 program2,
    resampleImage1D nolibm nolibm novec image2x2 [] 3 BOX F32.zero F32.one F32.one
      = Ok (image1, program1) /\
    resampleImage1D nolibm nolibm novec image2x2' [] 3 BOX F32.zero F32.one F32.one
      = Ok (image2, program2) /\
    get image1 <> get image2 /\
    program1 = program2 /\
    forall col : nat,
      (Z.of_nat col < 3 * getChannels image2x2)%Z ->
      get image1 !! (0 * Z.to_nat (3 * getChannels image2x2) + col)%nat =
      get image2 !! (0 * Z.to_nat (3 * getChannels image2x2) + col)%nat.
Proof.
  eexists. eexists. eexists. eexists.
  split; [vm_compute; reflexivity|]. split; [vm_compute; reflexivity|].
  split; [vm_compute; discriminate|].
  apply (rows_are_independent nolibm nolibm novec image2x2 image2x2' [] 3 BOX
           F32.zero F32.one F32.one).
  - unfold wellFormed. simpl. lia.
  - unfold wellFormed. simpl. lia.
  - reflexivity.
  - reflexivity.
  - reflexivity.
  - lia.
  - simpl. lia.
  - simpl. lia.
  - discriminate.
  - vm_compute. reflexivity.
  - vm_compute. reflexivity.
  - simpl. lia.
  - intros i Hi. simpl in Hi.
    destruct i as [|[|[|[|i]]]]; try reflexivity. lia.
Defined.

(** [computeSingleSample_result] at the centre of the 2 x 2 image of 2
    channels, with no buffer given. *)
Lemma computeSingleSample_result_witness :
  exists r,
    (getChannels image2x2 <= 2 ^ 32)%Z /\
    computeSingleSample nolibm nolibm novec F32.zero image2x2 F32.half F32.half None BOX
      = Ok r /\
    exists image,
      resampleImage nolibm nolibm novec image2x2 1 1
                    (singleSampler image2x2 F32.half F32.half BOX) = Ok image /\
      True /\
      r = Some (get image ++ drop (Z.to_nat (getChannels image2x2)) (default [] None)).
Proof.
  eexists. split; [simpl; lia|]. split; [vm_compute; reflexivity|].
  apply (proj1 (computeSingleSample_result nolibm nolibm novec F32.zero image2x2
                  F32.half F32.half None BOX _ ltac:(simpl; lia))).
  vm_compute. reflexivity.
Defined.

(** [computeSingleSample_aborts] on a one-channel image sampled with
    [GAUSSIAN_NORMALS]. *)
Lemma computeSingleSample_aborts_witness :
  computeSingleSample nolibm nolibm novec F32.zero image1x1 F32.half F32.half None
                      GAUSSIAN_NORMALS
    = Err (Panic "Must be a 3-channel image."%string) /\
  ("Must be a 3-channel image." = "Must be a 3-channel image.")%string /\
  GAUSSIAN_NORMALS = GAUSSIAN_NORMALS /\ getChannels image1x1 <> 3%Z.
Proof.
  split; [vm_compute; reflexivity|].
  apply (computeSingleSample_aborts nolibm nolibm novec F32.zero image1x1
           F32.half F32.half None GAUSSIAN_NORMALS).
  vm_compute. reflexivity.
Defined.

(** [lanczos_near_zero] at distance 0. *)
Lemma lanczos_near_zero_witness :
  (F32.zero <=? F32.one / F32.of_Z 100000) = true /\
  fn (Lanczos nolibm) F32.zero = F32.one /\ sinc nolibm F32.zero = F32.one.
Proof.
  split; [vm_compute; reflexivity|].
  apply (lanczos_near_zero nolibm F32.zero). vm_compute. reflexivity.
Defined.

(** [box_weights_uniform] for the Box kernel, 4 source samples and 2
    targets, at target 1: two weights of 1/2. *)
Lemma box_weights_uniform_witness :
  exists program,
    fn Box = fn Box /\ (0 <= 2 < 2 ^ 32)%Z /\
    generateMadProgram 2 4 F32.zero F32.one Box F32.one [] = Ok program /\
    (Z.of_nat (length (instructionsOf (Z.of_nat 1) program)) <= 2 ^ 24)%Z /\
    exists (s : float) (q : Q),
      F32.to_Q s = Some q /\
      (q == inject_Z (Z.of_nat (length (instructionsOf (Z.of_nat 1) program))))%Q /\
      Forall (fun mad => weight mad = F32.one / s)
             (instructionsOf (Z.of_nat 1) program).
Proof.
  eexists. split; [reflexivity|]. split; [lia|]. split; [vm_compute; reflexivity|].
  split; [vm_compute; discriminate|].
  apply (box_weights_uniform 2 4 F32.zero F32.one Box F32.one).
  - reflexivity.
  - lia.
  - vm_compute. reflexivity.
  - vm_compute. discriminate.
Defined.

(** [normalize_pixels] on one pixel of 3 channels. *)
Lemma normalize_pixels_witness :
  exists image',
    normalize novec pixel3 = Ok image' /\
    getChannels pixel3 = 3%Z /\
    getWidth image' = getWidth pixel3 /\ getHeight image' = getHeight pixel3 /\
    getChannels image' = getChannels pixel3 /\
    length (get image') = length (get pixel3) /\
    let n := Z.to_nat (wrap_uint32 (getWidth pixel3 * getHeight pixel3)) in
    (forall p : nat, (p < n)%nat ->
       exists x y z,
         get pixel3 !! (3 * p)%nat = Some x /\ get pixel3 !! (3 * p + 1)%nat = Some y /\
         get pixel3 !! (3 * p + 2)%nat = Some z /\
         (get image' !! (3 * p)%nat, get image' !! (3 * p + 1)%nat,
          get image' !! (3 * p + 2)%nat) =
         (let '(x', y', z') := novec (x, y, z) in (Some x', Some y', Some z'))) /\
    drop (3 * n) (get image') = drop (3 * n) (get pixel3).
Proof.
  eexists. split; [vm_compute; reflexivity|].
  apply (normalize_pixels novec pixel3). vm_compute. reflexivity.
Defined.

(** [expandMadProgram_layout] for the Box program of 4 source samples and 2
    targets expanded to 3 channels: the copy of instruction 2 for channel
    1. *)
Lemma expandMadProgram_layout_witness :
  exists program mad,
    generateMadProgram 2 4 F32.zero F32.one Box F32.one [] = Ok program /\
    (3 <> 1)%Z /\ program !! 2%nat = Some mad /\ (1 < Z.to_nat 3)%nat /\
    length (expandMadProgram 3 program) = (Z.to_nat 3 * length program)%nat /\
    expandMadProgram 3 program !! (2 * Z.to_nat 3 + 1)%nat =
      Some {| targetIndex := wrap_uint32 (targetIndex mad * 3 + Z.of_nat 1);
              sourceIndex := wrap_int32 (sourceIndex mad * 3 + Z.of_nat 1);
              weight := weight mad |}.
Proof.
  eexists. eexists. split; [vm_compute; reflexivity|].
  split; [lia|]. split; [reflexivity|]. split; [simpl; lia|].
  apply (expandMadProgram_layout 3 _ 2 1).
  - lia.
  - reflexivity.
  - simpl. lia.
Defined.
